(** * AmyPET frame alignment and VOI extraction: a shallow embedding

  The decision logic of [amypet/align.py] and [amypet/proc.py] is
  translated function by function.  Registration, resampling and NIfTI
  input/output are external services (SPM12, DIPY, nimpa): they are
  taken as section variables, and every call that touches the file
  system or a registration engine is recorded in an event trace.

  Conventions of the embedding:
  - frame times are whole seconds ([Z]); motion metrics and the
    registration threshold are rationals ([Q]); the decay factor is a
    real number ([R]);
  - Python exceptions are values of [exn]; a call either returns or
    raises ([result]);
  - NumPy arrays that the caller can observe after the call live in a
    store indexed by references, so that aliasing is visible. *)

From Stdlib Require Import ZArith QArith Reals Lia Lra List Permutation.
From stdpp Require Import base list strings gmap pretty.
Import ListNotations.

Open Scope Z_scope.

(** ** Python exceptions and results *)

Inductive exn : Type :=
| ValueError (msg : string)
| IndexError (msg : string)
| TypeError (msg : string)
| AttributeError (msg : string)
| KeyError (key : string)
| OverflowError (msg : string)
| OSError (msg : string)
| UnboundLocalError (name : string).

Inductive result (A : Type) : Type :=
| Ok (a : A)
| Raise (e : exn).

Arguments Ok {A} a.
Arguments Raise {A} e.

Definition is_ValueError {A} (r : result A) : Prop :=
  match r with
  | Raise (ValueError _) => True
  | _ => False
  end.

#[global] Instance result_ret : MRet result := fun A a => Ok a.
#[global] Instance result_bind : MBind result := fun A B k r =>
  match r with
  | Ok a => k a
  | Raise e => Raise e
  end.

(** [l[i]] and [l[i] = x] on a Python list or a NumPy vector: an index
    past the end raises. *)
Definition get_item {A} (l : list A) (i : nat) : result A :=
  match l !! i with
  | Some x => Ok x
  | None => Raise (IndexError "index out of range")
  end.

Definition set_item {A} (l : list A) (i : nat) (x : A) : result (list A) :=
  if decide (i < length l)%nat then Ok (<[i := x]> l)
  else Raise (IndexError "assignment index out of range").

(** [enumerate(l)] *)
Definition enumerate {A} (l : list A) : list (nat * A) :=
  combine (seq 0 (length l)) l.

(** [t.index(x)] on a tuple of integers. *)
Fixpoint py_index (t : list nat) (x : nat) : result nat :=
  match t with
  | [] => Raise (ValueError "tuple.index(x): x not in tuple")
  | y :: t' => if (y =? x)%nat then Ok 0%nat
               else match py_index t' x with
                    | Ok k => Ok (S k)
                    | Raise e => Raise e
                    end
  end.

(** ** Floating-point voxel values

    Image arithmetic is kept behind an interface: the embedding relies
    only on the operations the code calls and on zero not being a NaN. *)

Class FloatOps (F : Type) : Type := {
  f0 : F;
  f1 : F;
  fadd : F -> F -> F;
  fmul : F -> F -> F;
  fdiv : F -> F -> F;
  fisnan : F -> bool;
  feqb : F -> F -> bool;
  f_of_Z : Z -> F;
  f0_not_nan : fisnan f0 = false
}.

(** Rationals with one NaN: the instance used to run the model. *)
Definition qfloat : Type := option Q.

Definition qf_lift2 (op : Q -> Q -> Q) (x y : qfloat) : qfloat :=
  match x, y with
  | Some a, Some b => Some (Qred (op a b))
  | _, _ => None
  end.

Definition qf_div (x y : qfloat) : qfloat :=
  match x, y with
  | Some a, Some b => if Qeq_bool b 0 then None else Some (Qred (a / b))
  | _, _ => None
  end.

Definition qf_eqb (x y : qfloat) : bool :=
  match x, y with
  | Some a, Some b => Qeq_bool a b
  | _, _ => false
  end.

#[global] Instance qfloat_ops : FloatOps qfloat := {|
  f0 := Some 0%Q;
  f1 := Some 1%Q;
  fadd := qf_lift2 Qplus;
  fmul := qf_lift2 Qmult;
  fdiv := qf_div;
  fisnan := fun x => match x with None => true | Some _ => false end;
  feqb := qf_eqb;
  f_of_Z := fun z => Some (inject_Z z);
  f0_not_nan := eq_refl
|}.

(** ** Arrays, NIfTI images, paths *)

(** A NumPy array: its shape and its elements in C order. *)
Record ndarray (F : Type) : Type := {
  shape : list nat;
  data : list F
}.
Arguments shape {F} _.
Arguments data {F} _.

Definition ndim {F} (a : ndarray F) : nat := length (shape a).

Definition size_of (shp : list nat) : nat := fold_right Nat.mul 1%nat shp.

(** [np.zeros(shp)] *)
Definition np_zeros {F} `{FloatOps F} (shp : list nat) : ndarray F :=
  {| shape := shp; data := replicate (size_of shp) f0 |}.

(** [a[np.isnan(a)] = 0] *)
Definition nan_to_zero {F} `{FloatOps F} (a : ndarray F) : ndarray F :=
  {| shape := shape a;
     data := map (fun v => if fisnan v then f0 else v) (data a) |}.

(** An array of shape [(len(frames),) + frame_shape], held frame by
    frame. *)
Record stack (F : Type) : Type := {
  frame_shape : list nat;
  frames : list (list F)
}.
Arguments frame_shape {F} _.
Arguments frames {F} _.

Definition stack_array {F} (s : stack F) : ndarray F :=
  {| shape := length (frames s) :: frame_shape s; data := concat (frames s) |}.

(** [np.zeros((n,) + shp)] *)
Definition stack_zeros {F} `{FloatOps F} (n : nat) (shp : list nat) : stack F :=
  {| frame_shape := shp; frames := replicate n (replicate (size_of shp) f0) |}.

(** [s[i, ...] = a]; broadcasting of unequal shapes is not modelled, an
    array of another shape is refused. *)
Definition stack_set {F} (s : stack F) (i : nat) (a : ndarray F) : result (stack F) :=
  if negb (bool_decide (shape a = frame_shape s)) then
    Raise (ValueError "could not broadcast input array")
  else
    fr ← set_item (frames s) i (data a);
    Ok {| frame_shape := frame_shape s; frames := fr |}.

(** A [pathlib.Path], by its components. *)
Definition path : Type := list string.

Definition parent (p : path) : path := removelast p.

Definition basename (p : path) : string := List.last p EmptyString.

Definition pjoin (p : path) (c : string) : path := p ++ [c].

(** The dictionary [nimpa.getnii(f, output='all')] returns; its ['shape']
    is the shape of ['im']. *)
Record nii (F : Type) : Type := {
  nii_im : ndarray F;
  nii_affine : list (list Q);
  nii_transpose : list nat;
  nii_flip : list Z
}.
Arguments nii_im {F} _.
Arguments nii_affine {F} _.
Arguments nii_transpose {F} _.
Arguments nii_flip {F} _.

(** ** External services and their trace *)

(** What [nimpa.coreg_spm] and [nimpa.affine_dipy] hand back. *)
Record spm_result : Type := {
  spm_faff : path;
  spm_rotations : list Q;
  spm_translations : list Q;
  spm_affine : list (list Q)
}.

Record dipy_result : Type := {
  dipy_faff : path;
  dipy_affine : list (list Q)
}.

(** The collaborators of the alignment code.  Each is a function of the
    arguments the code passes; the file system itself is not part of the
    state.  [rot_ss] and [trn_ss] stand for the two root-sum-square
    expressions of the rss metric, which leave the rationals. *)
Record services (F : Type) : Type := {
  getnii : path -> option (nii F);
  is_dir : path -> bool;
  is_file : path -> bool;
  centre_mass_rel : path -> list Q;
  coreg_spm : path -> path -> Q -> string -> string -> path -> spm_result;
  rot_ss : list Q -> Q;
  trn_ss : list Q -> Q;
  aff_dist : list (list Q) -> list Q -> Q;
  affine_dipy : path -> path -> Q -> string -> path -> dipy_result;
  resample_spm : path -> path -> option path -> path -> path;
  resample_dipy : path -> path -> option path -> path -> path;
  rem_chars : string -> string
}.
Arguments getnii {F} _ _.
Arguments is_dir {F} _ _.
Arguments is_file {F} _ _.
Arguments centre_mass_rel {F} _ _.
Arguments coreg_spm {F} _ _ _ _ _ _ _.
Arguments rot_ss {F} _ _.
Arguments trn_ss {F} _ _.
Arguments aff_dist {F} _ _ _.
Arguments affine_dipy {F} _ _ _ _ _ _.
Arguments resample_spm {F} _ _ _ _ _.
Arguments resample_dipy {F} _ _ _ _ _.
Arguments rem_chars {F} _ _.

(** Calls that register images or write to disk, and log warnings. *)
Inductive event (F : Type) : Type :=
| EvWarning (msg : string)
| EvCreateDir (p : path)
| EvArray2Nii (arr : ndarray F) (affine : list (list Q)) (fname : path)
    (descrip : string) (trnsp : list nat) (flip : list Z)
| EvCoregSpm (ref flo : path) (fcomment : string) (outpath : path)
| EvAffineDipy (ref flo : path) (fcomment : string) (outpath : path)
| EvResampleSpm (ref flo : path) (faff : option path) (outpath : path)
| EvResampleDipy (ref flo : path) (faff : option path) (outpath : path)
| EvCopyFile (src dst : path)
| EvMask2Nii (msk : list F) (shp : list nat) (affine : option (list (list Q))) (fname : path)
    (trnsp : list nat) (flip : option (list Z)).
Arguments EvWarning {F} msg.
Arguments EvCreateDir {F} p.
Arguments EvArray2Nii {F} arr affine fname descrip trnsp flip.
Arguments EvCoregSpm {F} ref flo fcomment outpath.
Arguments EvAffineDipy {F} ref flo fcomment outpath.
Arguments EvResampleSpm {F} ref flo faff outpath.
Arguments EvResampleDipy {F} ref flo faff outpath.
Arguments EvCopyFile {F} src dst.
Arguments EvMask2Nii {F} msk shp affine fname trnsp flip.

Definition is_warning {F} (ev : event F) : bool :=
  match ev with
  | EvWarning _ => true
  | _ => false
  end.

(** A computation that appends to the trace and returns or raises. *)
Definition M (F A : Type) : Type := list (event F) -> result A * list (event F).

#[global] Instance M_ret {F} : MRet (M F) := fun A a tr => (Ok a, tr).
#[global] Instance M_bind {F} : MBind (M F) := fun A B k m tr =>
  match m tr with
  | (Ok a, tr') => k a tr'
  | (Raise e, tr') => (Raise e, tr')
  end.

Definition msg_dipy_rss : string :=
  "`rss` is not supported option for DIPY registration - switching to `adst`".

Definition lift {F A} (r : result A) : M F A := fun tr => (r, tr).

Definition emit {F} (ev : event F) : M F unit := fun tr => (Ok tt, tr ++ [ev]).

(** A [for] loop over [l] that threads the loop state. *)
Fixpoint foldM {F A S} (f : S -> A -> M F S) (l : list A) (s : S) : M F S :=
  match l with
  | [] => mret s
  | x :: l' => s' ← f s x; foldM f l' s'
  end.

(** ** Configuration: [Cnt['align']] *)

Record align_config : Type := {
  reg_fwhm : Q;
  reg_thrshld : Q;
  reg_costfun : string;
  frame_min_dur : Z;
  reg_metric : string;
  decay_corr : bool
}.

(** The configuration with another registration metric. *)
Definition with_metric (Cnt : align_config) (m : string) : align_config :=
  {| reg_fwhm := reg_fwhm Cnt; reg_thrshld := reg_thrshld Cnt;
     reg_costfun := reg_costfun Cnt; frame_min_dur := frame_min_dur Cnt;
     reg_metric := m; decay_corr := decay_corr Cnt |}.

(** [reg_metric_list = ['rss', 'adst']] *)
Definition reg_metric_list : list string := ["rss"; "adst"].

Definition msg_metric : string := "Unrecognised registration metric.".

(** [if reg_metric not in reg_metric_list: raise ValueError(...)] *)
Definition check_reg_metric (m : string) : result unit :=
  if negb (existsb (String.eqb m) reg_metric_list) then Raise (ValueError msg_metric)
  else Ok tt.

(** The switch to ['adst'] under DIPY, with its warning. *)
Definition switch_metric {F} (reg_tool m : string) : M F string :=
  if (reg_tool =? "dipy")%string then
    if (m =? "rss")%string then
      _ ← emit (EvWarning msg_dipy_rss);
      mret "adst"
    else mret m
  else mret m.

(** The metric in force after the switch. *)
Definition effective_metric (reg_tool m : string) : string :=
  if (reg_tool =? "dipy")%string && (m =? "rss")%string then "adst" else m.

Definition Qgtb (x y : Q) : bool := negb (Qle_bool x y).

(** [(R > thr) * (metric == 'rss') or (D > thr) * (metric == 'adst')] *)
Definition motion_exceeds (m : string) (thr r d : Q) : bool :=
  (Qgtb r thr && (m =? "rss")%string) || (Qgtb d thr && (m =? "adst")%string).

(** The metric a frame is judged by: [R] under ['rss'], [D] under
    ['adst']. *)
Definition metric_value (m : string) (r d : Q) : Q :=
  if (m =? "rss")%string then r else d.

(** ** Frame mashing ([align_frames], grouping of short frames) *)

Module Mash.

(** [[j for j in range(n) if b[j]]] *)
Definition py_where (b : list bool) (n : nat) : list nat :=
  List.filter (fun j => nth j b false) (seq 0 n).

(** [np.sum] of a boolean array. *)
Definition count_true (b : list bool) : nat :=
  length (List.filter (fun x => x) b).

(** [np.sum(dur[mask])] *)
Fixpoint sum_masked (dur : list Z) (mask : list bool) : Z :=
  match dur, mask with
  | d :: dur', m :: mask' => (if m then d else 0) + sum_masked dur' mask'
  | _, _ => 0
  end.

Definition msg_mash1 : string :=
  "Mashing frames inconsistent: number of frames to be mashed incorrectly established.".
Definition msg_mash2 : string :=
  "Mashing frames inconsistency: number of overall frames, including mashed, is incorrectly established.".
Definition msg_nan : string := "cannot convert float NaN to integer".
Definition msg_inf : string := "cannot convert float infinity to integer".

Section Grouping.

(** [frm_lsize = Cnt['align']['frame_min_dur']] *)
Variable frm_lsize : Z.

(** [dur = np.array([t[1]-t[0] for t in ts])] *)
Definition frame_durations (ts : list (Z * Z)) : list Z :=
  map (fun t => snd t - fst t) ts.

(** [frms_l = dur < frm_lsize] *)
Definition short_frames (dur : list Z) : list bool :=
  map (fun d => d <? frm_lsize) dur.

(** [nset = int(np.floor(np.sum(dur[frms_l])/frm_lsize))]: NumPy
    division by zero gives NaN or an infinity, which [int] refuses. *)
Definition number_of_sets (dur : list Z) (frms_l : list bool) : result Z :=
  let s := sum_masked dur frms_l in
  if frm_lsize =? 0 then
    if s =? 0 then Raise (ValueError msg_nan) else Raise (OverflowError msg_inf)
  else Ok (s / frm_lsize).

(** [sfrms = ts[:,1] <= (i+1)*frm_lsize; sfrms *= ts[:,1] > i*frm_lsize] *)
Definition window_mask (ts : list (Z * Z)) (i : nat) : list bool :=
  map (fun t => (snd t <=? (Z.of_nat i + 1) * frm_lsize)
                && (Z.of_nat i * frm_lsize <? snd t)) ts.

(** One turn of the loop [for i in range(nset)]. *)
Definition mash_step (nfrm : nat) (ts : list (Z * Z))
    (st : list (list nat) * nat) (i : nat) : list (list nat) * nat :=
  let sfrms := window_mask ts i in
  let ifrm := py_where sfrms nfrm in
  (fst st ++ [ifrm], (snd st + length ifrm)%nat).

(** One turn of the loop [for i,frm in enumerate(~frms_l)]. *)
Definition single_step (st : list (list nat) * nat) (ifrm : nat * bool)
    : list (list nat) * nat :=
  if snd ifrm then (fst st ++ [[fst ifrm]], S (snd st)) else st.

(** The grouping stage of [align_frames]: from the frame times to
    [mfrms], the value stored under ['mashed_frame_idx']. *)
Definition mash_frames (nfrm : nat) (ts : list (Z * Z)) : result (list (list nat)) :=
  let dur := frame_durations ts in
  let frms_l := short_frames dur in
  let nmfrm := count_true frms_l in
  match number_of_sets dur frms_l with
  | Raise e => Raise e
  | Ok nset =>
      let st1 := fold_left (mash_step nfrm ts) (seq 0 (Z.to_nat nset)) ([], 0%nat) in
      if negb (snd st1 =? nmfrm)%nat then Raise (ValueError msg_mash1)
      else
        let st2 := fold_left single_step (enumerate (map negb frms_l)) st1 in
        if negb (snd st2 =? nfrm)%nat then Raise (ValueError msg_mash2)
        else Ok (fst st2)
  end.

End Grouping.

(** Every frame index below [n] lies in exactly one group, once. *)
Definition partition_of (groups : list (list nat)) (n : nat) : Prop :=
  (forall i, (i < n)%nat ->
   exists g grp, groups !! g = Some grp /\ In i grp /\
     forall g' grp', groups !! g' = Some grp' -> In i grp' -> g' = g) /\
  (forall grp i, In grp groups -> In i grp -> (i < n)%nat) /\
  (forall grp, In grp groups -> List.NoDup grp).

(** Frames in acquisition order: each starts no earlier than [t0] and no
  earlier than the previous one stopped, and stops no earlier than it
  starts. *)
Fixpoint chronological (t0 : Z) (ts : list (Z * Z)) : Prop :=
  match ts with
  | [] => True
  | t :: ts' => t0 <= fst t /\ fst t <= snd t /\ chronological (snd t) ts'
  end.

(** *** The grouping as the description gives it *)

(** The indices, counted from [k], of the elements that satisfy [p]. *)
Fixpoint find_idx {A} (p : A -> bool) (k : nat) (l : list A) : list nat :=
  match l with
  | [] => []
  | x :: l' => if p x then k :: find_idx p (S k) l' else find_idx p (S k) l'
  end.

(** The number of elements that satisfy [p]. *)
Definition cnt {A} (p : A -> bool) (l : list A) : nat := length (List.filter p l).

(** The total duration of the frames that satisfy [p]. *)
Fixpoint sm (p : Z * Z -> bool) (l : list (Z * Z)) : Z :=
  match l with
  | [] => 0
  | x :: l' => (if p x then snd x - fst x else 0) + sm p l'
  end.

(** The frame stops in the window from [a] (excluded) to [b]. *)
Definition win (a b : Z) (t : Z * Z) : bool := (snd t <=? b) && (a <? snd t).

(** The frame is shorter than [L]. *)
Definition short (L : Z) (t : Z * Z) : bool := snd t - fst t <? L.

(** Windows of length [L] over the end times of the short frames, then
    one group for every frame that is not short. *)
Definition spec_grouping (L : Z) (ts : list (Z * Z)) : list (list nat) :=
  map (fun w => find_idx (fun t => short L t && win (Z.of_nat w * L) ((Z.of_nat w + 1) * L) t) 0 ts)
      (seq 0 (Z.to_nat (sm (short L) ts / L)))
  ++ map (fun j => [j]) (find_idx (fun t => negb (short L t)) 0 ts).

(** Valid frame times: in some order the frames follow one another from
    time 0 on, that is, no frame starts before 0 or stops before it
    starts, and no two overlap. *)
Definition valid_times (ts : list (Z * Z)) : Prop :=
  exists ts', Permutation ts ts' /\ chronological 0 ts'.

End Mash.

(** ** The [times] argument of [align_frames] *)

(** What [np.array(times)] can be: the argument is no list or array at
    all, or an array of some dimension.  Only a 2D array keeps its rows. *)
Inductive times_arg : Type :=
| TimesNotArray
| Times0D
| Times1D (durations : list Z)
| Times2D (rows : list (list Z))
| TimesHigher (extra_dims : nat).

(** [np.array(times).ndim]; [None] when [times] is no list or array. *)
Definition times_ndim (times : times_arg) : option nat :=
  match times with
  | TimesNotArray => None
  | Times0D => Some 0%nat
  | Times1D _ => Some 1%nat
  | Times2D _ => Some 2%nat
  | TimesHigher k => Some (3 + k)%nat
  end.

Definition msg_times_dim : string := "unrecognised dimension for frame times".
Definition msg_times_len : string :=
  "the number of frames must be the same as number of frame time definitions".
Definition msg_times_type : string := "unrecognised frame times".

(** [t[1]-t[0]] needs two entries in the row [t]. *)
Definition row_times (t : list Z) : result (Z * Z) :=
  match t with
  | t0 :: t1 :: _ => Ok (t0, t1)
  | _ => Raise (IndexError "index 1 is out of bounds for axis 0")
  end.

Definition rectangular (rows : list (list Z)) : bool :=
  match rows with
  | [] => true
  | r :: rows' => forallb (fun r' => (length r' =? length r)%nat) rows'
  end.

(** Lines 128-140 of [align.py]: the start/stop times of the frames, or
    the [ValueError] of the validation.  Rows of unequal length do not
    make a 2D array. *)
Definition frame_times (nfrm : nat) (times : times_arg) : result (list (Z * Z)) :=
  match times with
  | TimesNotArray => Raise (ValueError msg_times_type)
  | Times2D rows =>
      if negb (rectangular rows) then Raise (ValueError msg_times_dim)
      else
        ts ← mapM row_times rows;
        if negb (length ts =? nfrm)%nat then Raise (ValueError msg_times_len)
        else Ok ts
  | Times0D | Times1D _ | TimesHigher _ => Raise (ValueError msg_times_dim)
  end.

(** ** [save4dnii] and [align_frames] *)

Section Align.

Context {F : Type} `{FloatOps F}.
Variable svc : services F.

(** [nimpa.getnii(f)] on an entry of a Python list of files, which may
    hold [None]. *)
Definition read_nii (f : option path) : result (nii F) :=
  match f with
  | None => Raise (TypeError "expected str, bytes or os.PathLike object, not NoneType")
  | Some p =>
      match getnii svc p with
      | Some n => Ok n
      | None => Raise (OSError "cannot read NIfTI file")
      end
  end.

(** [(t.index(0), t.index(1), t.index(2))] *)
Definition inverse_transpose (t : list nat) : result (list nat) :=
  i0 ← py_index t 0; i1 ← py_index t 1; i2 ← py_index t 2; Ok [i0; i1; i2].

(** One turn of the loop of [save4dnii]. *)
Definition save4d_step (niia : stack F) (ifrm : nat * option path) : result (stack F) :=
  im_ ← read_nii (snd ifrm);
  stack_set niia (fst ifrm) (nan_to_zero (nii_im im_)).

Fixpoint fold_result {A S} (f : S -> A -> result S) (l : list A) (s : S) : result S :=
  match l with
  | [] => Ok s
  | x :: l' => s' ← f s x; fold_result f l' s'
  end.

Definition save4dnii (lfrm : list (option path)) (fnii : path) (descrip : string)
    (retarr : bool) : M F (option (stack F)) :=
  let nfrm4d := length lfrm in
  f0_ ← lift (get_item lfrm 0);
  tmp ← lift (read_nii f0_);
  let niia0 := stack_zeros nfrm4d (shape (nii_im tmp)) in
  niia ← lift (fold_result save4d_step (enumerate lfrm) niia0);
  trnsp ← lift (inverse_transpose (nii_transpose tmp));
  _ ← emit (EvArray2Nii (stack_array niia) (nii_affine tmp) fnii descrip trnsp (nii_flip tmp));
  if retarr then mret (Some niia) else mret None.

(** [im += nimpa.getnii(f)]; shapes must agree. *)
Definition add_image (im : ndarray F) (f : path) : result (ndarray F) :=
  n ← read_nii (Some f);
  if negb (bool_decide (shape (nii_im n) = shape im)) then
    Raise (ValueError "operands could not be broadcast together")
  else Ok {| shape := shape im; data := zip_with fadd (data im) (data (nii_im n)) |}.

(** One turn of the loop that writes the mashed frames. *)
Definition mash_file (fniis : list path) (mniidir : path)
    (mfrms_out : list path) (mgrp : list nat) : M F (list path) :=
  i0 ← lift (get_item mgrp 0);
  fn0 ← lift (get_item fniis i0);
  tmp ← lift (read_nii (Some fn0));
  im ← lift (fold_result (fun im i => fn ← get_item fniis i; add_image im fn)
               mgrp (np_zeros (shape (nii_im tmp))));
  let fout := pjoin mniidir ("mashed_n" +:+ pretty (length mgrp) +:+ "_" +:+ basename fn0) in
  _ ← emit (EvArray2Nii im (nii_affine tmp) fout "mashed PET frames for registration"
              (nii_transpose tmp) (nii_flip tmp));
  mret (mfrms_out ++ [fout]).

(** The arrays the registration loop fills. *)
Record reg_state : Type := {
  st_S : list (option path);
  st_R : list Q;
  st_D : list Q;
  st_RT : list (list Q);
  st_RTf : list (list Q);
  st_faligned : list (option path);
  st_fi : nat
}.

(** The resampling call of a registration tool: what it logs and the
    file it returns. *)
Definition resample_call (reg_tool : string) (fref flo : path) (aff : option path)
    (outdir : path) : event F * path :=
  if (reg_tool =? "spm")%string
  then (EvResampleSpm fref flo aff outdir, resample_spm svc fref flo aff outdir)
  else (EvResampleDipy fref flo aff outdir, resample_dipy svc fref flo aff outdir).

(** The body of [for i in mfrms[mi]]: record the parameters of the
    frame, then resample it or copy it. *)
Definition align_one (fniis : list path) (fref : path) (reg_tool reg_metric : string)
    (thr : Q) (rsmpl_opth : path) (mi : nat) (st : reg_state) (i : nat) : M F reg_state :=
  rt ← lift (get_item (st_RT st) mi);
  RTf ← lift (set_item (st_RTf st) i rt);
  r ← lift (get_item (st_R st) mi);
  d ← lift (get_item (st_D st) mi);
  faligned ←
    (if motion_exceeds reg_metric thr r d then
       if (reg_tool =? "spm")%string then
         fn ← lift (get_item fniis i);
         aff ← lift (get_item (st_S st) mi);
         _ ← emit (EvResampleSpm fref fn aff rsmpl_opth);
         lift (set_item (st_faligned st) (st_fi st)
                 (Some (resample_spm svc fref fn aff rsmpl_opth)))
       else if (reg_tool =? "dipy")%string then
         fn ← lift (get_item fniis i);
         aff ← lift (get_item (st_S st) mi);
         _ ← emit (EvResampleDipy fref fn aff rsmpl_opth);
         lift (set_item (st_faligned st) (st_fi st)
                 (Some (resample_dipy svc fref fn aff rsmpl_opth)))
       else mret (st_faligned st)
     else
       fn ← lift (get_item fniis i);
       let dst := pjoin rsmpl_opth (basename fn) in
       fal ← lift (set_item (st_faligned st) (st_fi st) (Some dst));
       _ ← emit (EvCopyFile fn dst);
       mret fal);
  mret {| st_S := st_S st; st_R := st_R st; st_D := st_D st; st_RT := st_RT st;
          st_RTf := RTf; st_faligned := faligned; st_fi := S (st_fi st) |}.

(** [RT[mi,:] = row]: the row must have the six entries of [RT]. *)
Definition set_row6 (RT : list (list Q)) (mi : nat) (row : list Q) : result (list (list Q)) :=
  if negb (length row =? 6)%nat then Raise (ValueError "could not broadcast input array")
  else set_item RT mi row.

(** The registration of one mashed frame to the reference. *)
Definition register_one (fref : path) (reg_tool : string) (fwhm : Q) (costfun : string)
    (mniidir : path) (st : reg_state) (mi : nat) (mfrm : path) : M F reg_state :=
  let com_ := centre_mass_rel svc mfrm in
  if (reg_tool =? "spm")%string then
    let spm_res := coreg_spm svc fref mfrm fwhm costfun "_mashed_ref-mfrm" mniidir in
    _ ← emit (EvCoregSpm fref mfrm "_mashed_ref-mfrm" mniidir);
    S' ← lift (set_item (st_S st) mi (Some (spm_faff spm_res)));
    RT' ← lift (set_row6 (st_RT st) mi (spm_rotations spm_res ++ spm_translations spm_res));
    let rot := rot_ss svc (spm_rotations spm_res) in
    let trn := trn_ss svc (spm_translations spm_res) in
    R' ← lift (set_item (st_R st) mi (rot + trn)%Q);
    D' ← lift (set_item (st_D st) mi (aff_dist svc (spm_affine spm_res) com_));
    mret {| st_S := S'; st_R := R'; st_D := D'; st_RT := RT';
            st_RTf := st_RTf st; st_faligned := st_faligned st; st_fi := st_fi st |}
  else if (reg_tool =? "dipy")%string then
    let dipy_res := affine_dipy svc fref mfrm fwhm "_mashed_ref-mfrm" mniidir in
    _ ← emit (EvAffineDipy fref mfrm "_mashed_ref-mfrm" mniidir);
    S' ← lift (set_item (st_S st) mi (Some (dipy_faff dipy_res)));
    D' ← lift (set_item (st_D st) mi (aff_dist svc (dipy_affine dipy_res) com_));
    mret {| st_S := S'; st_R := st_R st; st_D := D'; st_RT := st_RT st;
            st_RTf := st_RTf st; st_faligned := st_faligned st; st_fi := st_fi st |}
  else mret st.

(** What the registration of the mashed frame [mfrm] leaves in [S], [R],
    [D] and [RT]: DIPY fills neither [R] nor [RT]. *)
Definition reg_S (reg_tool : string) (fref : path) (fwhm : Q) (costfun : string)
    (mniidir mfrm : path) : option path :=
  if (reg_tool =? "spm")%string
  then Some (spm_faff (coreg_spm svc fref mfrm fwhm costfun "_mashed_ref-mfrm" mniidir))
  else Some (dipy_faff (affine_dipy svc fref mfrm fwhm "_mashed_ref-mfrm" mniidir)).

Definition reg_R (reg_tool : string) (fref : path) (fwhm : Q) (costfun : string)
    (mniidir mfrm : path) : Q :=
  if (reg_tool =? "spm")%string
  then let res := coreg_spm svc fref mfrm fwhm costfun "_mashed_ref-mfrm" mniidir in
       (rot_ss svc (spm_rotations res) + trn_ss svc (spm_translations res))%Q
  else 0%Q.

Definition reg_D (reg_tool : string) (fref : path) (fwhm : Q) (costfun : string)
    (mniidir mfrm : path) : Q :=
  if (reg_tool =? "spm")%string
  then aff_dist svc (spm_affine (coreg_spm svc fref mfrm fwhm costfun "_mashed_ref-mfrm" mniidir))
         (centre_mass_rel svc mfrm)
  else aff_dist svc (dipy_affine (affine_dipy svc fref mfrm fwhm "_mashed_ref-mfrm" mniidir))
         (centre_mass_rel svc mfrm).

Definition reg_RT (reg_tool : string) (fref : path) (fwhm : Q) (costfun : string)
    (mniidir mfrm : path) : list Q :=
  if (reg_tool =? "spm")%string
  then let res := coreg_spm svc fref mfrm fwhm costfun "_mashed_ref-mfrm" mniidir in
       spm_rotations res ++ spm_translations res
  else replicate 6 0%Q.

(** The body of [for mi, mfrm in enumerate(mfrms_out)]. *)
Definition register_group (fniis : list path) (fref : path) (reg_tool reg_metric : string)
    (fwhm thr : Q) (costfun : string) (mniidir rsmpl_opth : path)
    (mfrms : list (list nat)) (st : reg_state) (mimfrm : nat * path) : M F reg_state :=
  st1 ← register_one fref reg_tool fwhm costfun mniidir st (fst mimfrm) (snd mimfrm);
  mgrp ← lift (get_item mfrms (fst mimfrm));
  foldM (align_one fniis fref reg_tool reg_metric thr rsmpl_opth (fst mimfrm)) mgrp st1.

(** The dictionary [align_frames] returns. *)
Record frames_out : Type := {
  mashed_frame_idx : list (list nat);
  mashed_files : list path;
  affines : list (option path);
  metric : list Q;
  metric2 : list Q;
  rot_trans : list (list Q);
  faligned : list (option path);
  f4d_out : option path;
  im4d : option (stack F)
}.

(** The folders [mniidir] and [rsmpl_opth] of [align_frames]. *)
Definition mashed_dir (fniis : list path) (outpath : option path) : path :=
  pjoin (match outpath with
         | Some p => p
         | None => parent (nth 0 fniis [])
         end) "mashed".

Definition aligned_dir (fniis : list path) (outpath : option path) : path :=
  pjoin (mashed_dir fniis outpath) "aligned".

(** [p] is an aligned file of the frame [fn]: its copy, or what a
    resampling of [fn] to the reference returned. *)
Definition aligned_file_of (reg_tool : string) (fref rsmpl_opth fn p : path) : Prop :=
  p = pjoin rsmpl_opth (basename fn)
  \/ exists aff, p = snd (resample_call reg_tool fref fn aff rsmpl_opth).

Definition msg_mash_files : string :=
  "The number of generated mashed frames is inconsistent with the intended mashed frames".

Definition align_frames (fniis : list path) (times : times_arg) (fref : path)
    (Cnt : align_config) (reg_tool : string) (save4d : bool) (f4d outpath : option path)
    : M F frames_out :=
  let frm_lsize := frame_min_dur Cnt in
  _ ← lift (check_reg_metric (reg_metric Cnt));
  reg_metric ← switch_metric reg_tool (reg_metric Cnt);
  let nfrm := length fniis in
  ts ← lift (frame_times nfrm times);
  opth ← match outpath with
         | None => fn0 ← lift (get_item fniis 0); mret (parent fn0)
         | Some p => mret p
         end;
  let mniidir := pjoin opth "mashed" in
  let rsmpl_opth := pjoin mniidir "aligned" in
  _ ← emit (EvCreateDir mniidir);
  _ ← emit (EvCreateDir rsmpl_opth);
  mfrms ← lift (Mash.mash_frames frm_lsize nfrm ts);
  mfrms_out ← foldM (mash_file fniis mniidir) mfrms [];
  _ ← (if negb (length mfrms_out =? length mfrms)%nat
       then lift (Raise (ValueError msg_mash_files)) else mret tt);
  let n := length mfrms_out in
  let st0 := {| st_S := replicate n None; st_R := replicate n 0%Q; st_D := replicate n 0%Q;
                st_RT := replicate n (replicate 6 0%Q);
                st_RTf := replicate nfrm (replicate 6 0%Q);
                st_faligned := replicate nfrm None; st_fi := 0 |} in
  st ← foldM (register_group fniis fref reg_tool reg_metric (reg_fwhm Cnt) (reg_thrshld Cnt)
                (reg_costfun Cnt) mniidir rsmpl_opth mfrms)
         (enumerate mfrms_out) st0;
  let out := {| mashed_frame_idx := mfrms; mashed_files := mfrms_out;
                affines := st_S st; metric := st_R st; metric2 := st_D st;
                rot_trans := st_RTf st; faligned := st_faligned st;
                f4d_out := None; im4d := None |} in
  if save4d then
    let falign_nii :=
      match f4d with
      | Some p => if is_dir svc (parent p) then p
                  else pjoin opth "aligned_via_mashing_using_ref_4D.nii.gz"
      | None => pjoin opth "aligned_via_mashing_using_ref_4D.nii.gz"
      end in
    niia ← save4dnii (st_faligned st) falign_nii "AmyPET-aligned frames" true;
    mret {| mashed_frame_idx := mfrms; mashed_files := mfrms_out;
            affines := st_S st; metric := st_R st; metric2 := st_D st;
            rot_trans := st_RTf st; faligned := st_faligned st;
            f4d_out := Some falign_nii; im4d := niia |}
  else mret out.

End Align.

(** ** Invariants of the registration loop of [align_frames] *)

(** What the loop is run with. *)
Record reg_params : Type := {
  p_fniis : list path;
  p_fref : path;
  p_tool : string;
  p_metric : string;
  p_fwhm : Q;
  p_thr : Q;
  p_costfun : string;
  p_mniidir : path;
  p_rsmpl : path;
  p_mfrms : list (list nat);
  p_mfrms_out : list path
}.

Section RegistrationInvariant.

Context {F : Type} `{FloatOps F}.
Variable svc : services F.
Variable P : reg_params.

(** The aligned file of the frame [fn] of the group mashed into [mfrm]. *)
Definition expected_aligned (mfrm fn : path) : path :=
  let r := reg_R svc (p_tool P) (p_fref P) (p_fwhm P) (p_costfun P) (p_mniidir P) mfrm in
  let d := reg_D svc (p_tool P) (p_fref P) (p_fwhm P) (p_costfun P) (p_mniidir P) mfrm in
  let aff := reg_S svc (p_tool P) (p_fref P) (p_fwhm P) (p_costfun P) (p_mniidir P) mfrm in
  if motion_exceeds (p_metric P) (p_thr P) r d
  then snd (resample_call svc (p_tool P) (p_fref P) fn aff (p_rsmpl P))
  else pjoin (p_rsmpl P) (basename fn).

(** Group [mi] has been registered. *)
Definition group_done (st : reg_state) (mi : nat) : Prop :=
  exists mfrm,
    p_mfrms_out P !! mi = Some mfrm
    /\ st_S st !! mi
       = Some (reg_S svc (p_tool P) (p_fref P) (p_fwhm P) (p_costfun P) (p_mniidir P) mfrm)
    /\ st_R st !! mi
       = Some (reg_R svc (p_tool P) (p_fref P) (p_fwhm P) (p_costfun P) (p_mniidir P) mfrm)
    /\ st_D st !! mi
       = Some (reg_D svc (p_tool P) (p_fref P) (p_fwhm P) (p_costfun P) (p_mniidir P) mfrm)
    /\ st_RT st !! mi
       = Some (reg_RT svc (p_tool P) (p_fref P) (p_fwhm P) (p_costfun P) (p_mniidir P) mfrm).

(** Frame [i], of group [mi], has been aligned and has its parameters. *)
Definition frame_done (st : reg_state) (mi i : nat) : Prop :=
  exists mfrm fn,
    p_mfrms_out P !! mi = Some mfrm
    /\ p_fniis P !! i = Some fn
    /\ st_faligned st !! i = Some (Some (expected_aligned mfrm fn))
    /\ st_RTf st !! i
       = Some (reg_RT svc (p_tool P) (p_fref P) (p_fwhm P) (p_costfun P) (p_mniidir P) mfrm).

(** The state when [kg] groups are registered and [c] frames aligned:
    the entries of the later groups still hold their initial zeros. *)
Definition reg_inv (kg c : nat) (st : reg_state) : Prop :=
  st_fi st = c
  /\ (forall mi, (mi < kg)%nat -> group_done st mi)
  /\ (forall mi, (kg <= mi)%nat ->
        st_R st !! mi = replicate (length (p_mfrms_out P)) 0%Q !! mi
        /\ st_RT st !! mi = replicate (length (p_mfrms_out P)) (replicate 6 0%Q) !! mi)
  /\ (forall i, (i < c)%nat ->
        exists mi grp, (mi < kg)%nat /\ p_mfrms P !! mi = Some grp /\ In i grp
                       /\ frame_done st mi i).

End RegistrationInvariant.

(** ** Which errors a computation can raise *)

(** The computation [m] does not raise [e], whatever the trace so far. *)
Definition never_raises {F A} (e : exn) (m : M F A) : Prop :=
  forall tr, fst (m tr) <> Raise e.

(** ** [align_suvr]: alignment of the SUVr frames *)

(** [stat_tdata[k]] for a frame key [k]. *)
Record frame_entry : Type := {
  fnii : path;
  tstudy : option string;
  tacq : option string;
  series : string
}.

(** The static-series dictionary: [descr['frms']], [descr['suvr']['frms']]
    and the entries of the frames. *)
Record stat_data : Type := {
  descr_frms : list string;
  descr_suvr_frms : list string;
  entries : gmap string frame_entry
}.

Definition entry (d : stat_data) (k : string) : result frame_entry :=
  match entries d !! k with
  | Some e => Ok e
  | None => Raise (KeyError k)
  end.

(** [itertools.combinations(l, 2)] *)
Fixpoint combinations2 {A} (l : list A) : list (A * A) :=
  match l with
  | [] => []
  | x :: l' => map (pair x) l' ++ combinations2 l'
  end.

(** [l.index(k)] on a list of keys. *)
Fixpoint key_index (l : list string) (k : string) : result nat :=
  match l with
  | [] => Raise (ValueError "x is not in list")
  | y :: l' => if (y =? k)%string then Ok 0%nat
               else match key_index l' k with
                    | Ok n => Ok (S n)
                    | Raise e => Raise e
                    end
  end.

(** [M[i][j]] and [M[i][j] = x] on a square array. *)
Definition get_item2 {A} (m : list (list A)) (i j : nat) : result A :=
  row ← get_item m i; get_item row j.

Definition set_item2 {A} (m : list (list A)) (i j : nat) (x : A) : result (list (list A)) :=
  row ← get_item m i; row' ← set_item row j x; set_item m i row'.

(** [np.sum(M, axis=0)] and [np.sum(M, axis=1)] on an [n] by [n] array. *)
Definition Qsum (l : list Q) : Q := fold_right Qplus 0%Q l.

Definition sum_axis1 (m : list (list Q)) : list Q := map Qsum m.

Definition sum_axis0 (n : nat) (m : list (list Q)) : list Q :=
  map (fun j => Qsum (map (fun row => nth j row 0%Q) m)) (seq 0 n).

(** [np.argmin]: the first index of the least entry. *)
Fixpoint argmin_from (best : nat) (vbest : Q) (k : nat) (l : list Q) : nat :=
  match l with
  | [] => best
  | x :: l' => if Qgtb vbest x then argmin_from k x (S k) l'
               else argmin_from best vbest (S k) l'
  end.

Definition argmin (l : list Q) : result nat :=
  match l with
  | [] => Raise (ValueError "attempt to get argmin of an empty sequence")
  | x :: l' => Ok (argmin_from 0 x 1 l')
  end.

Section AlignSuvr.

Context {F : Type} `{FloatOps F}.
Variable svc : services F.

(** The pairwise metrics and the affine files. *)
Record pair_state : Type := {
  ps_R : list (list Q);
  ps_D : list (list Q);
  ps_S : list (list (option path))
}.

Definition combi_comment (a b : nat) : string :=
  "_combi_" +:+ pretty a +:+ "-" +:+ pretty b.

(** One direction of a two-way registration: reference [r], floating [f]. *)
Definition register_pair (reg_tool : string) (fwhm : Q) (costfun : string) (niidir : path)
    (nii_frms : list path) (st : pair_state) (r f : nat) : M F pair_state :=
  fref ← lift (get_item nii_frms r);
  fflo ← lift (get_item nii_frms f);
  if (reg_tool =? "spm")%string then
    let spm_res := coreg_spm svc fref fflo fwhm costfun (combi_comment r f) niidir in
    _ ← emit (EvCoregSpm fref fflo (combi_comment r f) niidir);
    let rot := rot_ss svc (spm_rotations spm_res) in
    let trn := trn_ss svc (spm_translations spm_res) in
    R' ← lift (set_item2 (ps_R st) r f (rot + trn)%Q);
    let com_ := centre_mass_rel svc fflo in
    D' ← lift (set_item2 (ps_D st) r f (aff_dist svc (spm_affine spm_res) com_));
    S' ← lift (set_item2 (ps_S st) r f (Some (spm_faff spm_res)));
    mret {| ps_R := R'; ps_D := D'; ps_S := S' |}
  else if (reg_tool =? "dipy")%string then
    let dipy_res := affine_dipy svc fref fflo fwhm (combi_comment r f) niidir in
    _ ← emit (EvAffineDipy fref fflo (combi_comment r f) niidir);
    S' ← lift (set_item2 (ps_S st) r f (Some (dipy_faff dipy_res)));
    let com_ := centre_mass_rel svc fflo in
    D' ← lift (set_item2 (ps_D st) r f (aff_dist svc (dipy_affine dipy_res) com_));
    mret {| ps_R := ps_R st; ps_D := D'; ps_S := S' |}
  else mret st.

(** The body of [for c in combinations(frms, 2)]. *)
Definition register_combination (reg_tool : string) (fwhm : Q) (costfun : string)
    (niidir : path) (suvr_frms : list string) (nii_frms : list path)
    (st : pair_state) (c : string * string) : M F pair_state :=
  frm0 ← lift (key_index suvr_frms (fst c));
  frm1 ← lift (key_index suvr_frms (snd c));
  st1 ← register_pair reg_tool fwhm costfun niidir nii_frms st frm0 frm1;
  register_pair reg_tool fwhm costfun niidir nii_frms st1 frm1 frm0.

(** Lines 635-646: the reference frame the code goes on with ([rfrm]) and
    the one it only prints ([rfrmd]). *)
Definition reference_frames (R D : list (list Q)) : result (nat * nat) :=
  let n := length R in
  let fsum := sum_axis0 n R in
  let fsumd := sum_axis0 n D in
  let rsum := sum_axis1 R in
  let rsumd := sum_axis1 D in
  rfrm ← argmin (zip_with Qplus fsum rsum);
  rfrmd ← argmin (zip_with Qplus fsumd rsumd);
  Ok (rfrm, rfrmd).

(** What the loop over the SUVr frames builds. *)
Record suvr_state : Type := {
  ss_fnii_aligned : list path;
  ss_niiim : stack F
}.

(** The body of [for ifrm in range(len(nii_frms))]. *)
Definition align_suvr_frame (reg_tool reg_metric : string) (thr : Q) (rsmpl_opth : path)
    (nii_frms : list path) (R D : list (list Q)) (S : list (list (option path)))
    (rfrm : nat) (st : suvr_state) (ifrm : nat) : M F suvr_state :=
  if (ifrm =? rfrm)%nat then mret st
  else
    r ← lift (get_item2 R rfrm ifrm);
    d ← lift (get_item2 D rfrm ifrm);
    if motion_exceeds reg_metric thr r d then
      frsmpl ←
        (if (reg_tool =? "spm")%string then
           fref ← lift (get_item nii_frms rfrm);
           fflo ← lift (get_item nii_frms ifrm);
           aff ← lift (get_item2 S rfrm ifrm);
           _ ← emit (EvResampleSpm fref fflo aff rsmpl_opth);
           mret (resample_spm svc fref fflo aff rsmpl_opth)
         else if (reg_tool =? "dipy")%string then
           fref ← lift (get_item nii_frms rfrm);
           fflo ← lift (get_item nii_frms ifrm);
           aff ← lift (get_item2 S rfrm ifrm);
           _ ← emit (EvResampleDipy fref fflo aff rsmpl_opth);
           mret (resample_dipy svc fref fflo aff rsmpl_opth)
         else lift (Raise (UnboundLocalError "frsmpl")));
      im ← lift (read_nii svc (Some frsmpl));
      niiim ← lift (stack_set (ss_niiim st) ifrm (nii_im im));
      mret {| ss_fnii_aligned := ss_fnii_aligned st ++ [frsmpl]; ss_niiim := niiim |}
    else
      fflo ← lift (get_item nii_frms ifrm);
      im ← lift (read_nii svc (Some fflo));
      niiim ← lift (stack_set (ss_niiim st) ifrm (nii_im im));
      mret {| ss_fnii_aligned := ss_fnii_aligned st ++ [fflo]; ss_niiim := niiim |}.

(** What the core of [align_suvr] has established when the aligned SUVr
    frames are saved. *)
Record suvr_out : Type := {
  so_R : list (list Q);
  so_D : list (list Q);
  so_S : list (list (option path));
  so_rfrm : nat;
  so_fnii_aligned : list path;
  so_niiim : stack F;
  so_faligned : path
}.

(** [align_suvr] up to the saving of the aligned SUVr frames (lines
    444-712).  The post-processing that follows (single SUVr frame,
    centre-of-mass correction, the remaining frames) and the branch that
    loads a stored result are outside the model: [None] is returned when
    a stored dictionary is used. *)
Definition align_suvr (stat_tdata : stat_data) (Cnt : align_config) (reg_tool : string)
    (outpath : option path) (use_stored : bool) : M F (option suvr_out) :=
  _ ← lift (check_reg_metric (reg_metric Cnt));
  reg_metric ← switch_metric reg_tool (reg_metric Cnt);
  align_out ← match outpath with
               | None =>
                   k0 ← lift (get_item (descr_frms stat_tdata) 0);
                   e0 ← lift (entry stat_tdata k0);
                   mret (parent (parent (fnii e0)))
               | Some p => mret p
               end;
  let nfrm := length (descr_frms stat_tdata) in
  let nsfrm := length (descr_suvr_frms stat_tdata) in
  let niidir := pjoin align_out "NIfTI_aligned" in
  let niidir_i := pjoin niidir "intermediate" in
  _ ← emit (EvCreateDir niidir);
  _ ← emit (EvCreateDir niidir_i);
  let rsmpl_opth := pjoin niidir "SPM-aligned" in
  _ ← emit (EvCreateDir rsmpl_opth);
  k0 ← lift (get_item (descr_frms stat_tdata) 0);
  e0 ← lift (entry stat_tdata k0);
  let t_ := match tstudy e0, tacq e0 with
            | Some t, _ => "study-" +:+ t
            | None, Some t => "acq-" +:+ t
            | None, None => ""
            end in
  let faligned := pjoin niidir_i ("SUVr-aligned_" +:+ pretty nsfrm +:+ "-frames_"
                                  +:+ rem_chars svc (series e0) +:+ ".nii.gz") in
  let falign_dct := pjoin niidir ("Aligned-" +:+ pretty nfrm +:+ "-frames-to-SUVr_" +:+ t_
                                  +:+ "_" +:+ rem_chars svc (series e0) +:+ ".npy") in
  if negb use_stored || negb (is_file svc falign_dct) then
    es ← lift (mapM (entry stat_tdata) (descr_suvr_frms stat_tdata));
    let nii_frms := map fnii es in
    let n := length nii_frms in
    let st0 := {| ps_R := replicate n (replicate n 0%Q);
                  ps_D := replicate n (replicate n 0%Q);
                  ps_S := replicate n (replicate n None) |} in
    ps ← foldM (register_combination reg_tool (reg_fwhm Cnt) (reg_costfun Cnt) niidir
                  (descr_suvr_frms stat_tdata) nii_frms)
           (combinations2 (descr_suvr_frms stat_tdata)) st0;
    rr ← lift (reference_frames (ps_R ps) (ps_D ps));
    let rfrm := fst rr in
    fnref ← lift (get_item nii_frms rfrm);
    niiref ← lift (read_nii svc (Some fnref));
    niiim0 ← lift (stack_set (stack_zeros n (shape (nii_im niiref))) rfrm (nii_im niiref));
    ss ← foldM (align_suvr_frame reg_tool reg_metric (reg_thrshld Cnt) rsmpl_opth nii_frms
                  (ps_R ps) (ps_D ps) (ps_S ps) rfrm)
           (seq 0 n) {| ss_fnii_aligned := [fnref]; ss_niiim := niiim0 |};
    let niiim := {| frame_shape := frame_shape (ss_niiim ss);
                    frames := map (map (fun v => if fisnan v then f0 else v))
                                  (frames (ss_niiim ss)) |} in
    trnsp ← lift (inverse_transpose (nii_transpose niiref));
    _ ← emit (EvArray2Nii (stack_array niiim) (nii_affine niiref) faligned
                "AmyPET: aligned SUVr frames" trnsp (nii_flip niiref));
    mret (Some {| so_R := ps_R ps; so_D := ps_D ps; so_S := ps_S ps; so_rfrm := rfrm;
                  so_fnii_aligned := ss_fnii_aligned ss; so_niiim := niiim;
                  so_faligned := faligned |})
  else mret None.

End AlignSuvr.

(** ** [align_break]: decay correction between series *)

Module Break.

(** [f18group] and [c11group] *)
Definition f18group : list string := ["fbb"; "fbp"; "flute"].
Definition c11group : list string := ["pib"].

(** The Python values whose truth the code tests. *)
Inductive pyval : Type :=
| PyBool (b : bool)
| PyTuple (items : list bool).

(** Truth of a Python value: a tuple is true unless it is empty. *)
Definition truthy (v : pyval) : bool :=
  match v with
  | PyBool b => b
  | PyTuple [] => false
  | PyTuple (_ :: _) => true
  end.

(** [np.argmin] on integers. *)
Fixpoint argminZ_from (best : nat) (vbest : Z) (k : nat) (l : list Z) : nat :=
  match l with
  | [] => best
  | x :: l' => if x <? vbest then argminZ_from k x (S k) l'
               else argminZ_from best vbest (S k) l'
  end.

Definition argminZ (l : list Z) : result nat :=
  match l with
  | [] => Raise (ValueError "attempt to get argmin of an empty sequence")
  | x :: l' => Ok (argminZ_from 0 x 1 l')
  end.

(** ['F18'*(tracer in f18group) + 'C11'*(tracer in c11group)] *)
Definition isotope (tracer : string) : string :=
  (if existsb (String.eqb tracer) f18group then "F18" else "")
  +:+ (if existsb (String.eqb tracer) c11group then "C11" else "").

Definition msg_breaks : string :=
  "currently only one dynamic break is allowed - detected more than one".

Section Decay.

Open Scope R_scope.

(** [nimpa.resources.riLUT[istp]['thalf']], a table of the imaging
    library: half-lives in seconds. *)
Variable riLUT_thalf : string -> option R.

(** Lines 881-906: the factor [dcycrr], from the value held by the
    variable [decay_corr], the start times of the series and the tracer. *)
Definition decay_factor (decay_corr : pyval) (ts : list Z) (tracer : string) : result R :=
  if truthy decay_corr then
    i_tref ← argminZ ts;
    let i_tsrs := delete i_tref (seq 0 (length ts)) in
    tref ← get_item ts i_tref;
    tds ← mapM (fun i => t ← get_item ts i; Ok (t - tref)%Z) i_tsrs;
    if (1 <? length tds)%nat then Raise (ValueError msg_breaks)
    else
      td ← get_item tds 0;
      let istp := isotope tracer in
      thalf ← match riLUT_thalf istp with
              | Some t => Ok t
              | None => Raise (KeyError istp)
              end;
      let lmbd := ln 2 / thalf in
      Ok (1 / exp (- lmbd * IZR td))
  else Ok 1.

(** [decay_corr=Cnt['align']['decay_corr'],]: the comma that ends the
    line makes the variable a tuple of one element. *)
Definition decay_corr_variable (Cnt : align_config) : pyval :=
  PyTuple [decay_corr Cnt].

(** The factor [align_break] applies when coffee-break data is present. *)
Definition align_break_dcycrr (Cnt : align_config) (ts : list Z) (tracer : string)
    : result R :=
  decay_factor (decay_corr_variable Cnt) ts tracer.

(** [im_ = dcycrr * nimpa.getnii(frm)] on the voxels of a static frame. *)
Definition scale_static_frame (dcycrr : R) (im : list R) : list R :=
  map (fun v => dcycrr * v) im.

End Decay.

End Break.

(** ** [extract_vois]: mean values over volumes of interest *)

(** An array object of the caller, by reference. *)
Definition loc : Type := nat.

(** The arrays of the caller.  Two arguments that hold the same
    reference are the same array. *)
Definition store (F : Type) : Type := loc -> ndarray F.

Definition store_set {F} (st : store F) (l : loc) (a : ndarray F) : store F :=
  fun l' => if decide (l' = l) then a else st l'.

(** What [impet] and [atlas] can be: a dictionary with an ['im'] array
    and optional geometry, a path, an array, or anything else. *)
Inductive image_arg : Type :=
| ArgDict (im : loc) (affine : option (list (list Q))) (flip : option (list Z))
    (transpose : option (list nat))
| ArgFile (p : path)
| ArgArray (l : loc)
| ArgOther.

Inductive mask_arg : Type :=
| MaskNone
| MaskFile (p : path)
| MaskArray (l : loc)
| MaskOther.

(** The array of the caller an argument hands over, if any. *)
Definition arg_array (a : image_arg) : option loc :=
  match a with
  | ArgDict im _ _ _ => Some im
  | ArgArray l => Some l
  | _ => None
  end.

Definition is_ndarray (a : image_arg) : bool :=
  match a with
  | ArgArray _ => true
  | _ => false
  end.

(** A local variable bound to an array: one of the caller's, or one
    read from a file. *)
Inductive aref (F : Type) : Type :=
| Shared (l : loc)
| Fresh (a : ndarray F).
Arguments Shared {F} l.
Arguments Fresh {F} a.

Definition deref {F} (st : store F) (r : aref F) : ndarray F :=
  match r with
  | Shared l => st l
  | Fresh a => a
  end.

(** [affine, flip, trnsp] *)
Record geometry : Type := {
  g_affine : option (list (list Q));
  g_flip : option (list Z);
  g_trnsp : option (list nat)
}.

(** A mask: boolean, or float once multiplied by the atlas mask. *)
Inductive mask (F : Type) : Type :=
| MBool (m : list bool)
| MFloat (m : list F).
Arguments MBool {F} m.
Arguments MFloat {F} m.

(** A NumPy scalar: [np.sum] of a boolean array is an integer. *)
Inductive number (F : Type) : Type :=
| NInt (z : Z)
| NFloat (x : F).
Arguments NInt {F} z.
Arguments NFloat {F} x.

(** ['sum'] and ['avg']: a scalar, or one value per frame. *)
Inductive voi_value (F : Type) : Type :=
| Scalar (x : F)
| PerFrame (xs : list F).
Arguments Scalar {F} x.
Arguments PerFrame {F} xs.

(** [out[voi]] *)
Record voi_record (F : Type) : Type := {
  vox_no : number F;
  voi_sum : voi_value F;
  voi_avg : voi_value F;
  fvoi : option path;
  roimsk : option (mask F)
}.
Arguments vox_no {F} _.
Arguments voi_sum {F} _.
Arguments voi_avg {F} _.
Arguments fvoi {F} _.
Arguments roimsk {F} _.

Section ExtractVois.

Context {F : Type} `{FloatOps F}.
Variable svc : services F.

Definition of_bool (b : bool) : F := if b then f1 else f0.

(** [np.sum] of a float array. *)
Definition fsum (l : list F) : F := fold_left fadd l f0.

Definition to_float (n : number F) : F :=
  match n with
  | NInt z => f_of_Z z
  | NFloat x => x
  end.

Definition no_geometry : geometry :=
  {| g_affine := None; g_flip := None; g_trnsp := None |}.

(** Lines 128-144: the PET image; [None] when no branch binds [im]. *)
Definition resolve_pet (impet : image_arg) : result (option (aref F) * geometry) :=
  match impet with
  | ArgDict im a f t => Ok (Some (Shared im), {| g_affine := a; g_flip := f; g_trnsp := t |})
  | ArgFile p =>
      if is_file svc p then
        imd ← read_nii svc (Some p);
        Ok (Some (Fresh (nii_im imd)),
            {| g_affine := None; g_flip := Some (nii_flip imd);
               g_trnsp := Some (nii_transpose imd) |})
      else Ok (None, no_geometry)
  | ArgArray l => Ok (Some (Shared l), no_geometry)
  | ArgOther => Ok (None, no_geometry)
  end.

Definition or_else {A} (x y : option A) : option A :=
  match x with
  | Some _ => x
  | None => y
  end.

(** Lines 149-169: the label image; geometry only where the PET image
    gave none. *)
Definition resolve_atlas (atlas : image_arg) (g : geometry)
    : result (option (aref F) * geometry) :=
  match atlas with
  | ArgDict im a f t =>
      Ok (Some (Shared im),
          {| g_affine := or_else (g_affine g) a; g_flip := or_else (g_flip g) f;
             g_trnsp := or_else (g_trnsp g) t |})
  | ArgFile p =>
      if is_file svc p then
        prd ← read_nii svc (Some p);
        Ok (Some (Fresh (nii_im prd)),
            {| g_affine := or_else (g_affine g) (Some (nii_affine prd));
               g_flip := or_else (g_flip g) (Some (nii_flip prd));
               g_trnsp := or_else (g_trnsp g) (Some (nii_transpose prd)) |})
      else Ok (None, g)
  | ArgArray l => Ok (Some (Shared l), g)
  | ArgOther => Ok (None, g)
  end.

(** [lbls[np.isnan(lbls)] = 0]: in place, so through the reference when
    [lbls] is an array of the caller. *)
Definition remove_nans (lbls : aref F) (st : store F) : aref F * store F :=
  match lbls with
  | Shared l => (Shared l, store_set st l (nan_to_zero (st l)))
  | Fresh a => (Fresh (nan_to_zero a), st)
  end.

(** Lines 175-183: the atlas mask; [None] stands for the scalar [1]. *)
Definition resolve_mask (atlas_mask : mask_arg) (st : store F)
    : result (option (ndarray F)) :=
  match atlas_mask with
  | MaskNone => Ok None
  | MaskFile p =>
      if is_file svc p then n ← read_nii svc (Some p); Ok (Some (nii_im n))
      else Raise (ValueError "Incorrectly provided atlas mask")
  | MaskArray l => Ok (Some (st l))
  | MaskOther => Raise (ValueError "Incorrectly provided atlas mask")
  end.

(** [rmsk += np.equal(lbls, ri)] over the labels of a VOI. *)
Definition roi_mask (lbls : ndarray F) (labels : list Z) : list bool :=
  fold_left (fun rmsk ri => zip_with orb rmsk (map (fun v => feqb v (f_of_Z ri)) (data lbls)))
            labels (replicate (size_of (shape lbls)) false).

(** [rmsk] or [rmsk*amsk]; arrays of unequal shape are refused. *)
Definition apply_mask (lbls : ndarray F) (rmsk : list bool) (amsk : option (ndarray F))
    : result (mask F) :=
  match amsk with
  | None => Ok (MBool rmsk)
  | Some a =>
      if negb (bool_decide (shape a = shape lbls)) then
        Raise (ValueError "operands could not be broadcast together")
      else Ok (MFloat (zip_with (fun b x => fmul (of_bool b) x) rmsk (data a)))
  end.

Definition mask_floats (m : mask F) : list F :=
  match m with
  | MBool b => map of_bool b
  | MFloat x => x
  end.

(** [np.sum(msk2)] *)
Definition mask_sum (m : mask F) : number F :=
  match m with
  | MBool b => NInt (Z.of_nat (length (List.filter (fun x => x) b)))
  | MFloat x => NFloat (fsum x)
  end.

(** [np.sum(a.astype(np.float64) * msk2)] on the voxels of one frame. *)
Definition masked_sum (vox : list F) (m : mask F) : F :=
  fsum (zip_with fmul vox (mask_floats m)).

(** [im[fi, ...]] of an array whose first axis counts the frames. *)
Definition frame_data (im : ndarray F) (fi : nat) : list F :=
  let sz := size_of (tail (shape im)) in
  take sz (drop (fi * sz) (data im)).

(** [im.ndims]: a NumPy array has [ndim], and no attribute [ndims]. *)
Definition ndims (im : ndarray F) : result nat :=
  Raise (AttributeError "'numpy.ndarray' object has no attribute 'ndims'").

(** Lines 218-228: the sums over the PET image. *)
Definition voi_sums (im : ndarray F) (lbls_shape : list nat) (msk2 : mask F)
    : result (voi_value F) :=
  if (ndim im =? 4)%nat then
    let nfrm := hd 0%nat (shape im) in
    if (0 <? nfrm)%nat && negb (bool_decide (tail (shape im) = lbls_shape)) then
      Raise (ValueError "operands could not be broadcast together")
    else Ok (PerFrame (map (fun fi => masked_sum (frame_data im fi) msk2) (seq 0 nfrm)))
  else
    nd ← ndims im;
    if (nd =? 3)%nat then
      if negb (bool_decide (shape im = lbls_shape)) then
        Raise (ValueError "operands could not be broadcast together")
      else Ok (Scalar (masked_sum (data im) msk2))
    else Raise (ValueError "unrecognised image shape or dimensions").

(** [emsum / vxsum] *)
Definition voi_average (emsum : voi_value F) (vxsum : number F) : voi_value F :=
  match emsum with
  | Scalar x => Scalar (fdiv x (to_float vxsum))
  | PerFrame xs => PerFrame (map (fun x => fdiv x (to_float vxsum)) xs)
  end.

(** The body of [for k, voi in enumerate(voi_dct)]. *)
Definition extract_voi (im : option (ndarray F)) (lbls : ndarray F)
    (amsk : option (ndarray F)) (g : geometry) (atlas_is_array : bool)
    (outpath : option path) (output_masks : bool)
    (out : gmap string (voi_record F)) (voi : string * list Z)
    : M F (gmap string (voi_record F)) :=
  let rmsk := roi_mask lbls (snd voi) in
  msk2 ← lift (apply_mask lbls rmsk amsk);
  fvoi_ ←
    match outpath with
    | Some op =>
        if negb atlas_is_array then
          _ ← emit (EvCreateDir op);
          let fv := pjoin op (fst voi +:+ "_mask.nii.gz") in
          trnsp ← lift (match g_trnsp g with
                        | Some t => inverse_transpose t
                        | None => Raise (AttributeError
                                           "'NoneType' object has no attribute 'index'")
                        end);
          _ ← emit (EvMask2Nii (mask_floats msk2) (shape lbls) (g_affine g) fv trnsp (g_flip g));
          mret (Some fv)
        else mret None
    | None => mret None
    end;
  let vxsum := mask_sum msk2 in
  im_ ← lift (match im with
              | Some a => Ok a
              | None => Raise (UnboundLocalError "im")
              end);
  emsum ← lift (voi_sums im_ (shape lbls) msk2);
  let r := {| vox_no := vxsum; voi_sum := emsum; voi_avg := voi_average emsum vxsum;
                fvoi := fvoi_; roimsk := if output_masks then Some msk2 else None |} in
  mret (<[fst voi := r]> out).

(** [extract_vois]: the result with its trace, and the caller's arrays
    after the call. *)
Definition extract_vois (impet atlas : image_arg) (voi_dct : list (string * list Z))
    (atlas_mask : mask_arg) (outpath : option path) (output_masks : bool)
    (st : store F) : (result (gmap string (voi_record F)) * list (event F)) * store F :=
  match resolve_pet impet with
  | Raise e => ((Raise e, []), st)
  | Ok (im, g0) =>
      match resolve_atlas atlas g0 with
      | Raise e => ((Raise e, []), st)
      | Ok (None, _) => ((Raise (UnboundLocalError "lbls"), []), st)
      | Ok (Some lbls0, g) =>
          let '(lbls, st') := remove_nans lbls0 st in
          match resolve_mask atlas_mask st' with
          | Raise e => ((Raise e, []), st')
          | Ok amsk =>
              (foldM (extract_voi (deref st' <$> im) (deref st' lbls) amsk g
                        (is_ndarray atlas) outpath output_masks)
                     voi_dct ∅ [], st')
          end
      end
  end.

End ExtractVois.

(** ** A small study, for running the model *)

Module Demo.

(** Every file reads as the same image of two voxels, one of them a NaN. *)
Definition demo_image : nii qfloat :=
  {| nii_im := {| shape := [1; 1; 2]%nat; data := [Some 3%Q; None] |};
     nii_affine := [[1%Q]];
     nii_transpose := [2; 1; 0]%nat;
     nii_flip := [1; 1; 1] |}.

(** The distance the demo registration reports between two frames: frame
    [c] lies close to the others, frames [a] and [b] lie far apart. *)
Definition demo_distance (ref flo : path) : Q :=
  if (basename ref =? "c.nii")%string || (basename flo =? "c.nii")%string then 1%Q else 5%Q.

Definition demo_svc : services qfloat :=
  {| getnii := fun _ => Some demo_image;
     is_dir := fun _ => true;
     is_file := fun _ => false;
     centre_mass_rel := fun _ => [0%Q; 0%Q; 0%Q];
     coreg_spm := fun ref flo _ _ _ out =>
       {| spm_faff := pjoin out "affine-spm.npy";
          spm_rotations := [0%Q; 0%Q; 0%Q];
          spm_translations := [2%Q; 0%Q; 0%Q];
          spm_affine := [[demo_distance ref flo]] |};
     rot_ss := Qsum;
     trn_ss := Qsum;
     aff_dist := fun aff _ => match aff with [[d]] => d | _ => 0%Q end;
     affine_dipy := fun ref flo _ _ out =>
       {| dipy_faff := pjoin out "affine-dipy.npy";
          dipy_affine := [[demo_distance ref flo]] |};
     resample_spm := fun _ flo _ out => pjoin out ("r" +:+ basename flo);
     resample_dipy := fun _ flo _ out => pjoin out ("rdipy_" +:+ basename flo);
     rem_chars := fun s => s |}.

Definition demo_cfg (metric : string) (thr : Q) : align_config :=
  {| reg_fwhm := 8%Q; reg_thrshld := thr; reg_costfun := "nmi";
     frame_min_dur := 60; reg_metric := metric; decay_corr := false |}.

Definition fa : path := ["data"; "a.nii"].
Definition fb : path := ["data"; "b.nii"].
Definition fc : path := ["data"; "c.nii"].
Definition fref_demo : path := ["data"; "ref.nii"].

(** Two frames of 30 s, then one of 60 s. *)
Definition demo_times : times_arg := Times2D [[0; 30]; [30; 60]; [60; 120]].

(** The same frames with the long one listed first. *)
Definition demo_times_unordered : times_arg := Times2D [[60; 120]; [0; 30]; [30; 60]].

(** The loop of [align_frames] before the frame [a], alone in its group,
    is aligned: the group is registered, with [R = 2] and [D = 5]. *)
Definition demo_reg_state : reg_state :=
  {| st_S := [Some ["data"; "affine.npy"]]; st_R := [2%Q]; st_D := [5%Q];
     st_RT := [[0%Q; 0%Q; 0%Q; 2%Q; 0%Q; 0%Q]];
     st_RTf := [replicate 6 0%Q]; st_faligned := [None]; st_fi := 0 |}.

(** The loop of [align_suvr] with frame [a] as the reference. *)
Definition demo_suvr_state : suvr_state :=
  {| ss_fnii_aligned := [fa];
     ss_niiim := {| frame_shape := [1; 1; 2]%nat;
                    frames := [[Some 3%Q; Some 0%Q]; [Some 0%Q; Some 0%Q]] |} |}.

(** Three SUVr frames. *)
Definition demo_entry (p : path) : frame_entry :=
  {| fnii := p; tstudy := Some "t0"; tacq := None; series := "s" |}.

Definition demo_stat : stat_data :=
  {| descr_frms := ["a"; "b"; "c"];
     descr_suvr_frms := ["a"; "b"; "c"];
     entries := <["a" := demo_entry fa]> (<["b" := demo_entry fb]> (<["c" := demo_entry fc]> ∅)) |}.

(** Two arrays of the caller: a 3D PET image at reference 0, a label
    image with a NaN at every other reference; and a 4D PET image. *)
Definition demo_pet3d : ndarray qfloat :=
  {| shape := [1; 1; 2]%nat; data := [Some 4%Q; Some 6%Q] |}.

Definition demo_pet4d : ndarray qfloat :=
  {| shape := [2; 1; 1; 2]%nat; data := [Some 4%Q; Some 6%Q; Some 8%Q; Some 10%Q] |}.

Definition demo_labels : ndarray qfloat :=
  {| shape := [1; 1; 2]%nat; data := [Some 1%Q; None] |}.

Definition demo_store (pet : ndarray qfloat) : store qfloat :=
  fun l => if (l =? 0)%nat then pet else demo_labels.

Definition demo_vois : list (string * list Z) := [("frontal", [1; 2])].

(** Half-lives in seconds, as the table of the imaging library gives
    them for F-18 and C-11. *)
Definition demo_thalf (istp : string) : option R :=
  if (istp =? "F18")%string then Some (65862 / 10)%R
  else if (istp =? "C11")%string then Some (12234 / 10)%R
  else None.

End Demo.

(** ** What a computation logs *)

(** Whatever the trace so far, the computation appends to it, and only
    events that satisfy [P]. *)
Definition emits_only {F A} (P : event F -> Prop) (m : M F A) : Prop :=
  forall tr, exists w, snd (m tr) = tr ++ w /\ Forall P w.

(** The folder or file a call writes to; a warning writes nothing. *)
Definition written {F} (ev : event F) : option path :=
  match ev with
  | EvWarning _ => None
  | EvCreateDir p => Some p
  | EvArray2Nii _ _ f _ _ _ => Some f
  | EvCoregSpm _ _ _ out => Some out
  | EvAffineDipy _ _ _ out => Some out
  | EvResampleSpm _ _ _ out => Some out
  | EvResampleDipy _ _ _ out => Some out
  | EvCopyFile _ dst => Some dst
  | EvMask2Nii _ _ _ f _ _ => Some f
  end.

(** The event writes inside the folder [d], if it writes at all. *)
Definition writes_under {F} (d : path) (ev : event F) : Prop :=
  match written ev with
  | Some p => d `prefix_of` p
  | None => True
  end.

(** Calls of the SPM and of the DIPY tools. *)
Definition is_spm_event {F} (ev : event F) : bool :=
  match ev with
  | EvCoregSpm _ _ _ _ | EvResampleSpm _ _ _ _ => true
  | _ => false
  end.

Definition is_dipy_event {F} (ev : event F) : bool :=
  match ev with
  | EvAffineDipy _ _ _ _ | EvResampleDipy _ _ _ _ => true
  | _ => false
  end.

(** The name [align_frames] gives to the mashed frame of the group
    [mgrp]: the size of the group and the file name of its first frame. *)
Definition mashed_name (fniis : list path) (mniidir : path) (mgrp : list nat) : option path :=
  match mgrp with
  | [] => None
  | i0 :: _ =>
      match fniis !! i0 with
      | Some fn0 => Some (pjoin mniidir ("mashed_n" +:+ pretty (length mgrp) +:+ "_" +:+ basename fn0))
      | None => None
      end
  end.

(** The output folder [opth] of [align_frames] and the path of its 4D
    file [falign_nii]. *)
Definition out_dir (fniis : list path) (outpath : option path) : path :=
  match outpath with
  | Some p => p
  | None => parent (nth 0 fniis [])
  end.

Definition f4d_path {F} (svc : services F) (f4d : option path) (opth : path) : path :=
  match f4d with
  | Some p => if is_dir svc (parent p) then p
              else pjoin opth "aligned_via_mashing_using_ref_4D.nii.gz"
  | None => pjoin opth "aligned_via_mashing_using_ref_4D.nii.gz"
  end.

(** The calls [align_frames] can make, given the tool, its two folders
    and the 4D file, if one is asked for. *)
Definition align_frames_event {F} (reg_tool : string) (mniidir rsmpl_opth : path)
    (f4 : option path) (ev : event F) : Prop :=
  match ev with
  | EvWarning _ => True
  | EvCreateDir p => p = mniidir \/ p = rsmpl_opth
  | EvArray2Nii _ _ f descrip _ _ =>
      (parent f = mniidir /\ descrip = "mashed PET frames for registration")
      \/ (Some f = f4 /\ descrip = "AmyPET-aligned frames")
  | EvCoregSpm _ _ _ out => reg_tool = "spm" /\ out = mniidir
  | EvAffineDipy _ _ _ out => reg_tool = "dipy" /\ out = mniidir
  | EvResampleSpm _ _ _ out => reg_tool = "spm" /\ out = rsmpl_opth
  | EvResampleDipy _ _ _ out => reg_tool = "dipy" /\ out = rsmpl_opth
  | EvCopyFile _ dst => parent dst = rsmpl_opth
  | EvMask2Nii _ _ _ _ _ _ => False
  end.

(** No voxel of the stack is a NaN. *)
Definition nan_free {F} `{FloatOps F} (s : stack F) : Prop :=
  Forall (Forall (fun v => fisnan v = false)) (frames s).

(** The part of the loop state that the alignment of single frames does
    not change, and that a tool other than SPM, or no tool, leaves as it
    was set up. *)
Definition kept (reg_tool : string) (n nfrm : nat) (st : reg_state) : Prop :=
  length (st_S st) = n /\ length (st_R st) = n /\ length (st_D st) = n
  /\ length (st_RT st) = n /\ length (st_RTf st) = nfrm /\ length (st_faligned st) = nfrm
  /\ (reg_tool <> "spm" ->
      st_R st = replicate n 0%Q /\ st_RT st = replicate n (replicate 6 0%Q)
      /\ st_RTf st = replicate nfrm (replicate 6 0%Q))
  /\ (reg_tool <> "spm" -> reg_tool <> "dipy" ->
      st_S st = replicate n None /\ st_D st = replicate n 0%Q).

(** The folder [align_out] of [align_suvr]. *)
Definition suvr_out_dir (outpath : option path) (e0 : frame_entry) : path :=
  match outpath with
  | Some p => p
  | None => parent (parent (fnii e0))
  end.

(** [f] is what the loop of [align_suvr] lists for the frame [ifrm]: the
    file of the frame, or its resampling to the reference [fnref]. *)
Definition suvr_aligned_file {F} (svc : services F) (reg_tool : string) (rsmpl_opth : path)
    (nii_frms : list path) (fnref : path) (ifrm : nat) (f : path) : Prop :=
  exists fflo, nii_frms !! ifrm = Some fflo
    /\ (f = fflo \/ exists aff, f = snd (resample_call svc reg_tool fnref fflo aff rsmpl_opth)).

(** ** [extract_vois]: the records of a 4D image *)

Section VoiRecords.

Context {F : Type} `{FloatOps F}.

(** The voxels whose label is one of [labels]. *)
Definition voi_mask (lbls : ndarray F) (labels : list Z) : list bool :=
  map (fun v => existsb (fun ri => feqb v (f_of_Z ri)) labels) (data lbls).

(** The record of a VOI over the frames of the 4D image [im], with no
    atlas mask and no mask file. *)
Definition voi_record_4d (im lbls : ndarray F) (labels : list Z) (output_masks : bool)
    : voi_record F :=
  let msk := voi_mask lbls labels in
  let n := Z.of_nat (length (List.filter (fun b => b) msk)) in
  let sums := map (fun fi => fsum (zip_with fmul (frame_data im fi) (map of_bool msk)))
                  (seq 0 (hd 0%nat (shape im))) in
  {| vox_no := NInt n;
     voi_sum := PerFrame sums;
     voi_avg := PerFrame (map (fun s => fdiv s (f_of_Z n)) sums);
     fvoi := None;
     roimsk := if output_masks then Some (MBool msk) else None |}.

End VoiRecords.

(** ** The wider pipeline: further external calls *)

(** Besides the calls of [event], the rest of [align.py] and [proc.py]
    starts the MATLAB engine, lets SPM change and apply deformations,
    unpacks and removes files, fetches an atlas, post-processes the SUVr
    image and stores and loads its results. *)
Inductive xevent (F : Type) : Type :=
| XCore (ev : event F)
| XSpmEngine
| XModifyAffine (fmod : path) (M : list (list Q))
| XUgzip (f outpath : path)
| XNormw (fdef : path) (flist : list path) (voxsz : list Q) (bbox : list (list Q))
    (outpath : path)
| XRemove (p : path)
| XResampleAff (ref flo : path) (M : list (list Q)) (outpath : path) (fcomment : string)
| XGetAtlas (atlas : string) (res : Z)
| XPreprocSuvr (f outpath : path) (com_correction : bool)
| XCentreMassCorr (f outpath : path) (com : list Q)
| XSave (f : path)
| XLoad (f : path).
Arguments XCore {F} ev.
Arguments XSpmEngine {F}.
Arguments XModifyAffine {F} fmod M.
Arguments XUgzip {F} f outpath.
Arguments XNormw {F} fdef flist voxsz bbox outpath.
Arguments XRemove {F} p.
Arguments XResampleAff {F} ref flo M outpath fcomment.
Arguments XGetAtlas {F} atlas res.
Arguments XPreprocSuvr {F} f outpath com_correction.
Arguments XCentreMassCorr {F} f outpath com.
Arguments XSave {F} f.
Arguments XLoad {F} f.

(** Computations over the wider trace. *)
Definition X (F A : Type) : Type := list (xevent F) -> result A * list (xevent F).

#[global] Instance X_ret {F} : MRet (X F) := fun A a tr => (Ok a, tr).
#[global] Instance X_bind {F} : MBind (X F) := fun A B k m tr =>
  match m tr with
  | (Ok a, tr') => k a tr'
  | (Raise e, tr') => (Raise e, tr')
  end.

Definition xlift {F A} (r : result A) : X F A := fun tr => (r, tr).

Definition xemit {F} (ev : xevent F) : X F unit := fun tr => (Ok tt, tr ++ [ev]).

Fixpoint xfoldM {F A S} (f : S -> A -> X F S) (l : list A) (s : S) : X F S :=
  match l with
  | [] => mret s
  | x :: l' => s' ← f s x; xfoldM f l' s'
  end.

(** A computation of the alignment core, run inside the wider one: its
    calls are appended to the trace. *)
Definition core {F A} (m : M F A) : X F A :=
  fun tr => let '(r, w) := m [] in (r, tr ++ map XCore w).

(** ** Python values of the dictionaries handed around *)

(** The values met in the centiloid dictionary and in the timing
    dictionary: dictionaries with distinct keys, paths, matrices. *)
#[warnings="-register-all"]
Inductive pyobj : Type :=
| PyDict (items : list (string * pyobj))
| PyPathV (p : path)
| PyMatrix (m : list (list Q))
| PyNone.

(** [d[k]] on a dictionary. *)
Definition dict_get (items : list (string * pyobj)) (k : string) : result pyobj :=
  match List.find (fun kv => String.eqb (fst kv) k) items with
  | Some kv => Ok (snd kv)
  | None => Raise (KeyError k)
  end.

(** [o[k]] with a string key: only a dictionary has such entries. *)
Definition subscript (o : pyobj) (k : string) : result pyobj :=
  match o with
  | PyDict items => dict_get items k
  | PyPathV _ => Raise (TypeError "'PosixPath' object is not subscriptable")
  | PyMatrix _ => Raise (IndexError "only integers, slices and arrays are valid indices")
  | PyNone => Raise (TypeError "'NoneType' object is not subscriptable")
  end.

(** [Path(o)] *)
Definition as_path (o : pyobj) : result path :=
  match o with
  | PyPathV p => Ok p
  | _ => Raise (TypeError "expected str, bytes or os.PathLike object")
  end.

(** ** Strings and file names *)

(** The character of a one-letter string. *)
Definition char_of (s : string) : Ascii.ascii :=
  match s with
  | String c _ => c
  | EmptyString => Ascii.zero
  end.

(** [s.split(sep)], with [cur] the piece under way. *)
Fixpoint split_on (sep : Ascii.ascii) (s : string) (cur : string) : list string :=
  match s with
  | EmptyString => [cur]
  | String c s' =>
      if Ascii.eqb c sep then cur :: split_on sep s' ""
      else split_on sep s' (cur +:+ String c "")
  end.

(** [s.split('.')[0]] *)
Definition split_dot_head (s : string) : string :=
  hd EmptyString (split_on (char_of ".") s "").

(** [s.endswith(suf)] *)
Definition ends_with (suf s : string) : bool :=
  (String.length suf <=? String.length s)%nat
  && String.eqb (String.substring (String.length s - String.length suf)
                   (String.length suf) s) suf.

(** The components of [Path(s)] for a string [s]: empty pieces and ['.']
    are dropped. *)
Definition str_path (s : string) : path :=
  List.filter (fun c => negb (String.eqb c "") && negb (String.eqb c "."))
    (split_on (char_of "/") s "").

(** [f + suf] on the name of a file given as a string. *)
Definition with_suffix (p : path) (suf : string) : path :=
  match p with
  | [] => [suf]
  | _ => removelast p ++ [basename p +:+ suf]
  end.

(** [list(range(a, b))] *)
Definition zrange (a b : nat) : list Z := map Z.of_nat (seq a (b - a)).

(** ** The study dictionary [niidat] *)

(** An entry of [niidat['descr']]: the times and the frames of a series. *)
Record series_descr : Type := {
  sd_time : list Z;
  sd_frms : list string
}.

Record niidat : Type := {
  nd_outpath : option path;
  nd_tracer : string;
  nd_descr : list series_descr;
  nd_series : list (gmap string frame_entry)
}.

(** [niidat['outpath']] *)
Definition niidat_outpath (nd : niidat) : result path :=
  match nd_outpath nd with
  | Some p => Ok p
  | None => Raise (KeyError "outpath")
  end.

(** ** [proc.py] *)

(** The collaborators of [proc.py]; [get_atlas] and [timing_dyn] belong
    to modules of the package that are used as given. *)
Record proc_services (F : Type) : Type := {
  get_bbox : nii F -> list (list Q);
  voxsize : path -> list Q;
  linalg_inv : pyobj -> result (list (list Q));
  nii_ugzip : path -> path -> path;
  normw_spm : path -> list path -> list Q -> list (list Q) -> path -> list path;
  resample_spm_aff : path -> path -> list (list Q) -> path -> string -> path;
  get_atlas : string -> Z -> result path;
  timing_dyn : niidat -> result pyobj
}.
Arguments get_bbox {F} _ _.
Arguments voxsize {F} _ _.
Arguments linalg_inv {F} _ _.
Arguments nii_ugzip {F} _ _ _.
Arguments normw_spm {F} _ _ _ _ _ _.
Arguments resample_spm_aff {F} _ _ _ _ _ _.
Arguments get_atlas {F} _ _ _.
Arguments timing_dyn {F} _ _.

(** What [atlas] can be: a string, a path, anything else. *)
Inductive atlas_arg : Type :=
| AtlasStr (s : string)
| AtlasPath (p : path)
| AtlasOther.

(** What [voi_idx] can be. *)
Inductive voi_idx_arg : Type :=
| VoiNone
| VoiDict (d : list (string * list Z))
| VoiOther.

(** [Path(atlas).name.endswith(('.nii', '.nii.gz'))] for a string or a
    path. *)
Definition atlas_file (atlas : atlas_arg) : option path :=
  match atlas with
  | AtlasStr s => Some (str_path s)
  | AtlasPath p => Some p
  | AtlasOther => None
  end.

Definition is_nifti_name (p : path) : bool :=
  ends_with ".nii" (basename p) || ends_with ".nii.gz" (basename p).

(** [atlas == name] *)
Definition atlas_is (atlas : atlas_arg) (name : string) : bool :=
  match atlas with
  | AtlasStr s => String.eqb s name
  | _ => false
  end.

(** The tables of composite VOIs: the AAL3 codes and the Hammers codes. *)
Definition aal_vois : list (string * list Z) :=
  [ ("cerebellum", zrange 95 120);
    ("frontal", zrange 1 25 ++ [73; 74]);
    ("parietal", zrange 61 72);
    ("occipital", zrange 47 59);
    ("temporal", [59; 60] ++ zrange 83 95);
    ("insula", [33; 34]);
    ("precuneus", [71; 72]);
    ("antmidcingulate", zrange 151 157 ++ [37; 38]);
    ("postcingulate", [39; 40]);
    ("hippocampus", [41; 42]);
    ("caudate", [75; 76]);
    ("putamen", [77; 78]);
    ("thalamus", zrange 121 151);
    ("composite", zrange 3 29 ++ zrange 31 37 ++ zrange 59 69 ++ zrange 63 72 ++ zrange 85 91) ].

Definition hammers_vois : list (string * list Z) :=
  [ ("cerebellum", [17; 18]);
    ("frontal", [28; 29] ++ zrange 50 60 ++ zrange 68 74 ++ zrange 76 82);
    ("parietal", [32; 33; 60; 61; 62; 63; 84; 85]);
    ("occipital", [22; 23; 64; 65; 66; 67]);
    ("temporal", zrange 5 17 ++ [82; 83]);
    ("insula", [20; 21] ++ zrange 86 96);
    ("antecingulate", [24; 25]);
    ("postcingulate", [26; 27]);
    ("hippocampus", [1; 2]);
    ("caudate", [34; 35]);
    ("putamen", [38; 39]);
    ("thalamus", [40; 41]);
    ("composite", [28; 29] ++ zrange 52 60 ++ zrange 76 82 ++ zrange 86 96
                  ++ [32; 33; 62; 63; 84; 85]) ].

Section Proc.

Context {F : Type} `{FloatOps F}.
Variable svc : services F.
Variable psvc : proc_services F.

(** The dictionary [atl2pet] returns. *)
Record atl_out : Type := {
  fatlpet : path;
  fgmpet : path;
  atlpet : ndarray F;
  gmpet : ndarray F;
  ao_outpath : path
}.

(** Lines 42-48: the centiloid dictionary itself, or the one entry of
    the dictionary that wraps it. *)
Definition decipher_cldct (cldct : list (string * pyobj)) : result pyobj :=
  if (length cldct =? 1)%nat then
    kv ← get_item cldct 0; Ok (snd kv)
  else if existsb (fun kv => String.eqb (fst kv) "norm") cldct then Ok (PyDict cldct)
  else Raise (ValueError "unrecognised CL dictionary").

(** [atl2pet]: the atlas and the grey-matter mask of the centiloid
    pipeline in the space of the reference PET image.  With no [outpath]
    the folder is to come from [cl_dct], a variable that is assigned only
    further down. *)
Definition atl2pet (frefpet fatl : path) (cldct : list (string * pyobj))
    (outpath : option path) : X F atl_out :=
  opth ← match outpath with
         | None => xlift (Raise (UnboundLocalError "cl_dct"))
         | Some p => mret p
         end;
  _ ← xemit (XCore (EvCreateDir opth));
  cl_dct ← xlift (decipher_cldct cldct);
  petdct ← xlift (read_nii svc (Some frefpet));
  let bbox := get_bbox psvc petdct in
  reg2 ← xlift (subscript cl_dct "reg2");
  aff ← xlift (subscript reg2 "affine");
  M ← xlift (linalg_inv psvc aff);
  norm ← xlift (subscript cl_dct "norm");
  invdef ← xlift (subscript norm "invdef");
  src ← xlift (as_path invdef);
  let fmod := pjoin opth (split_dot_head (basename src) +:+ "_2nat.nii") in
  _ ← xemit (XCore (EvCopyFile src fmod));
  _ ← xemit XSpmEngine;
  _ ← xemit (XModifyAffine fmod M);
  let fniiatl := nii_ugzip psvc fatl opth in
  _ ← xemit (XUgzip fatl opth);
  let flist := [with_suffix fniiatl ",1"] in
  _ ← xemit (XNormw fmod flist (voxsize psvc frefpet) bbox opth);
  finvatl ← xlift (get_item (normw_spm psvc fmod flist (voxsize psvc frefpet) bbox opth) 0);
  _ ← xemit (XRemove fniiatl);
  norm' ← xlift (subscript cl_dct "norm");
  c1 ← xlift (subscript norm' "c1");
  c1p ← xlift (as_path c1);
  _ ← xemit (XResampleAff frefpet c1p M opth "_GM_in_PET");
  let fgm := resample_spm_aff psvc frefpet c1p M opth "_GM_in_PET" in
  atl ← xlift (read_nii svc (Some finvatl));
  gm ← xlift (read_nii svc (Some fgm));
  mret {| fatlpet := finvatl; fgmpet := fgm;
          atlpet := nan_to_zero (nii_im atl); gmpet := nan_to_zero (nii_im gm);
          ao_outpath := opth |}.

(** [extract_vois] on files, run inside the wider trace; no array of the
    caller is involved. *)
Definition extract_vois_files (fpet fatlas : path) (voi_dct : list (string * list Z))
    (atlas_mask : mask_arg) (outpath : option path) (output_masks : bool)
    : X F (gmap string (voi_record F)) :=
  fun tr =>
    let '(r, w) := fst (extract_vois svc (ArgFile fpet) (ArgFile fatlas) voi_dct atlas_mask
                          outpath output_masks (fun _ => np_zeros [])) in
    (r, tr ++ map XCore w).

(** The dictionary [proc_vois] returns. *)
Record proc_out : Type := {
  po_dt : pyobj;
  po_voi : gmap string (voi_record F);
  po_atlas_gm : atl_out;
  po_outpath : path
}.

(** Lines 286-290: the atlas file, when [atlas] names one or is one of
    the two atlases known by name. *)
Definition select_atlas (atlas : atlas_arg) (res : Z) : X F (option path) :=
  match atlas_file atlas with
  | Some p =>
      if is_nifti_name p then mret (Some p)
      else
        match atlas with
        | AtlasStr s =>
            if existsb (String.eqb s) ["hammers"; "aal"] then
              _ ← xemit (XGetAtlas s res);
              fatlas ← xlift (get_atlas psvc s res);
              mret (Some fatlas)
            else mret None
        | _ => mret None
        end
  | None => mret None
  end.

(** Lines 292-330: the table of VOIs. *)
Definition select_vois (atlas : atlas_arg) (voi_idx : voi_idx_arg)
    : result (list (string * list Z)) :=
  match voi_idx with
  | VoiDict d => Ok d
  | _ =>
      if atlas_is atlas "all" then Ok aal_vois
      else if atlas_is atlas "hammers" then Ok hammers_vois
      else Raise (ValueError "unrecognised atlas name!")
  end.

(** [proc_vois], given the SUVr reference image
    [aligned_suvr['suvr']['fsuvr']] and the dynamic image
    [aligned_brk['fpet']]. *)
Definition proc_vois (nd : niidat) (fsuvr fpet : path) (cl_dct : list (string * pyobj))
    (atlas : atlas_arg) (voi_idx : voi_idx_arg) (res : Z) (outpath : option path)
    (apply_gmmask : bool) : X F proc_out :=
  opth ← match outpath with
         | None => p ← xlift (niidat_outpath nd); mret (pjoin (parent p) "DYN")
         | Some p => mret p
         end;
  _ ← xemit (XCore (EvCreateDir opth));
  fatl ← select_atlas atlas res;
  dvoi ← xlift (select_vois atlas voi_idx);
  fatl_ ← xlift (match fatl with
                 | Some f => Ok f
                 | None => Raise (UnboundLocalError "fatl")
                 end);
  atlgm ← atl2pet fsuvr fatl_ cl_dct (Some opth);
  let gmmsk := if apply_gmmask then MaskFile (fgmpet atlgm) else MaskNone in
  rvoi ← extract_vois_files fpet (fatlpet atlgm) dvoi gmmsk (Some (pjoin opth "masks")) true;
  tdct ← xlift (timing_dyn psvc nd);
  dt ← xlift (subscript tdct "niftypad");
  mret {| po_dt := dt; po_voi := rvoi; po_atlas_gm := atlgm; po_outpath := opth |}.

End Proc.

(** ** [align_suvr] after the SUVr frames, [align_break] and [align] *)

(** The static series as [id_acq] hands it over: the dictionary of the
    frames and [descr['timings']], a list of start/stop rows. *)
Record stat_wide : Type := {
  sw_stat : stat_data;
  sw_timings : list (list Z)
}.

(** The coffee-break series: [descr['frms']], [descr['timings']] as an
    array, and the entries of the frames. *)
Record break_data : Type := {
  bd_frms : list string;
  bd_timings : times_arg;
  bd_entries : gmap string frame_entry
}.

(** What [preproc_suvr] returns, as far as it is used: ['fcom'] and
    ['com']. *)
Record suvr_frm : Type := {
  sf_fcom : path;
  sf_com : list Q
}.

(** [outdct['suvr']] and [outdct['wide']] of [align_suvr]. *)
Record suvr_dict : Type := {
  sv_fpet : path;
  sv_fsuvr : path;
  sv_fpeti : list path;
  sv_outpath : path;
  sv_Metric : list (list Q);
  sv_faff : list (list (option path));
  sv_fpet_notaligned : option path
}.

Record wide_dict : Type := {
  wd_fpet : path;
  wd_fpeti : list (option path);
  wd_outpath : path;
  wd_Metric : list Q;
  wd_faff : list (option path)
}.

Record aligned_suvr_dict : Type := {
  as_suvr : suvr_dict;
  as_wide : wide_dict
}.

(** [a[mask]] on the first axis: the mask must be as long as the array. *)
Fixpoint select {A} (l : list A) (mask : list bool) : list A :=
  match l, mask with
  | x :: l', b :: mask' => if b then x :: select l' mask' else select l' mask'
  | _, _ => []
  end.

Definition mask_rows (rows : list (list Z)) (mask : list bool) : result times_arg :=
  if negb (length rows =? length mask)%nat then
    Raise (IndexError "boolean index did not match indexed array")
  else Ok (Times2D (select rows mask)).

Section AlignAll.

Context {F : Type} `{FloatOps F}.
Variable svc : services F.

(** What [align_break] adds to the dictionary of [align_suvr]. *)
Record break_part : Type := {
  bp_fpet : path;
  bp_fpeti : list (option path);
  bp_alignment : frames_out (F := F)
}.

(** The dictionary [align_break] and [align] return: that of
    [align_suvr], with the entries of the break when there is one. *)
Record align_result : Type := {
  ar_suvr : aligned_suvr_dict;
  ar_break : option break_part
}.

(** The collaborators of the rest of [align.py]: [id_acq] and
    [preproc_suvr] belong to modules of the package that are used as
    given; stored results are read back as they were saved; [scale] is
    the product of a number and a voxel value. *)
Record align_services : Type := {
  id_acq_suvr : niidat -> result stat_wide;
  id_acq_break : niidat -> result (option break_data);
  preproc_suvr : path -> path -> bool -> result suvr_frm;
  centre_mass_corr : path -> path -> list Q -> path;
  np_load_suvr : path -> result aligned_suvr_dict;
  np_load_break : path -> result align_result;
  riLUT_thalf : string -> option R;
  scale : R -> F -> F
}.

Variable asvc : align_services.

(** The file names of [align_suvr] (lines 476-505). *)
Record suvr_files : Type := {
  f_niidir : path;
  f_rsmpl_opth : path;
  f_faligned_c : path;
  f_faligned_s : path;
  f_falign_dct : path;
  f_fnotaligned : path
}.

Definition suvr_file_names (stat_tdata : stat_data) (outpath : option path)
    (com_correction : bool) : result suvr_files :=
  k0 ← get_item (descr_frms stat_tdata) 0;
  e0 ← entry stat_tdata k0;
  let niidir := pjoin (suvr_out_dir outpath e0) "NIfTI_aligned" in
  let niidir_i := pjoin niidir "intermediate" in
  let nfrm := length (descr_frms stat_tdata) in
  let nsfrm := length (descr_suvr_frms stat_tdata) in
  let t_ := match tstudy e0, tacq e0 with
            | Some t, _ => "study-" +:+ t
            | None, Some t => "acq-" +:+ t
            | None, None => ""
            end in
  let ser := rem_chars svc (series e0) in
  Ok {| f_niidir := niidir;
        f_rsmpl_opth := pjoin niidir "SPM-aligned";
        f_faligned_c := pjoin niidir_i ("SUVr-aligned_" +:+ pretty nsfrm +:+ "-frames_"
                                        +:+ (if com_correction then "CoM_" else "")
                                        +:+ ser +:+ ".nii.gz");
        f_faligned_s := pjoin niidir ("Aligned-" +:+ pretty nfrm +:+ "-frames-to-SUVr_"
                                      +:+ ser +:+ ".nii.gz");
        f_falign_dct := pjoin niidir ("Aligned-" +:+ pretty nfrm +:+ "-frames-to-SUVr_"
                                      +:+ t_ +:+ "_" +:+ ser +:+ ".npy");
        f_fnotaligned := pjoin niidir_i ("SUVr_NOT_aligned_" +:+ ser +:+ ".nii.gz") |}.

(** Lines 724-729: the centre-of-mass correction of one aligned frame. *)
Definition com_step (rsmpl_opth : path) (com : list Q)
    (st : list path * stack F) (ifrm : nat * path) : X F (list path * stack F) :=
  _ ← xemit (XCentreMassCorr (snd ifrm) rsmpl_opth com);
  let fim := centre_mass_corr asvc (snd ifrm) rsmpl_opth com in
  n ← xlift (read_nii svc (Some fim));
  niiim ← xlift (stack_set (snd st) (fst ifrm) (nii_im n));
  mret (fst st ++ [fim], niiim).

(** Lines 753-754: the frames as they were, not aligned. *)
Definition noalign_step (im : stack F) (kf : nat * path) : result (stack F) :=
  n ← read_nii svc (Some (snd kf));
  stack_set im (fst kf) (nii_im n).

(** The arrays the loop over all static frames fills (lines 786-799). *)
Record wide_state : Type := {
  ws_S : list (option path);
  ws_R : list Q;
  ws_D : list Q;
  ws_fnii : list (option path);
  ws_niiim : stack F;
  ws_fsi : nat;
  ws_fwi : nat
}.

(** The body of [for fi, frm in enumerate(falign)] (lines 801-815). *)
Definition wide_step (idx_r : list bool) (aligned_wide : frames_out (F := F))
    (fpeti : list path) (Saff : list (list (option path))) (Rm : list (list Q)) (rfrm : nat)
    (niiim : stack F) (st : wide_state) (fifrm : nat * path) : result wide_state :=
  let fi := fst fifrm in
  b ← get_item idx_r fi;
  if b : bool then
    a ← get_item (affines aligned_wide) (ws_fwi st);
    S_w ← set_item (ws_S st) fi a;
    r ← get_item (metric aligned_wide) (ws_fwi st);
    R_w ← set_item (ws_R st) fi r;
    d ← get_item (metric2 aligned_wide) (ws_fwi st);
    D_w ← set_item (ws_D st) fi d;
    f ← get_item (faligned aligned_wide) (ws_fwi st);
    fnii_w ← set_item (ws_fnii st) fi f;
    n ← read_nii svc f;
    im ← stack_set (ws_niiim st) fi (nii_im n);
    Ok {| ws_S := S_w; ws_R := R_w; ws_D := D_w; ws_fnii := fnii_w; ws_niiim := im;
          ws_fsi := ws_fsi st; ws_fwi := S (ws_fwi st) |}
  else
    p ← get_item fpeti (ws_fsi st);
    fnii_w ← set_item (ws_fnii st) fi (Some p);
    a ← get_item2 Saff rfrm (ws_fsi st);
    S_w ← set_item (ws_S st) fi a;
    r ← get_item2 Rm rfrm (ws_fsi st);
    R_w ← set_item (ws_R st) fi r;
    fr ← get_item (frames niiim) (ws_fsi st);
    im ← stack_set (ws_niiim st) fi {| shape := frame_shape niiim; data := fr |};
    Ok {| ws_S := S_w; ws_R := R_w; ws_D := ws_D st; ws_fnii := fnii_w; ws_niiim := im;
          ws_fsi := S (ws_fsi st); ws_fwi := ws_fwi st |}.

(** Lines 715-830 of [align_suvr], which follow the saving of the
    aligned SUVr frames; [o] holds what the first part has established.
    The names of the files, the SUVr frames and the reference image are
    local variables of the first part and are formed here as there. *)
Definition align_suvr_rest (stat : stat_wide) (Cnt : align_config) (outpath : option path)
    (save_not_aligned com_correction : bool) (o : suvr_out (F := F))
    : X F aligned_suvr_dict :=
  let stat_tdata := sw_stat stat in
  let nfrm := length (descr_frms stat_tdata) in
  fl ← xlift (suvr_file_names stat_tdata outpath com_correction);
  es ← xlift (mapM (entry stat_tdata) (descr_suvr_frms stat_tdata));
  let nii_frms := map fnii es in
  fnref ← xlift (get_item nii_frms (so_rfrm o));
  niiref ← xlift (read_nii svc (Some fnref));
  _ ← xemit (XPreprocSuvr (so_faligned o) (f_niidir fl) com_correction);
  suvr_frm ← xlift (preproc_suvr asvc (so_faligned o) (f_niidir fl) com_correction);
  let fref := sf_fcom suvr_frm in
  let niiim0 := stack_zeros (length (frames (so_niiim o))) (frame_shape (so_niiim o)) in
  cn ← xfoldM (com_step (f_rsmpl_opth fl) (sf_com suvr_frm))
         (enumerate (so_fnii_aligned o)) ([], niiim0);
  let fniic_aligned := fst cn in
  let niiim := snd cn in
  tmp ← xlift (read_nii svc (Some fref));
  trnsp ← xlift (inverse_transpose (nii_transpose tmp));
  _ ← xemit (XCore (EvArray2Nii (stack_array niiim) (nii_affine tmp) (f_faligned_c fl)
                      ("AmyPET: aligned SUVr frames"
                       +:+ (if com_correction then ", CoM-modified" else ""))
                      trnsp (nii_flip tmp)));
  let suvr0 := {| sv_fpet := f_faligned_c fl; sv_fsuvr := fref; sv_fpeti := fniic_aligned;
                  sv_outpath := f_niidir fl; sv_Metric := so_R o; sv_faff := so_S o;
                  sv_fpet_notaligned := None |} in
  suvr ← (if save_not_aligned then
            nii_noalign ← xlift (fold_result noalign_step (enumerate nii_frms)
                                   (stack_zeros (length (frames niiim)) (frame_shape niiim)));
            trn ← xlift (inverse_transpose (nii_transpose niiref));
            _ ← xemit (XCore (EvArray2Nii (stack_array nii_noalign) (nii_affine niiref)
                                (f_fnotaligned fl) "AmyPET: unaligned SUVr frames" trn
                                (nii_flip niiref)));
            mret {| sv_fpet := f_faligned_c fl; sv_fsuvr := fref; sv_fpeti := fniic_aligned;
                    sv_outpath := f_niidir fl; sv_Metric := so_R o; sv_faff := so_S o;
                    sv_fpet_notaligned := Some (f_fnotaligned fl) |}
          else mret suvr0);
  let idx_r := map (fun f => negb (existsb (String.eqb f) (descr_suvr_frms stat_tdata)))
                   (descr_frms stat_tdata) in
  fall ← xlift (mapM (entry stat_tdata) (descr_frms stat_tdata));
  let falign := map fnii fall in
  ts_r ← xlift (mask_rows (sw_timings stat) idx_r);
  aligned_wide ← core (align_frames svc (select falign idx_r) ts_r fref Cnt "spm" false None
                         (Some (f_niidir fl)));
  let ws0 := {| ws_S := replicate nfrm None; ws_R := replicate nfrm 0%Q;
                ws_D := replicate nfrm 0%Q; ws_fnii := replicate nfrm None;
                ws_niiim := stack_zeros nfrm (shape (nii_im niiref));
                ws_fsi := 0; ws_fwi := 0 |} in
  ws ← xlift (fold_result (wide_step idx_r aligned_wide (sv_fpeti suvr) (so_S o) (so_R o)
                             (so_rfrm o) niiim)
                (enumerate falign) ws0);
  trn ← xlift (inverse_transpose (nii_transpose niiref));
  _ ← xemit (XCore (EvArray2Nii (stack_array (ws_niiim ws)) (nii_affine niiref)
                      (f_faligned_s fl) "AmyPET: aligned static frames" trn
                      (nii_flip niiref)));
  _ ← xemit (XSave (f_falign_dct fl));
  mret {| as_suvr := suvr;
          as_wide := {| wd_fpet := f_faligned_s fl; wd_fpeti := ws_fnii ws;
                        wd_outpath := f_niidir fl; wd_Metric := ws_R ws;
                        wd_faff := ws_S ws |} |}.

(** [align_suvr] as a whole: the first part, then the rest, or the
    stored dictionary read back. *)
Definition align_suvr_all (stat : stat_wide) (Cnt : align_config) (reg_tool : string)
    (outpath : option path) (save_not_aligned use_stored com_correction : bool)
    : X F aligned_suvr_dict :=
  o ← core (align_suvr svc (sw_stat stat) Cnt reg_tool outpath use_stored);
  match o with
  | Some o => align_suvr_rest stat Cnt outpath save_not_aligned com_correction o
  | None =>
      fl ← xlift (suvr_file_names (sw_stat stat) outpath com_correction);
      _ ← xemit (XLoad (f_falign_dct fl));
      xlift (np_load_suvr asvc (f_falign_dct fl))
  end.

(** [bdyn_tdata[k]] *)
Definition break_entry (bd : break_data) (k : string) : result frame_entry :=
  match bd_entries bd !! k with
  | Some e => Ok e
  | None => Raise (KeyError k)
  end.

(** [dcycrr * a] *)
Definition scaled (dcycrr : R) (a : ndarray F) : ndarray F :=
  {| shape := shape a; data := map (scale asvc dcycrr) (data a) |}.

(** Lines 964-968: a frame of the static series, scaled, behind the
    [nb] frames of the break. *)
Definition static_step (dcycrr : R) (nb : nat) (niia : stack F) (ifrm : nat * option path)
    : result (stack F) :=
  im_ ← read_nii svc (snd ifrm);
  stack_set niia (nb + fst ifrm) (nan_to_zero (scaled dcycrr (nii_im im_))).

(** [align_break] *)
Definition align_break (nd : niidat) (aligned_suvr : aligned_suvr_dict) (Cnt : align_config)
    (reg_tool : string) (use_stored : bool) : X F align_result :=
  bdyn ← xlift (id_acq_break asvc nd);
  match bdyn with
  | None => mret {| ar_suvr := aligned_suvr; ar_break := None |}
  | Some bd =>
      ts0 ← xlift (mapM (fun sri => get_item (sd_time sri) 0) (nd_descr nd));
      dcycrr ← xlift (Break.align_break_dcycrr (riLUT_thalf asvc) Cnt ts0 (nd_tracer nd));
      k0 ← xlift (get_item (bd_frms bd) 0);
      e0 ← xlift (break_entry bd k0);
      tstudy_ ← xlift (match tstudy e0 with
                       | Some t => Ok t
                       | None => Raise (KeyError "tstudy")
                       end);
      outp ← xlift (niidat_outpath nd);
      let falign_dct := pjoin (pjoin outp "NIfTI_aligned")
                          ("Dynamic-early-frames_study-" +:+ tstudy_
                           +:+ "_aligned-to-SUVr-ref.npy") in
      if use_stored && is_file svc falign_dct then
        _ ← xemit (XLoad falign_dct);
        xlift (np_load_break asvc falign_dct)
      else
        let faligned_stat := wd_fpeti (as_wide aligned_suvr) in
        let fref := sv_fsuvr (as_suvr aligned_suvr) in
        fniis ← xlift (mapM (fun k => e ← break_entry bd k; Ok (fnii e)) (bd_frms bd));
        aligned ← core (align_frames svc fniis (bd_timings bd) fref Cnt reg_tool false None
                          (Some outp));
        let fall := faligned aligned ++ faligned_stat in
        let nfrma := length fall in
        f0_ ← xlift (get_item (faligned aligned) 0);
        tmp ← xlift (read_nii svc f0_);
        niia ← xlift (fold_result (save4d_step svc) (enumerate (faligned aligned))
                        (stack_zeros nfrma (shape (nii_im tmp))));
        niia' ← xlift (fold_result (static_step dcycrr (length (faligned aligned)))
                         (enumerate faligned_stat) niia);
        let nfrm := length (frames niia') in
        let falign_nii := pjoin (pjoin outp "NIfTI_aligned")
                            ("Dynamic-" +:+ pretty nfrm +:+ "-frames_study-" +:+ tstudy_
                             +:+ "_aligned-to-SUVr-ref.nii.gz") in
        trnsp ← xlift (inverse_transpose (nii_transpose tmp));
        _ ← xemit (XCore (EvArray2Nii (stack_array niia') (nii_affine tmp) falign_nii
                            "AmyPET: aligned dynamic frames" trnsp (nii_flip tmp)));
        _ ← xemit (XSave falign_dct);
        mret {| ar_suvr := aligned_suvr;
                ar_break := Some {| bp_fpet := falign_nii; bp_fpeti := fall;
                                    bp_alignment := aligned |} |}
  end.

(** [niidat['series'][0][niidat['descr'][0]['frms'][0]]['fnii'].parent] *)
Definition first_frame_dir (nd : niidat) : result path :=
  d0 ← get_item (nd_descr nd) 0;
  k ← get_item (sd_frms d0) 0;
  s0 ← get_item (nd_series nd) 0;
  match s0 !! k with
  | Some e => Ok (parent (fnii e))
  | None => Raise (KeyError k)
  end.

(** [align]: the SUVr frames and the remaining static frames, then the
    frames of the break. *)
Definition align (nd : niidat) (Cnt : align_config) (reg_tool : string)
    (com_correction : bool) (outpath : option path) (use_stored : bool) : X F align_result :=
  opth ← match outpath, nd_outpath nd with
         | None, None => xlift (first_frame_dir nd)
         | Some p, _ => _ ← xemit (XCore (EvCreateDir p)); mret p
         | None, Some q => mret q
         end;
  stat_tdata ← xlift (id_acq_suvr asvc nd);
  aligned_suvr ← align_suvr_all stat_tdata Cnt reg_tool (Some opth) true use_stored
                   com_correction;
  align_break nd aligned_suvr Cnt reg_tool use_stored.

End AlignAll.

(** ** What a wider computation logs *)

Definition xemits_only {F A} (P : xevent F -> Prop) (m : X F A) : Prop :=
  forall tr, exists w, snd (m tr) = tr ++ w /\ Forall P w.

(** The folder or file a call of the wider pipeline writes to, changes
    or removes; starting the engine, fetching an atlas and loading a
    stored result name none. *)
Definition xwritten {F} (ev : xevent F) : option path :=
  match ev with
  | XCore e => written e
  | XModifyAffine fmod _ => Some fmod
  | XUgzip _ out => Some out
  | XNormw _ _ _ _ out => Some out
  | XRemove p => Some p
  | XResampleAff _ _ _ out _ => Some out
  | XPreprocSuvr _ out _ => Some out
  | XCentreMassCorr _ out _ => Some out
  | XSave f => Some f
  | XSpmEngine | XGetAtlas _ _ | XLoad _ => None
  end.

Definition xwrites_under {F} (d : path) (ev : xevent F) : Prop :=
  match xwritten ev with
  | Some p => d `prefix_of` p
  | None => True
  end.

(** A call of a DIPY tool. *)
Definition is_dipy_xevent {F} (ev : xevent F) : bool :=
  match ev with
  | XCore e => is_dipy_event e
  | _ => false
  end.

(** ** A small study for the wider pipeline *)

Module DemoWide.
Import Demo.

Definition fd : path := ["data"; "d.nii"].
Definition fe : path := ["data"; "e.nii"].

(** Three frames of a minute each, and a minute followed by half a
    minute. *)
Definition demo_times_long : times_arg := Times2D [[0; 60]; [60; 120]; [120; 180]].
Definition demo_times_leftover : times_arg := Times2D [[0; 60]; [60; 90]].

Definition demo_entries : gmap string frame_entry :=
  <["a" := demo_entry fa]> (<["b" := demo_entry fb]> (<["c" := demo_entry fc]> ∅)).

(** A static series without SUVr frames. *)
Definition demo_stat_no_suvr : stat_data :=
  {| descr_frms := ["a"; "b"; "c"]; descr_suvr_frms := []; entries := demo_entries |}.

(** A static series of three frames of a minute, the last two of them
    in the SUVr window. *)
Definition demo_stat_wide : stat_wide :=
  {| sw_stat := {| descr_frms := ["a"; "b"; "c"]; descr_suvr_frms := ["b"; "c"];
                   entries := demo_entries |};
     sw_timings := [[0; 60]; [60; 120]; [120; 180]] |}.

(** A static series whose two frames outside the SUVr window last half
    a minute each. *)
Definition demo_stat_short : stat_wide :=
  {| sw_stat := {| descr_frms := ["a"; "b"; "c"]; descr_suvr_frms := ["c"];
                   entries := demo_entries |};
     sw_timings := [[0; 30]; [30; 60]; [60; 120]] |}.

(** The early frames of a coffee-break study. *)
Definition demo_break : break_data :=
  {| bd_frms := ["d"; "e"];
     bd_timings := Times2D [[0; 60]; [60; 120]];
     bd_entries := <["d" := demo_entry fd]> (<["e" := demo_entry fe]> ∅) |}.

(** A study of two series, the second starting 90 minutes after the
    first, with the tracer florbetaben. *)
Definition demo_niidat (outpath : option path) : niidat :=
  {| nd_outpath := outpath;
     nd_tracer := "fbb";
     nd_descr := [ {| sd_time := [0; 1200]; sd_frms := ["d"; "e"] |};
                   {| sd_time := [5400; 6600]; sd_frms := ["a"; "b"; "c"] |} ];
     nd_series := [bd_entries demo_break; demo_entries] |}.

(** A study of the static series alone. *)
Definition demo_niidat_static : niidat :=
  {| nd_outpath := None;
     nd_tracer := "fbb";
     nd_descr := [ {| sd_time := [5400; 6600]; sd_frms := ["a"; "b"; "c"] |} ];
     nd_series := [demo_entries] |}.

(** The collaborators: a study of two series has coffee-break data; the
    scaling of the demo leaves the voxel values as they are. *)
Definition demo_asvc : @align_services qfloat :=
  {| id_acq_suvr := fun _ => Ok demo_stat_wide;
     id_acq_break := fun nd => Ok (match nd_descr nd with
                                   | [_; _] => Some demo_break
                                   | _ => None
                                   end);
     preproc_suvr := fun _ out _ =>
       Ok {| sf_fcom := pjoin out "suvr_com.nii"; sf_com := [0%Q; 0%Q; 0%Q] |};
     centre_mass_corr := fun f out _ => pjoin out ("com_" +:+ basename f);
     np_load_suvr := fun _ => Raise (OSError "no stored result");
     np_load_break := fun _ => Raise (OSError "no stored result");
     riLUT_thalf := demo_thalf;
     scale := fun _ v => v |}.

(** What [align_suvr] has returned for another study: two static
    frames, aligned. *)
Definition demo_aligned_suvr : aligned_suvr_dict :=
  {| as_suvr := {| sv_fpet := ["out"; "suvr.nii.gz"]; sv_fsuvr := fref_demo;
                   sv_fpeti := [fa; fb]; sv_outpath := ["out"];
                   sv_Metric := [[0%Q; 1%Q]; [1%Q; 0%Q]];
                   sv_faff := [[None; None]; [None; None]];
                   sv_fpet_notaligned := None |};
     as_wide := {| wd_fpet := ["out"; "static.nii.gz"]; wd_fpeti := [Some fa; Some fb];
                   wd_outpath := ["out"]; wd_Metric := [0%Q; 1%Q];
                   wd_faff := [None; None] |} |}.

(** The collaborators of [proc.py]. *)
Definition demo_psvc : proc_services qfloat :=
  {| get_bbox := fun _ => [[0%Q; 0%Q; 0%Q]; [1%Q; 1%Q; 1%Q]];
     voxsize := fun _ => [2%Q; 2%Q; 2%Q];
     linalg_inv := fun o => match o with
                            | PyMatrix m => Ok m
                            | _ => Raise (TypeError "not a matrix")
                            end;
     nii_ugzip := fun f out => pjoin out (split_dot_head (basename f) +:+ ".nii");
     normw_spm := fun _ flist _ _ out => map (fun f => pjoin out ("w" +:+ basename f)) flist;
     resample_spm_aff := fun _ flo _ out fcomment => pjoin out (basename flo +:+ fcomment);
     get_atlas := fun s _ => Ok ["atlases"; s +:+ ".nii.gz"];
     timing_dyn := fun _ => Ok (PyDict [("niftypad", PyNone)]) |}.

(** A centiloid dictionary with the entries [atl2pet] reads. *)
Definition demo_cldct : list (string * pyobj) :=
  [ ("norm", PyDict [("invdef", PyPathV ["cl"; "iy_mr.nii"]);
                     ("c1", PyPathV ["cl"; "c1mr.nii"])]);
    ("reg2", PyDict [("affine", PyMatrix [[1%Q]])]) ].

(** A configuration with [frame_min_dur] 0. *)
Definition demo_cfg_zero : align_config :=
  {| reg_fwhm := 8%Q; reg_thrshld := 1%Q; reg_costfun := "nmi";
     frame_min_dur := 0; reg_metric := "rss"; decay_corr := false |}.

End DemoWide.

(** * Facts about the grouping of frames *)

Module MashFacts.
Import Mash.

Lemma py_where_find_idx_gen {A} (p : A -> bool) (l : list A) k :
  List.filter (fun j => nth (j - k) (map p l) false) (seq k (length l)) = find_idx p k l.
Proof.
  revert k. induction l as [|x l IH]; intros k; [reflexivity|].
  cbn [length seq map find_idx List.filter]. rewrite Nat.sub_diag. cbn [nth].
  assert (E : List.filter (fun j => nth (j - k) (p x :: map p l) false) (seq (S k) (length l))
            = find_idx p (S k) l).
  { rewrite <- IH. apply List.filter_ext_in. intros j Hj. apply in_seq in Hj.
    replace (j - k)%nat with (S (j - S k)) by lia. reflexivity. }
  cbn [nth] in E. rewrite E. reflexivity.
Qed.

Lemma py_where_find_idx {A} (p : A -> bool) (l : list A) :
  py_where (map p l) (length l) = find_idx p 0 l.
Proof.
  unfold py_where. rewrite <- py_where_find_idx_gen.
  apply List.filter_ext. intros j. now rewrite Nat.sub_0_r.
Qed.

Lemma find_idx_length {A} (p : A -> bool) k l : length (find_idx p k l) = cnt p l.
Proof.
  revert k. unfold cnt. induction l as [|x l IH]; intros k; simpl; [reflexivity|].
  destruct (p x); simpl; now rewrite IH.
Qed.

Lemma find_idx_ext {A} (p q : A -> bool) k l :
  (forall x, In x l -> p x = q x) -> find_idx p k l = find_idx q k l.
Proof.
  revert k. induction l as [|x l IH]; intros k H; simpl; [reflexivity|].
  rewrite (H x) by (left; reflexivity).
  rewrite (IH (S k)) by (intros; apply H; now right). reflexivity.
Qed.

Lemma find_idx_none {A} (p : A -> bool) k l :
  (forall x, In x l -> p x = false) -> find_idx p k l = [].
Proof.
  revert k. induction l as [|x l IH]; intros k H; simpl; [reflexivity|].
  rewrite (H x) by (left; reflexivity). apply IH. intros; apply H; now right.
Qed.

Lemma find_idx_all {A} (p : A -> bool) k l :
  (forall x, In x l -> p x = true) -> find_idx p k l = seq k (length l).
Proof.
  revert k. induction l as [|x l IH]; intros k H; simpl; [reflexivity|].
  rewrite (H x) by (left; reflexivity). f_equal. apply IH. intros; apply H; now right.
Qed.

Lemma chronological_stop_lb t0 ts :
  chronological t0 ts -> forall x, In x ts -> t0 <= fst x /\ fst x <= snd x.
Proof.
  revert t0. induction ts as [|t ts IH]; intros t0 H x Hx; simpl in *; [contradiction|].
  destruct H as (H1 & H2 & H3). destruct Hx as [<-|Hx]; [lia|].
  specialize (IH _ H3 x Hx). lia.
Qed.

Lemma win_spec a b t : Bool.reflect (a < snd t <= b) (win a b t).
Proof.
  apply Bool.iff_reflect. unfold win.
  rewrite Bool.andb_true_iff, Z.leb_le, Z.ltb_lt. lia.
Qed.

Lemma windows_adjacent t0 ts a b c k :
  chronological t0 ts -> a <= b -> b <= c ->
  find_idx (win a b) k ts ++ find_idx (win b c) k ts = find_idx (win a c) k ts.
Proof.
  revert t0 k. induction ts as [|t ts IH]; intros t0 k H Hab Hbc; simpl; [reflexivity|].
  destruct H as (H1 & H2 & H3). pose proof (chronological_stop_lb _ _ H3) as Hlb.
  destruct (win_spec a b t), (win_spec b c t), (win_spec a c t); try lia.
  - simpl. f_equal. eapply IH; eauto.
  - rewrite (find_idx_none (win a b)).
    + simpl. f_equal. apply find_idx_ext. intros x Hx. specialize (Hlb x Hx).
      destruct (win_spec b c x), (win_spec a c x); try lia; reflexivity.
    + intros x Hx. specialize (Hlb x Hx).
      destruct (win_spec a b x); [lia|reflexivity].
  - eapply IH; eauto.
Qed.

Lemma windows_concat L t0 ts n :
  0 <= L -> chronological t0 ts ->
  concat (map (fun i => find_idx (win (Z.of_nat i * L) ((Z.of_nat i + 1) * L)) 0 ts) (seq 0 n))
  = find_idx (win 0 (Z.of_nat n * L)) 0 ts.
Proof.
  intros HL Hc. induction n as [|n IH].
  - simpl. symmetry. apply find_idx_none. intros x _.
    destruct (win_spec 0 (Z.of_nat 0 * L) x); [lia|reflexivity].
  - rewrite seq_S, map_app, concat_app, IH. simpl. rewrite app_nil_r.
    replace (Z.of_nat n + 1) with (Z.of_nat (S n)) by lia.
    eapply windows_adjacent; eauto; nia.
Qed.

Lemma prefix_split t0 ts T k :
  chronological t0 ts ->
  find_idx (fun t => snd t <=? T) k ts ++ find_idx (fun t => negb (snd t <=? T)) k ts
  = seq k (length ts).
Proof.
  revert t0 k. induction ts as [|t ts IH]; intros t0 k H; simpl; [reflexivity|].
  destruct H as (H1 & H2 & H3). pose proof (chronological_stop_lb _ _ H3) as Hlb.
  destruct (Z.leb_spec (snd t) T); simpl.
  - f_equal. eapply IH; eauto.
  - rewrite find_idx_none, find_idx_all; [reflexivity| |].
    + intros x Hx. specialize (Hlb x Hx). destruct (Z.leb_spec (snd x) T); [lia|reflexivity].
    + intros x Hx. specialize (Hlb x Hx). destruct (Z.leb_spec (snd x) T); [lia|reflexivity].
Qed.

Lemma cnt_sm_balance (a s : Z * Z -> bool) l :
  (cnt a l + cnt (fun x => s x && negb (a x)) l = cnt s l + cnt (fun x => a x && negb (s x)) l)%nat
  /\ sm a l + sm (fun x => s x && negb (a x)) l = sm s l + sm (fun x => a x && negb (s x)) l.
Proof.
  unfold cnt. induction l as [|x l [IH1 IH2]]; simpl; [split; reflexivity|].
  destruct (a x), (s x); simpl; split; lia.
Qed.

Lemma sm_long_lb L a l :
  L * Z.of_nat (cnt (fun x => a x && negb (short L x)) l)
  <= sm (fun x => a x && negb (short L x)) l.
Proof.
  unfold cnt, short. induction l as [|x l IH]; simpl; [lia|].
  destruct (a x), (Z.ltb_spec (snd x - fst x) L); simpl in *; lia.
Qed.

Lemma sm_short_ub L a l :
  sm (fun x => short L x && negb (a x)) l
  <= (L - 1) * Z.of_nat (cnt (fun x => short L x && negb (a x)) l).
Proof.
  unfold cnt, short. induction l as [|x l IH]; simpl; [lia|].
  destruct (a x), (Z.ltb_spec (snd x - fst x) L); simpl in *; lia.
Qed.

Lemma sm_window_ub t0 ts a T :
  chronological t0 ts -> sm (win a T) ts <= Z.max 0 (T - t0).
Proof.
  revert t0. induction ts as [|t ts IH]; intros t0 H; simpl; [lia|].
  destruct H as (H1 & H2 & H3). specialize (IH _ H3).
  destruct (win_spec a T t); lia.
Qed.

Lemma sm_nonneg t0 ts p : chronological t0 ts -> 0 <= sm p ts.
Proof.
  revert t0. induction ts as [|t ts IH]; intros t0 H; simpl; [lia|].
  destruct H as (H1 & H2 & H3). specialize (IH _ H3). destruct (p t); lia.
Qed.

Lemma cnt_zero {A} (p : A -> bool) l : cnt p l = 0%nat -> forall x, In x l -> p x = false.
Proof.
  unfold cnt. induction l as [|y l IH]; simpl; intros H x Hx; [contradiction|].
  destruct (p y) eqn:E; simpl in H; [discriminate|].
  destruct Hx as [<-|Hx]; auto.
Qed.

Lemma window_is_short L ts N :
  0 < L -> chronological 0 ts -> N = sm (short L) ts / L ->
  cnt (win 0 (N * L)) ts = cnt (short L) ts ->
  forall x, In x ts -> win 0 (N * L) x = short L x.
Proof.
  intros HL Hc HN Hcnt.
  destruct (cnt_sm_balance (win 0 (N * L)) (short L) ts) as [B1 B2].
  pose proof (sm_long_lb L (win 0 (N * L)) ts) as LB.
  pose proof (sm_short_ub L (win 0 (N * L)) ts) as UB.
  pose proof (sm_window_ub 0 ts 0 (N * L) Hc) as WB.
  pose proof (sm_nonneg 0 ts (short L) Hc) as NN.
  assert (HN0 : 0 <= N) by (subst N; apply Z.div_pos; lia).
  assert (HNL : N * L <= sm (short L) ts).
  { subst N. rewrite Z.mul_comm. apply Z.mul_div_le. lia. }
  set (k1 := cnt (fun x => win 0 (N * L) x && negb (short L x)) ts) in *.
  set (k2 := cnt (fun x => short L x && negb (win 0 (N * L) x)) ts) in *.
  assert (k1 = k2) by lia.
  assert (k1 = 0%nat) by nia.
  intros x Hx.
  pose proof (cnt_zero _ _ H0 x Hx) as E1.
  assert (k2 = 0%nat) as H2 by lia.
  pose proof (cnt_zero _ _ H2 x Hx) as E2. simpl in *.
  destruct (win 0 (N * L) x), (short L x); simpl in *; congruence.
Qed.

(* connecting the loops to closed forms *)
Lemma window_mask_win L ts i :
  window_mask L ts i = map (win (Z.of_nat i * L) ((Z.of_nat i + 1) * L)) ts.
Proof. reflexivity. Qed.

Lemma short_frames_short L ts :
  short_frames L (frame_durations ts) = map (short L) ts.
Proof. unfold short_frames, frame_durations. now rewrite map_map. Qed.

Lemma sum_masked_sm L ts :
  sum_masked (frame_durations ts) (map (short L) ts) = sm (short L) ts.
Proof. induction ts as [|t ts IH]; simpl; [reflexivity|]. now rewrite IH. Qed.

Lemma count_true_cnt {A} (p : A -> bool) l : count_true (map p l) = cnt p l.
Proof.
  unfold count_true, cnt. induction l as [|x l IH]; simpl; [reflexivity|].
  destruct (p x); simpl; now rewrite IH.
Qed.

Lemma mash_loop L ts l m0 c0 :
  fold_left (mash_step L (length ts) ts) l (m0, c0) =
  (m0 ++ map (fun i => find_idx (win (Z.of_nat i * L) ((Z.of_nat i + 1) * L)) 0 ts) l,
   (c0 + length (concat (map (fun i => find_idx (win (Z.of_nat i * L) ((Z.of_nat i + 1) * L)) 0 ts) l)))%nat).
Proof.
  revert m0 c0. induction l as [|i l IH]; intros m0 c0; simpl.
  - now rewrite app_nil_r, Nat.add_0_r.
  - unfold mash_step at 2. simpl. rewrite IH, window_mask_win, py_where_find_idx.
    rewrite <- app_assoc, length_app. simpl. f_equal. lia.
Qed.

Lemma single_loop bl k m0 c0 :
  fold_left single_step (combine (seq k (length bl)) bl) (m0, c0) =
  (m0 ++ map (fun i => [i]) (find_idx (fun b : bool => b) k bl),
   (c0 + cnt (fun b : bool => b) bl)%nat).
Proof.
  revert k m0 c0. unfold cnt. induction bl as [|b bl IH]; intros k m0 c0; simpl.
  - now rewrite app_nil_r, Nat.add_0_r.
  - destruct b; unfold single_step at 2; simpl; rewrite IH.
    + rewrite <- app_assoc. simpl. f_equal. lia.
    + reflexivity.
Qed.

Lemma find_idx_map {A B} (f : A -> B) (p : B -> bool) k l :
  find_idx p k (map f l) = find_idx (fun x => p (f x)) k l.
Proof.
  revert k. induction l as [|x l IH]; intros k; simpl; [reflexivity|]. now rewrite IH.
Qed.

Lemma concat_singletons {A} (l : list A) : concat (map (fun i => [i]) l) = l.
Proof. induction l as [|x l IH]; simpl; [reflexivity|]. now rewrite IH. Qed.

Lemma cnt_map {A B} (f : A -> B) (p : B -> bool) l :
  cnt p (map f l) = cnt (fun x => p (f x)) l.
Proof.
  unfold cnt. induction l as [|x l IH]; simpl; [reflexivity|].
  destruct (p (f x)); simpl; now rewrite IH.
Qed.

Lemma cnt_negb {A} (p : A -> bool) l :
  (cnt p l + cnt (fun x => negb (p x)) l = length l)%nat.
Proof.
  unfold cnt. induction l as [|x l IH]; simpl; [reflexivity|].
  destruct (p x); simpl; lia.
Qed.

Lemma mash_frames_unfold L ts :
  L <> 0 ->
  mash_frames L (length ts) ts =
  let N := Z.to_nat (sm (short L) ts / L) in
  let W := map (fun i => find_idx (win (Z.of_nat i * L) ((Z.of_nat i + 1) * L)) 0 ts) (seq 0 N) in
  if negb (length (concat W) =? cnt (short L) ts)%nat then Raise (ValueError msg_mash1)
  else Ok (W ++ map (fun j => [j]) (find_idx (fun t => negb (short L t)) 0 ts)).
Proof.
  intros HL. unfold mash_frames, number_of_sets, enumerate.
  rewrite short_frames_short, sum_masked_sm, count_true_cnt.
  destruct (Z.eqb_spec L 0) as [|_]; [contradiction|].
  rewrite mash_loop. cbn [fst snd app Nat.add]. cbv zeta.
  destruct (Nat.eqb_spec (length (concat (map (fun i => find_idx (win (Z.of_nat i * L) ((Z.of_nat i + 1) * L)) 0 ts)
               (seq 0 (Z.to_nat (sm (short L) ts / L)))))) (cnt (short L) ts)) as [E|E];
    cbn [negb]; [|reflexivity].
  rewrite single_loop. cbn [fst snd].
  rewrite E, !cnt_map, !find_idx_map, cnt_negb, Nat.eqb_refl. reflexivity.
Qed.

Lemma concat_NoDup_group (groups : list (list nat)) g g' grp grp' i :
  NoDup (concat groups) ->
  groups !! g = Some grp -> groups !! g' = Some grp' ->
  In i grp -> In i grp' -> g = g'.
Proof.
  revert g g'. induction groups as [|h groups IH]; intros g g' ND Hg Hg' Hi Hi'.
  - discriminate.
  - simpl in ND. pose proof (proj1 (list.NoDup_app _ _) ND) as (ND1 & ND2 & ND3).
    assert (Hx : forall k grp0, groups !! k = Some grp0 -> In i grp0 -> In i h -> False).
    { intros k grp0 Hk H0 Hh. apply (ND2 i).
      - now apply list_elem_of_In.
      - apply list_elem_of_In, in_concat. exists grp0. split; [|assumption].
        apply list_elem_of_In. eapply list_elem_of_lookup_2; eauto. }
    destruct g as [|g], g' as [|g']; simpl in Hg, Hg'.
    + reflexivity.
    + injection Hg as <-. exfalso; eauto.
    + injection Hg' as <-. exfalso; eauto.
    + f_equal. eapply IH; eauto.
Qed.

Lemma concat_seq_partition groups n : concat groups = seq 0 n -> partition_of groups n.
Proof.
  intros E. pose proof (List.seq_NoDup n 0) as ND. rewrite <- E in ND.
  apply NoDup_ListNoDup in ND.
  assert (Hin : forall i, In i (concat groups) <-> (i < n)%nat).
  { intros i. rewrite E, in_seq. lia. }
  clear E. repeat split.
  - intros i Hi. apply Hin, in_concat in Hi as (grp & Hg & Hi).
    apply list_elem_of_In, list_elem_of_lookup_1 in Hg as (g & Hg).
    exists g, grp. repeat split; auto.
    intros g' grp' Hg' Hi'. eapply concat_NoDup_group; eauto.
  - intros grp i Hg Hi. apply Hin. apply in_concat. eauto.
  - intros grp Hg. clear Hin. induction groups as [|g groups IH]; simpl in *; [contradiction|].
    pose proof (proj1 (list.NoDup_app _ _) ND) as (ND1 & ND2 & ND3).
    destruct Hg as [->|Hg]; auto. now apply NoDup_ListNoDup.
Qed.

Lemma mash_frames_chronological L ts mfrms :
  chronological 0 ts -> mash_frames L (length ts) ts = Ok mfrms ->
  mfrms = spec_grouping L ts /\ concat mfrms = seq 0 (length ts).
Proof.
  intros Hc H.
  destruct (Z.eq_dec L 0) as [->|HL].
  { unfold mash_frames, number_of_sets in H. simpl in H.
    destruct (_ =? 0); discriminate. }
  rewrite mash_frames_unfold in H by assumption. cbv zeta in H.
  destruct (Nat.eqb_spec (length (concat (map (fun i => find_idx (win (Z.of_nat i * L) ((Z.of_nat i + 1) * L)) 0 ts)
               (seq 0 (Z.to_nat (sm (short L) ts / L)))))) (cnt (short L) ts)) as [E|E];
    cbn [negb] in H; [|discriminate].
  injection H as <-.
  destruct (Z.lt_ge_cases 0 L) as [Hpos|Hneg].
  - (* positive minimal duration *)
    rewrite (windows_concat L 0 ts) in E by (auto; lia).
    rewrite find_idx_length in E.
    pose proof (sm_nonneg 0 ts (short L) Hc) as NN.
    rewrite Z2Nat.id in E by (apply Z.div_pos; lia).
    pose proof (window_is_short L ts _ Hpos Hc eq_refl E) as WS.
    split.
    + unfold spec_grouping. f_equal. apply map_ext_in. intros w Hw.
      apply find_idx_ext. intros x Hx. specialize (WS x Hx).
      destruct (win_spec (Z.of_nat w * L) ((Z.of_nat w + 1) * L) x) as [Hwin|Hwin];
        [|now rewrite Bool.andb_false_r].
      rewrite Bool.andb_true_r. rewrite <- WS. symmetry.
      apply in_seq in Hw.
      destruct (win_spec 0 (sm (short L) ts / L * L) x) as [|Hn]; [reflexivity|].
      exfalso. apply Hn. split; [nia|].
      assert (Z.of_nat w + 1 <= sm (short L) ts / L) by lia. nia.
    + rewrite concat_app, concat_singletons.
      rewrite (windows_concat L 0 ts) by (auto; lia).
      rewrite Z2Nat.id by (apply Z.div_pos; lia).
      set (T := sm (short L) ts / L * L) in *.
      assert (HT : forall x, In x ts -> win 0 T x = (snd x <=? T)).
      { intros x Hx. pose proof (WS x Hx) as W1.
        pose proof (chronological_stop_lb _ _ Hc x Hx) as B.
        destruct (win_spec 0 T x), (Z.leb_spec (snd x) T); try lia; try reflexivity.
        exfalso. unfold short in W1. destruct (Z.ltb_spec (snd x - fst x) L); [discriminate|lia]. }
      rewrite (find_idx_ext (win 0 T) (fun t => snd t <=? T)) by assumption.
      rewrite (find_idx_ext (fun t => negb (short L t)) (fun t => negb (snd t <=? T))).
      * eapply prefix_split; eauto.
      * intros x Hx. rewrite <- HT, WS by assumption. reflexivity.
  - (* negative minimal duration: no frame is short *)
    assert (NS : forall x, In x ts -> short L x = false).
    { intros x Hx. pose proof (chronological_stop_lb _ _ Hc x Hx) as B.
      unfold short. destruct (Z.ltb_spec (snd x - fst x) L); [lia|reflexivity]. }
    assert (S0 : sm (short L) ts = 0).
    { clear -NS. induction ts as [|t ts IH]; simpl; [reflexivity|].
      rewrite (NS t) by (now left). rewrite IH; [reflexivity|]. intros; apply NS; now right. }
    split.
    + unfold spec_grouping. rewrite S0. reflexivity.
    + rewrite S0. simpl. rewrite concat_singletons.
      apply find_idx_all. intros x Hx. now rewrite NS.
Qed.

(** Frames in any order *)

Lemma cnt_Permutation {A} (p : A -> bool) l l' : Permutation l l' -> cnt p l = cnt p l'.
Proof.
  unfold cnt. induction 1; simpl; try congruence.
  - destruct (p x); simpl; congruence.
  - destruct (p x), (p y); reflexivity.
Qed.

Lemma sm_Permutation p l l' : Permutation l l' -> sm p l = sm p l'.
Proof. induction 1; simpl; lia. Qed.

Lemma find_idx_union {A} (p q : A -> bool) k l :
  (forall x, In x l -> p x && q x = false) ->
  Permutation (find_idx p k l ++ find_idx q k l) (find_idx (fun x => p x || q x) k l).
Proof.
  revert k. induction l as [|x l IH]; intros k Hd; simpl; [constructor|].
  assert (IH' := IH (S k) (fun y Hy => Hd y (or_intror Hy))).
  pose proof (Hd x (or_introl eq_refl)) as Hx.
  destruct (p x), (q x); simpl in *; try discriminate.
  - now constructor.
  - rewrite <- Permutation_middle. now constructor.
  - assumption.
Qed.

Lemma windows_concat_perm L ts n :
  0 <= L ->
  Permutation
    (concat (map (fun i => find_idx (win (Z.of_nat i * L) ((Z.of_nat i + 1) * L)) 0 ts) (seq 0 n)))
    (find_idx (win 0 (Z.of_nat n * L)) 0 ts).
Proof.
  intros HL. induction n as [|n IH].
  - simpl. rewrite find_idx_none; [constructor|]. intros x _.
    destruct (win_spec 0 (Z.of_nat 0 * L) x); [lia|reflexivity].
  - rewrite seq_S, map_app, concat_app. simpl. rewrite app_nil_r, IH.
    rewrite find_idx_union.
    + erewrite find_idx_ext; [reflexivity|]. intros x _. simpl.
      destruct (win_spec 0 (Z.of_nat n * L) x),
        (win_spec (Z.of_nat n * L) ((Z.of_nat n + 1) * L) x),
        (win_spec 0 (Z.of_nat (S n) * L) x); simpl; try reflexivity; exfalso; nia.
    + intros x _.
      destruct (win_spec 0 (Z.of_nat n * L) x),
        (win_spec (Z.of_nat n * L) ((Z.of_nat n + 1) * L) x); simpl; try reflexivity; lia.
Qed.

Lemma find_idx_split {A} (p : A -> bool) k l :
  Permutation (find_idx p k l ++ find_idx (fun x => negb (p x)) k l) (seq k (length l)).
Proof.
  rewrite find_idx_union.
  - rewrite find_idx_all; [reflexivity|]. intros x _. now destruct (p x).
  - intros x _. now destruct (p x).
Qed.

Lemma concat_perm_partition groups n :
  Permutation (concat groups) (seq 0 n) -> partition_of groups n.
Proof.
  intros E. pose proof (List.seq_NoDup n 0) as ND.
  apply (Permutation_NoDup (Permutation_sym E)) in ND.
  apply NoDup_ListNoDup in ND.
  assert (Hin : forall i, In i (concat groups) <-> (i < n)%nat).
  { intros i. split; intros Hi.
    - apply (Permutation_in _ E), in_seq in Hi. lia.
    - apply (Permutation_in _ (Permutation_sym E)), in_seq. lia. }
  clear E. repeat split.
  - intros i Hi. apply Hin, in_concat in Hi as (grp & Hg & Hi).
    apply list_elem_of_In, list_elem_of_lookup_1 in Hg as (g & Hg).
    exists g, grp. repeat split; auto.
    intros g' grp' Hg' Hi'. eapply concat_NoDup_group; eauto.
  - intros grp i Hg Hi. apply Hin. apply in_concat. eauto.
  - intros grp Hg. clear Hin. induction groups as [|g groups IH]; simpl in *; [contradiction|].
    pose proof (proj1 (list.NoDup_app _ _) ND) as (ND1 & ND2 & ND3).
    destruct Hg as [->|Hg]; auto. now apply NoDup_ListNoDup.
Qed.

(** With valid times a frame is short exactly when it stops in one of
    the windows, whenever the first count check passes. *)
Lemma window_is_short_valid L ts :
  0 < L -> valid_times ts ->
  cnt (win 0 (sm (short L) ts / L * L)) ts = cnt (short L) ts ->
  forall x, In x ts -> win 0 (sm (short L) ts / L * L) x = short L x.
Proof.
  intros HL (ts' & HP & Hc) Hcnt x Hx.
  rewrite (sm_Permutation _ _ _ HP) in *.
  rewrite !(cnt_Permutation _ _ _ HP) in Hcnt.
  eapply window_is_short; eauto. eapply Permutation_in; eauto.
Qed.

Lemma valid_times_bounds ts :
  valid_times ts -> forall x, In x ts -> 0 <= fst x <= snd x.
Proof.
  intros (ts' & HP & Hc) x Hx.
  eapply chronological_stop_lb; eauto. eapply Permutation_in; eauto.
Qed.

Lemma sm_none p l : (forall x, In x l -> p x = false) -> sm p l = 0.
Proof.
  induction l as [|t l IH]; intros Hp; simpl; [reflexivity|].
  rewrite (Hp t) by (now left). rewrite IH; [reflexivity|]. intros; apply Hp; now right.
Qed.

(** The grouping stage on valid times: it returns the grouping of the
    description, which is a partition, or raises a [ValueError]. *)
Lemma mash_frames_valid L ts :
  valid_times ts ->
  match mash_frames L (length ts) ts with
  | Ok mfrms => mfrms = spec_grouping L ts /\ partition_of mfrms (length ts)
  | Raise e => exists msg, e = ValueError msg
  end.
Proof.
  intros Hv. pose proof (valid_times_bounds ts Hv) as Hb.
  destruct (Z.eq_dec L 0) as [->|HL].
  { unfold mash_frames, number_of_sets. simpl.
    destruct (_ =? 0) eqn:E; [eauto|].
    exfalso. apply Z.eqb_neq in E. apply E.
    rewrite short_frames_short, sum_masked_sm. apply sm_none.
    intros x Hx. specialize (Hb x Hx). unfold short.
    destruct (Z.ltb_spec (snd x - fst x) 0); [lia|reflexivity]. }
  rewrite mash_frames_unfold by assumption. cbv zeta.
  destruct (Nat.eqb_spec (length (concat (map (fun i => find_idx (win (Z.of_nat i * L) ((Z.of_nat i + 1) * L)) 0 ts)
               (seq 0 (Z.to_nat (sm (short L) ts / L)))))) (cnt (short L) ts)) as [E|E];
    cbn [negb]; [|eauto].
  destruct (Z.lt_ge_cases 0 L) as [Hpos|Hneg].
  - assert (NN : 0 <= sm (short L) ts).
    { destruct Hv as (ts' & HP & Hc). rewrite (sm_Permutation _ _ _ HP).
      eapply sm_nonneg; eauto. }
    assert (HN : 0 <= sm (short L) ts / L) by (apply Z.div_pos; lia).
    rewrite (Permutation_length (windows_concat_perm L ts _ (Z.lt_le_incl _ _ Hpos))) in E.
    rewrite find_idx_length, Z2Nat.id in E by assumption.
    pose proof (window_is_short_valid L ts Hpos Hv E) as WS.
    split.
    + unfold spec_grouping. f_equal. apply map_ext_in. intros w Hw.
      apply find_idx_ext. intros x Hx. specialize (WS x Hx).
      destruct (win_spec (Z.of_nat w * L) ((Z.of_nat w + 1) * L) x) as [Hwin|Hwin];
        [|now rewrite Bool.andb_false_r].
      rewrite Bool.andb_true_r. rewrite <- WS. symmetry.
      apply in_seq in Hw.
      destruct (win_spec 0 (sm (short L) ts / L * L) x) as [|Hn]; [reflexivity|].
      exfalso. apply Hn. split; [nia|].
      assert (Z.of_nat w + 1 <= sm (short L) ts / L) by lia. nia.
    + apply concat_perm_partition.
      rewrite concat_app, concat_singletons.
      rewrite (windows_concat_perm L ts) by lia.
      rewrite Z2Nat.id by assumption.
      rewrite (find_idx_ext _ (short L)) by assumption.
      apply find_idx_split.
  - assert (NS : forall x, In x ts -> short L x = false).
    { intros x Hx. specialize (Hb x Hx).
      unfold short. destruct (Z.ltb_spec (snd x - fst x) L); [lia|reflexivity]. }
    assert (S0 : sm (short L) ts = 0) by now apply sm_none.
    split.
    + unfold spec_grouping. rewrite S0. reflexivity.
    + apply concat_perm_partition. rewrite S0. simpl. rewrite concat_singletons.
      rewrite find_idx_all; [reflexivity|]. intros x Hx. now rewrite NS.
Qed.

Lemma chronological_valid ts : chronological 0 ts -> valid_times ts.
Proof. intros Hc. exists ts. split; [reflexivity|assumption]. Qed.

End MashFacts.

(** * Reasoning about computations *)

Lemma M_bind_inv {F A B} (m : M F A) (k : A -> M F B) tr b tr' :
  (m ≫= k) tr = (Ok b, tr') ->
  exists a tr1, m tr = (Ok a, tr1) /\ k a tr1 = (Ok b, tr').
Proof.
  unfold mbind, M_bind. destruct (m tr) as [[a|e] tr1]; intros E; [eauto|discriminate].
Qed.

Lemma lift_inv {F A} (r : result A) (tr : list (event F)) a tr' :
  lift r tr = (Ok a, tr') -> r = Ok a /\ tr' = tr.
Proof. unfold lift. intros E. injection E as -> ->. auto. Qed.

Lemma emit_inv {F} (ev : event F) tr u tr' :
  emit ev tr = (Ok u, tr') -> tr' = tr ++ [ev].
Proof. unfold emit. intros E. now injection E as _ <-. Qed.

Lemma mret_inv {F A} (a b : A) (tr tr' : list (event F)) :
  mret (M := M F) a tr = (Ok b, tr') -> a = b /\ tr' = tr.
Proof. unfold mret, M_ret. intros E. injection E as -> ->. auto. Qed.

Lemma result_bind_inv {A B} (r : result A) (k : A -> result B) b :
  r ≫= k = Ok b -> exists a, r = Ok a /\ k a = Ok b.
Proof. destruct r as [a|e]; simpl; intros E; [eauto|discriminate]. Qed.

Ltac inv_M H :=
  match type of H with
  | (_ ≫= _) _ = (Ok _, _) =>
      let a := fresh "a" in let tr := fresh "tr" in
      let H1 := fresh "H" in let H2 := fresh "H" in
      apply M_bind_inv in H as (a & tr & H1 & H2); inv_M H1; inv_M H2
  | lift _ _ = (Ok _, _) =>
      let H1 := fresh "H" in let H2 := fresh "H" in
      apply lift_inv in H as (H1 & H2); try subst
  | emit _ _ = (Ok _, _) => apply emit_inv in H; try subst
  | mret _ _ = (Ok _, _) =>
      let H1 := fresh "H" in let H2 := fresh "H" in
      apply mret_inv in H as (H1 & H2); try subst
  | _ => idtac
  end.

Section AlignFacts.

Context {F : Type} `{FloatOps F}.
Variable svc : services F.

(** A call of [align_frames] that returns has passed the validation of
    the times and the grouping stage, and hands back its groups. *)
Lemma align_frames_stages fniis times fref Cnt reg_tool save4d f4d outpath tr out tr' :
  align_frames svc fniis times fref Cnt reg_tool save4d f4d outpath tr = (Ok out, tr') ->
  exists ts, frame_times (length fniis) times = Ok ts /\
    Mash.mash_frames (frame_min_dur Cnt) (length fniis) ts = Ok (mashed_frame_idx out).
Proof.
  unfold align_frames. intros E.
  apply M_bind_inv in E as (? & tr1 & E1 & E).
  apply M_bind_inv in E as (m' & tr2 & E2 & E).
  apply M_bind_inv in E as (ts & tr3 & E3 & E). inv_M E3.
  apply M_bind_inv in E as (opth & tr4 & E4 & E).
  apply M_bind_inv in E as (? & tr5 & E5 & E).
  apply M_bind_inv in E as (? & tr6 & E6 & E).
  apply M_bind_inv in E as (mfrms & tr7 & E7 & E). inv_M E7.
  apply M_bind_inv in E as (mfrms_out & tr8 & E8 & E).
  apply M_bind_inv in E as (? & tr9 & E9 & E).
  apply M_bind_inv in E as (st & tr10 & E10 & E).
  exists ts. split; [assumption|].
  destruct save4d.
  - apply M_bind_inv in E as (niia & tr11 & E11 & E). inv_M E. assumption.
  - inv_M E. assumption.
Qed.

End AlignFacts.

Lemma Qgtb_lt x y : Qgtb x y = true <-> (y < x)%Q.
Proof.
  unfold Qgtb. rewrite Bool.negb_true_iff, <- Bool.not_true_iff_false, Qle_bool_iff.
  split; [apply Qnot_le_lt|apply Qlt_not_le].
Qed.

Lemma motion_exceeds_spec m thr r d :
  In m reg_metric_list ->
  motion_exceeds m thr r d = true <-> (thr < metric_value m r d)%Q.
Proof.
  unfold motion_exceeds, metric_value, reg_metric_list.
  intros [<-|[<-|[]]]; simpl;
    rewrite ?Bool.andb_true_r, ?Bool.andb_false_r, ?Bool.orb_false_r, ?Bool.orb_false_l;
    apply Qgtb_lt.
Qed.

Lemma effective_metric_valid reg_tool m :
  In m reg_metric_list -> In (effective_metric reg_tool m) reg_metric_list.
Proof.
  unfold effective_metric. intros Hm.
  destruct ((reg_tool =? "dipy")%string && (m =? "rss")%string); [right; now left|assumption].
Qed.

Lemma switch_metric_run {F} reg_tool m (tr : list (event F)) :
  exists w, switch_metric reg_tool m tr = (Ok (effective_metric reg_tool m), tr ++ w)
            /\ Forall (fun ev => is_warning ev = true) w.
Proof.
  unfold switch_metric, effective_metric.
  destruct (reg_tool =? "dipy")%string, (m =? "rss")%string; simpl;
    try (exists []; rewrite app_nil_r; split; [reflexivity|constructor]).
  eexists [_]. split; [reflexivity|]. repeat constructor.
Qed.

Lemma check_reg_metric_spec m :
  (check_reg_metric m = Raise (ValueError msg_metric) <-> ~ In m reg_metric_list)
  /\ (In m reg_metric_list -> check_reg_metric m = Ok tt).
Proof.
  unfold check_reg_metric.
  destruct (existsb (String.eqb m) reg_metric_list) eqn:E; simpl.
  - apply existsb_exists in E as (x & Hx & E). apply String.eqb_eq in E as <-.
    split; [split; [discriminate|contradiction]|reflexivity].
  - assert (N : ~ In m reg_metric_list).
    { intros Hm. apply Bool.not_true_iff_false in E. apply E.
      apply existsb_exists. exists m. split; [assumption|apply String.eqb_refl]. }
    split; [split; auto|contradiction].
Qed.

Section DecisionFacts.

Context {F : Type} `{FloatOps F}.
Variable svc : services F.

Lemma get_item_Some {A} (l : list A) i x : l !! i = Some x -> get_item l i = Ok x.
Proof. unfold get_item. now intros ->. Qed.

Lemma set_item_lt {A} (l : list A) i x : (i < length l)%nat -> set_item l i x = Ok (<[i := x]> l).
Proof. unfold set_item. intros Hi. destruct (decide _); [reflexivity|contradiction]. Qed.

Lemma resample_call_not_copy reg_tool fref flo aff outdir src dst :
  fst (resample_call svc reg_tool fref flo aff outdir) <> EvCopyFile src dst.
Proof. unfold resample_call. destruct (_ =? _)%string; discriminate. Qed.

(** The decision of [align_frames] for one frame. *)
Lemma align_one_decision fniis fref reg_tool m thr rsmpl_opth mi st i tr fn rt r d aff :
  reg_tool = "spm" \/ reg_tool = "dipy" ->
  In m reg_metric_list ->
  fniis !! i = Some fn ->
  st_RT st !! mi = Some rt -> st_R st !! mi = Some r -> st_D st !! mi = Some d ->
  st_S st !! mi = Some aff ->
  (i < length (st_RTf st))%nat -> (st_fi st < length (st_faligned st))%nat ->
  let m' := effective_metric reg_tool m in
  let call := resample_call svc reg_tool fref fn aff rsmpl_opth in
  let dst := pjoin rsmpl_opth (basename fn) in
  exists st' ev,
    align_one svc fniis fref reg_tool m' thr rsmpl_opth mi st i tr = (Ok st', tr ++ [ev])
    /\ (ev = fst call <-> (thr < metric_value m' r d)%Q)
    /\ ((thr < metric_value m' r d)%Q ->
        st_faligned st' !! st_fi st = Some (Some (snd call)))
    /\ (~ (thr < metric_value m' r d)%Q ->
        ev = EvCopyFile fn dst /\ st_faligned st' !! st_fi st = Some (Some dst)).
Proof.
  intros Htool Hm Hfn Hrt Hr Hd Haff Hi Hfi m' call dst.
  pose proof (motion_exceeds_spec m' thr r d (effective_metric_valid reg_tool m Hm)) as Hex.
  unfold align_one, mbind, M_bind, lift, emit, mret, M_ret.
  rewrite (get_item_Some _ _ _ Hrt), (set_item_lt _ _ _ Hi),
    (get_item_Some _ _ _ Hr), (get_item_Some _ _ _ Hd).
  fold m'. destruct (motion_exceeds m' thr r d) eqn:E.
  - assert (Hlt : (thr < metric_value m' r d)%Q) by now apply Hex.
    subst call. unfold resample_call.
    destruct Htool as [-> | ->]; simpl;
      rewrite (get_item_Some _ _ _ Hfn), (get_item_Some _ _ _ Haff), (set_item_lt _ _ _ Hfi);
      (eexists _, _; split; [reflexivity|]; simpl;
       split; [tauto|split; [intros _; now rewrite list_lookup_insert_eq|tauto]]).
  - assert (Hnlt : ~ (thr < metric_value m' r d)%Q).
    { intros Hlt. apply Hex in Hlt. congruence. }
    rewrite (get_item_Some _ _ _ Hfn), (set_item_lt _ _ _ Hfi).
    eexists _, (EvCopyFile fn dst). split; [reflexivity|]. split; [|split; [tauto|]].
    + split; [|tauto]. intros E'. symmetry in E'.
      exfalso. eapply resample_call_not_copy; eauto.
    + intros _. split; [reflexivity|]. simpl. now rewrite list_lookup_insert_eq.
Qed.

End DecisionFacts.

Section SuvrDecisionFacts.

Context {F : Type} `{FloatOps F}.
Variable svc : services F.

Lemma read_nii_Some p n : getnii svc p = Some n -> read_nii svc (Some p) = Ok n.
Proof. unfold read_nii. now intros ->. Qed.

Lemma stack_set_ok (s : stack F) i (a : ndarray F) :
  shape a = frame_shape s -> (i < length (frames s))%nat ->
  stack_set s i a = Ok {| frame_shape := frame_shape s; frames := <[i := data a]> (frames s) |}.
Proof.
  intros Hs Hi. unfold stack_set. rewrite bool_decide_eq_true_2 by assumption. simpl.
  now rewrite set_item_lt.
Qed.

(** The decision of [align_suvr] for one frame other than the reference. *)
Lemma align_suvr_frame_decision reg_tool m thr rsmpl_opth nii_frms R D S rfrm st ifrm tr
    fref fflo r d aff im_r im_o :
  reg_tool = "spm" \/ reg_tool = "dipy" ->
  In m reg_metric_list ->
  ifrm <> rfrm ->
  nii_frms !! rfrm = Some fref -> nii_frms !! ifrm = Some fflo ->
  get_item2 R rfrm ifrm = Ok r -> get_item2 D rfrm ifrm = Ok d ->
  get_item2 S rfrm ifrm = Ok aff ->
  let m' := effective_metric reg_tool m in
  let call := resample_call svc reg_tool fref fflo aff rsmpl_opth in
  getnii svc (snd call) = Some im_r -> shape (nii_im im_r) = frame_shape (ss_niiim st) ->
  getnii svc fflo = Some im_o -> shape (nii_im im_o) = frame_shape (ss_niiim st) ->
  (ifrm < length (frames (ss_niiim st)))%nat ->
  exists st' tr',
    align_suvr_frame svc reg_tool m' thr rsmpl_opth nii_frms R D S rfrm st ifrm tr = (Ok st', tr')
    /\ (tr' = tr ++ [fst call] <-> (thr < metric_value m' r d)%Q)
    /\ ((thr < metric_value m' r d)%Q ->
        ss_fnii_aligned st' = ss_fnii_aligned st ++ [snd call])
    /\ (~ (thr < metric_value m' r d)%Q ->
        tr' = tr /\ ss_fnii_aligned st' = ss_fnii_aligned st ++ [fflo]).
Proof.
  intros Htool Hm Hne Hfref Hfflo Hr Hd Haff m' call Hir Hsr Hio Hso Hlen.
  pose proof (motion_exceeds_spec m' thr r d (effective_metric_valid reg_tool m Hm)) as Hex.
  unfold align_suvr_frame.
  destruct (Nat.eqb_spec ifrm rfrm) as [|_]; [contradiction|].
  unfold mbind, M_bind, lift, emit, mret, M_ret.
  rewrite Hr, Hd. fold m'. destruct (motion_exceeds m' thr r d) eqn:E.
  - assert (Hlt : (thr < metric_value m' r d)%Q) by now apply Hex.
    subst call. unfold resample_call in *.
    destruct Htool as [-> | ->]; cbn -[read_nii stack_set get_item get_item2] in *;
      rewrite (get_item_Some _ _ _ Hfref), (get_item_Some _ _ _ Hfflo), Haff,
        (read_nii_Some _ _ Hir), (stack_set_ok _ _ _ Hsr Hlen);
      (eexists _, _; split; [reflexivity|]; simpl; split; [tauto|split; [tauto|tauto]]).
  - assert (Hnlt : ~ (thr < metric_value m' r d)%Q).
    { intros Hlt. apply Hex in Hlt. congruence. }
    rewrite (get_item_Some _ _ _ Hfflo), (read_nii_Some _ _ Hio), (stack_set_ok _ _ _ Hso Hlen).
    eexists _, _. split; [reflexivity|]. simpl. split; [|split; [tauto|auto]].
    split; [|tauto]. intros E'. exfalso.
    apply (f_equal length) in E'. rewrite length_app in E'. simpl in E'. lia.
Qed.

End SuvrDecisionFacts.

(** * Validation of the frame times *)

Lemma mapM_row_times rows :
  Forall (fun r => (2 <= length r)%nat) rows ->
  exists ts, mapM row_times rows = Ok ts /\ length ts = length rows.
Proof.
  induction 1 as [|r rows Hr _ (ts & E & Hl)]; simpl.
  - exists []. split; reflexivity.
  - destruct r as [|t0 [|t1 r]]; simpl in Hr; try lia.
    simpl. rewrite E. simpl. eexists. split; [reflexivity|]. simpl. now rewrite Hl.
Qed.

Lemma frame_times_invalid nfrm times :
  times_ndim times = None
  \/ (exists d, times_ndim times = Some d /\ d <> 2%nat)
  \/ (exists rows, times = Times2D rows /\ Forall (fun r => (2 <= length r)%nat) rows
                   /\ length rows <> nfrm) ->
  exists msg, frame_times nfrm times = Raise (ValueError msg).
Proof.
  intros [Hn|[(d & Hd & Hne)|(rows & -> & Hrows & Hlen)]].
  - destruct times; try discriminate. simpl. eauto.
  - destruct times; simpl in *; eauto. injection Hd as <-. contradiction.
  - simpl. destruct (rectangular rows); simpl; [|eauto].
    destruct (mapM_row_times rows Hrows) as (ts & -> & Hl). simpl.
    rewrite Hl. destruct (Nat.eqb_spec (length rows) nfrm); [contradiction|]. simpl. eauto.
Qed.

Lemma frame_times_length nfrm times ts :
  frame_times nfrm times = Ok ts -> length ts = nfrm.
Proof.
  destruct times; simpl; try discriminate.
  destruct (rectangular rows); simpl; [|discriminate].
  destruct (mapM row_times rows) as [ts'|]; simpl; [|discriminate].
  destruct (Nat.eqb_spec (length ts') nfrm); simpl; [|discriminate].
  now intros [= <-].
Qed.

Section ValidationFacts.

Context {F : Type} `{FloatOps F}.
Variable svc : services F.

Lemma align_frames_invalid_times fniis times fref Cnt reg_tool save4d f4d outpath tr :
  (exists msg, frame_times (length fniis) times = Raise (ValueError msg)) ->
  exists msg w,
    align_frames svc fniis times fref Cnt reg_tool save4d f4d outpath tr
      = (Raise (ValueError msg), tr ++ w)
    /\ Forall (fun ev => is_warning ev = true) w.
Proof.
  intros (msg & E). unfold align_frames.
  unfold mbind at 1, M_bind at 1, lift at 1.
  destruct (check_reg_metric (reg_metric Cnt)) as [[]|e] eqn:Ec.
  - unfold mbind at 1, M_bind at 1.
    destruct (switch_metric_run reg_tool (reg_metric Cnt) tr) as (w & -> & Hw).
    unfold mbind at 1, M_bind at 1, lift at 1. rewrite E.
    exists msg, w. auto.
  - unfold check_reg_metric in Ec. destruct (negb _); [|discriminate].
    injection Ec as <-. exists msg_metric, []. rewrite app_nil_r. split; [reflexivity|constructor].
Qed.

Lemma align_frames_bad_metric fniis times fref Cnt reg_tool save4d f4d outpath tr :
  ~ In (reg_metric Cnt) reg_metric_list ->
  align_frames svc fniis times fref Cnt reg_tool save4d f4d outpath tr
    = (Raise (ValueError msg_metric), tr).
Proof.
  intros Hm. apply (proj1 (check_reg_metric_spec _)) in Hm.
  unfold align_frames. unfold mbind at 1, M_bind at 1, lift at 1. now rewrite Hm.
Qed.

Lemma align_suvr_bad_metric stat_tdata Cnt reg_tool outpath use_stored tr :
  ~ In (reg_metric Cnt) reg_metric_list ->
  align_suvr svc stat_tdata Cnt reg_tool outpath use_stored tr
    = (Raise (ValueError msg_metric), tr).
Proof.
  intros Hm. apply (proj1 (check_reg_metric_spec _)) in Hm.
  unfold align_suvr. unfold mbind at 1, M_bind at 1, lift at 1. now rewrite Hm.
Qed.

End ValidationFacts.

(** * The registration loop *)

Lemma concat_seq_group (l : list (list nat)) n k grp :
  concat l = seq 0 n -> l !! k = Some grp ->
  grp = seq (length (concat (take k l))) (length grp).
Proof.
  intros E Hk. rewrite <- (take_drop_middle l k grp Hk) in E.
  rewrite concat_app in E. simpl in E.
  set (c := length (concat (take k l))) in *.
  assert (E2 : take (length grp) (drop c (seq 0 n)) = grp).
  { rewrite <- E. unfold c. rewrite drop_app_length. apply take_app_length. }
  rewrite drop_seq, take_seq in E2. simpl in E2.
  assert (Hl : length grp = (length grp `min` (n - c))%nat).
  { rewrite <- E2 at 1. now rewrite length_seq. }
  rewrite <- Hl in E2. now symmetry.
Qed.

Lemma enumerate_split {A} (l : list A) pre (x : nat * A) post :
  enumerate l = pre ++ x :: post -> fst x = length pre /\ l !! (length pre) = Some (snd x).
Proof.
  unfold enumerate. intros E.
  assert (Hx : combine (seq 0 (length l)) l !! length pre = Some x).
  { rewrite E. rewrite lookup_app_r by lia. now rewrite Nat.sub_diag. }
  destruct x as [i a]. simpl.
  assert (Hl : l !! length pre = Some a /\ seq 0 (length l) !! length pre = Some i).
  { clear E. revert Hx. generalize (length pre) as k. generalize 0%nat as s.
    induction l as [|y l IH]; intros s k Hx; simpl in *.
    - destruct k; discriminate.
    - destruct k as [|k]; simpl in *.
      + injection Hx as <- <-. auto.
      + apply IH in Hx. exact Hx. }
  destruct Hl as [Hl Hs]. split; [|assumption].
  apply lookup_seq in Hs. lia.
Qed.

Lemma seq_split c len pre i post :
  seq c len = pre ++ i :: post -> i = (c + length pre)%nat.
Proof.
  intros E. assert (Hx : seq c len !! length pre = Some i).
  { rewrite E, lookup_app_r by lia. now rewrite Nat.sub_diag. }
  apply lookup_seq in Hx. lia.
Qed.

Lemma get_item_inv {A} (l : list A) i x : get_item l i = Ok x -> l !! i = Some x.
Proof. unfold get_item. destruct (l !! i); [now intros [= ->]|discriminate]. Qed.

Lemma set_item_inv {A} (l : list A) i x l' :
  set_item l i x = Ok l' -> (i < length l)%nat /\ l' = <[i := x]> l.
Proof. unfold set_item. destruct (decide _); [now intros [= <-]|discriminate]. Qed.

Section LoopFacts.

Context {F : Type} `{FloatOps F}.
Variable svc : services F.

Lemma foldM_inv {A S} (f : S -> A -> M F S) (I : list A -> S -> Prop) l :
  (forall pre x post s0 tr0 s1 tr1,
      l = pre ++ x :: post -> I pre s0 -> f s0 x tr0 = (Ok s1, tr1) -> I (pre ++ [x]) s1) ->
  forall s tr s' tr', I [] s -> foldM f l s tr = (Ok s', tr') -> I l s'.
Proof.
  intros Hstep.
  assert (G : forall rest pre s tr s' tr',
             l = pre ++ rest -> I pre s -> foldM f rest s tr = (Ok s', tr') -> I l s').
  { induction rest as [|x rest IH]; intros pre s tr s' tr' El HI E.
    - simpl in E. apply mret_inv in E as [-> _]. rewrite app_nil_r in El. now subst.
    - simpl in E. apply M_bind_inv in E as (s1 & tr1 & E1 & E2).
      eapply (IH (pre ++ [x])); [rewrite <- app_assoc; exact El| |exact E2].
      eapply Hstep; eauto. }
  intros s tr s' tr' HI E. eapply (G l []); eauto.
Qed.

Variable P : reg_params.
Hypothesis Htool : p_tool P = "spm" \/ p_tool P = "dipy".

Lemma register_one_inv st mi mfrm tr st1 tr1 c :
  p_mfrms_out P !! mi = Some mfrm ->
  reg_inv svc P mi c st ->
  register_one svc (p_fref P) (p_tool P) (p_fwhm P) (p_costfun P) (p_mniidir P) st mi mfrm tr
    = (Ok st1, tr1) ->
  reg_inv svc P (S mi) c st1.
Proof.
  intros Hm (Hfi & Hg & Hu & Hf) E.
  assert (Hmi : (mi < length (p_mfrms_out P))%nat) by (eapply lookup_lt_Some; eauto).
  unfold register_one in E.
  assert (Hkeep : forall X (a b : list X) j x, (j < mi)%nat -> b = <[mi := x]> a -> b !! j = a !! j).
  { intros X a b j x Hj ->. apply list_lookup_insert_ne. lia. }
  destruct Htool as [Et|Et]; rewrite Et in E; simpl in E.
  - apply M_bind_inv in E as (? & t1 & E1 & E). apply emit_inv in E1 as ->.
    apply M_bind_inv in E as (S' & t2 & E2 & E). apply lift_inv in E2 as [E2 ->].
    apply M_bind_inv in E as (RT' & t3 & E3 & E). apply lift_inv in E3 as [E3 ->].
    apply M_bind_inv in E as (R' & t4 & E4 & E). apply lift_inv in E4 as [E4 ->].
    apply M_bind_inv in E as (D' & t5 & E5 & E). apply lift_inv in E5 as [E5 ->].
    apply mret_inv in E as [<- _].
    apply set_item_inv in E2 as (HS & ->).
    unfold set_row6 in E3. destruct (negb _); [discriminate|].
    apply set_item_inv in E3 as (HRT & ->).
    apply set_item_inv in E4 as (HR & ->).
    apply set_item_inv in E5 as (HD & ->).
    repeat split; simpl.
    + assumption.
    + intros j Hj. destruct (decide (j = mi)) as [->|Hne].
      * exists mfrm. unfold reg_S, reg_R, reg_D, reg_RT. rewrite Et. simpl.
        rewrite !list_lookup_insert_eq by assumption. auto.
      * destruct (Hg j ltac:(lia)) as (mf & ? & ? & ? & ? & ?).
        exists mf. simpl. rewrite !list_lookup_insert_ne by lia. auto.
    + rewrite list_lookup_insert_ne by lia. apply Hu. lia.
    + rewrite list_lookup_insert_ne by lia. apply Hu. lia.
    + intros i Hi. destruct (Hf i Hi) as (j & grp & Hj & Hgrp & Hin & Hfd).
      exists j, grp. repeat split; auto.
  - apply M_bind_inv in E as (? & t1 & E1 & E). apply emit_inv in E1 as ->.
    apply M_bind_inv in E as (S' & t2 & E2 & E). apply lift_inv in E2 as [E2 ->].
    apply M_bind_inv in E as (D' & t5 & E5 & E). apply lift_inv in E5 as [E5 ->].
    apply mret_inv in E as [<- _].
    apply set_item_inv in E2 as (HS & ->).
    apply set_item_inv in E5 as (HD & ->).
    repeat split; simpl.
    + assumption.
    + intros j Hj. destruct (decide (j = mi)) as [->|Hne].
      * exists mfrm. unfold reg_S, reg_R, reg_D, reg_RT. rewrite Et. simpl.
        rewrite !list_lookup_insert_eq by assumption.
        destruct (Hu mi (Nat.le_refl _)) as [-> ->].
        rewrite !lookup_replicate_2 by assumption. auto.
      * destruct (Hg j ltac:(lia)) as (mf & ? & ? & ? & ? & ?).
        exists mf. simpl. rewrite !list_lookup_insert_ne by lia. auto.
    + apply Hu. lia.
    + apply Hu. lia.
    + intros i Hi. destruct (Hf i Hi) as (j & grp & Hj & Hgrp & Hin & Hfd).
      exists j, grp. repeat split; auto.
Qed.

Lemma align_one_aligned st mi i (t0 : list (event F)) fal t1 mfrm :
  p_mfrms_out P !! mi = Some mfrm ->
  st_S st !! mi
    = Some (reg_S svc (p_tool P) (p_fref P) (p_fwhm P) (p_costfun P) (p_mniidir P) mfrm) ->
  ((if motion_exceeds (p_metric P) (p_thr P)
        (reg_R svc (p_tool P) (p_fref P) (p_fwhm P) (p_costfun P) (p_mniidir P) mfrm)
        (reg_D svc (p_tool P) (p_fref P) (p_fwhm P) (p_costfun P) (p_mniidir P) mfrm)
   then
     if (p_tool P =? "spm")%string then
       fn ← lift (get_item (p_fniis P) i);
       aff ← lift (get_item (st_S st) mi);
       _ ← emit (EvResampleSpm (p_fref P) fn aff (p_rsmpl P));
       lift (set_item (st_faligned st) (st_fi st)
               (Some (resample_spm svc (p_fref P) fn aff (p_rsmpl P))))
     else if (p_tool P =? "dipy")%string then
       fn ← lift (get_item (p_fniis P) i);
       aff ← lift (get_item (st_S st) mi);
       _ ← emit (EvResampleDipy (p_fref P) fn aff (p_rsmpl P));
       lift (set_item (st_faligned st) (st_fi st)
               (Some (resample_dipy svc (p_fref P) fn aff (p_rsmpl P))))
     else mret (st_faligned st)
   else
     fn ← lift (get_item (p_fniis P) i);
     fal ← lift (set_item (st_faligned st) (st_fi st) (Some (pjoin (p_rsmpl P) (basename fn))));
     _ ← emit (EvCopyFile fn (pjoin (p_rsmpl P) (basename fn)));
     mret fal) : M F (list (option path))) t0 = (Ok fal, t1) ->
  exists fn, p_fniis P !! i = Some fn /\ (st_fi st < length (st_faligned st))%nat
             /\ fal = <[st_fi st := Some (expected_aligned svc P mfrm fn)]> (st_faligned st).
Proof.
  intros Hm HS E. unfold expected_aligned.
  destruct (motion_exceeds _ _ _ _).
  - unfold resample_call.
    destruct Htool as [Et|Et]; rewrite Et in *; simpl in E |- *.
    + apply M_bind_inv in E as (fn & t2 & E1 & E). apply lift_inv in E1 as [E1 ->].
      apply M_bind_inv in E as (aff & t3 & E2 & E). apply lift_inv in E2 as [E2 ->].
      apply M_bind_inv in E as (? & t4 & E3 & E). apply emit_inv in E3 as ->.
      apply lift_inv in E as [E _].
      apply get_item_inv in E1, E2. apply set_item_inv in E as (Hlt & ->).
      rewrite HS in E2. injection E2 as <-. exists fn. auto.
    + apply M_bind_inv in E as (fn & t2 & E1 & E). apply lift_inv in E1 as [E1 ->].
      apply M_bind_inv in E as (aff & t3 & E2 & E). apply lift_inv in E2 as [E2 ->].
      apply M_bind_inv in E as (? & t4 & E3 & E). apply emit_inv in E3 as ->.
      apply lift_inv in E as [E _].
      apply get_item_inv in E1, E2. apply set_item_inv in E as (Hlt & ->).
      rewrite HS in E2. injection E2 as <-. exists fn. auto.
  - apply M_bind_inv in E as (fn & t2 & E1 & E). apply lift_inv in E1 as [E1 ->].
    apply M_bind_inv in E as (fal' & t3 & E2 & E). apply lift_inv in E2 as [E2 ->].
    apply M_bind_inv in E as (? & t4 & E3 & E). apply emit_inv in E3 as ->.
    apply mret_inv in E as [<- _].
    apply get_item_inv in E1. apply set_item_inv in E2 as (Hlt & ->).
    exists fn. auto.
Qed.

Lemma align_one_inv st mi i tr st' tr' grp :
  p_mfrms P !! mi = Some grp -> In i grp ->
  reg_inv svc P (S mi) i st ->
  align_one svc (p_fniis P) (p_fref P) (p_tool P) (p_metric P) (p_thr P) (p_rsmpl P) mi st i tr
    = (Ok st', tr') ->
  reg_inv svc P (S mi) (S i) st'.
Proof.
  intros Hgrp Hin (Hfi & Hg & Hu & Hf) E.
  destruct (Hg mi (Nat.lt_succ_diag_r _)) as (mfrm & Hm & HS & HR & HD & HRT).
  unfold align_one in E.
  apply M_bind_inv in E as (rt & t1 & E1 & E). apply lift_inv in E1 as [E1 ->].
  apply M_bind_inv in E as (RTf & t2 & E2 & E). apply lift_inv in E2 as [E2 ->].
  apply M_bind_inv in E as (r & t3 & E3 & E). apply lift_inv in E3 as [E3 ->].
  apply M_bind_inv in E as (d & t4 & E4 & E). apply lift_inv in E4 as [E4 ->].
  apply M_bind_inv in E as (fal & t5 & E5 & E).
  apply mret_inv in E as [<- _].
  apply get_item_inv in E1, E3, E4. apply set_item_inv in E2 as (Hi & ->).
  rewrite HRT in E1. injection E1 as <-.
  rewrite HR in E3. injection E3 as <-.
  rewrite HD in E4. injection E4 as <-.
  destruct (align_one_aligned _ _ _ _ _ _ _ Hm HS E5) as (fn & Hfn & Hlt & ->).
  rewrite Hfi in *.
  split; [reflexivity|]. split; [|split]; simpl.
  - intros j Hj. destruct (Hg j Hj) as (mf & ? & ? & ? & ? & ?). exists mf. auto.
  - apply Hu.
  - intros j Hj. destruct (decide (j = i)) as [->|Hne].
    + exists mi, grp. repeat split; auto.
      exists mfrm, fn. simpl. rewrite !list_lookup_insert_eq by assumption. auto.
    + destruct (Hf j ltac:(lia)) as (mj & gj & Hmj & Hgj & Hinj & (mf & fj & ? & ? & ? & ?)).
      exists mj, gj. repeat split; auto.
      exists mf, fj. simpl. rewrite !list_lookup_insert_ne by congruence. auto.
Qed.

Lemma register_group_inv st mi mfrm tr st' tr' n :
  concat (p_mfrms P) = seq 0 n ->
  p_mfrms_out P !! mi = Some mfrm ->
  reg_inv svc P mi (length (concat (take mi (p_mfrms P)))) st ->
  register_group svc (p_fniis P) (p_fref P) (p_tool P) (p_metric P) (p_fwhm P) (p_thr P)
    (p_costfun P) (p_mniidir P) (p_rsmpl P) (p_mfrms P) st (mi, mfrm) tr = (Ok st', tr') ->
  reg_inv svc P (S mi) (length (concat (take (S mi) (p_mfrms P)))) st'.
Proof.
  intros Hseq Hm HI E. unfold register_group in E. simpl in E.
  apply M_bind_inv in E as (st1 & t1 & E1 & E).
  apply M_bind_inv in E as (grp & t2 & E2 & E). apply lift_inv in E2 as [E2 ->].
  apply get_item_inv in E2.
  pose proof (register_one_inv _ _ _ _ _ _ _ Hm HI E1) as HI1.
  pose proof (concat_seq_group _ _ _ _ Hseq E2) as Hgrp.
  set (c := length (concat (take mi (p_mfrms P)))) in *.
  assert (Hc : length (concat (take (S mi) (p_mfrms P))) = (c + length grp)%nat).
  { rewrite (take_S_r _ _ _ E2), concat_app, length_app. simpl. rewrite app_nil_r. reflexivity. }
  rewrite Hc.
  pose (I := fun (pre : list nat) (s : reg_state) => reg_inv svc P (S mi) (c + length pre) s).
  change (I grp st').
  eapply (foldM_inv _ I grp); [|unfold I; simpl; rewrite Nat.add_0_r; exact HI1|exact E].
  intros pre x post s0 tr0 s1 tr1 El HI0 Ex. unfold I in *.
  rewrite length_app. simpl.
  assert (Hx : x = (c + length pre)%nat).
  { eapply seq_split. rewrite <- Hgrp. exact El. }
  replace (c + (length pre + 1))%nat with (S (c + length pre)) by lia.
  rewrite <- Hx in *. eapply align_one_inv; eauto.
  rewrite El. apply in_or_app. right. now left.
Qed.

Lemma registration_loop_inv st0 tr st tr' n :
  concat (p_mfrms P) = seq 0 n ->
  length (p_mfrms_out P) = length (p_mfrms P) ->
  reg_inv svc P 0 0 st0 ->
  foldM (register_group svc (p_fniis P) (p_fref P) (p_tool P) (p_metric P) (p_fwhm P)
           (p_thr P) (p_costfun P) (p_mniidir P) (p_rsmpl P) (p_mfrms P))
        (enumerate (p_mfrms_out P)) st0 tr = (Ok st, tr') ->
  reg_inv svc P (length (p_mfrms P)) n st.
Proof.
  intros Hseq Hlen HI0 E.
  pose (I := fun (pre : list (nat * path)) (s : reg_state) =>
               reg_inv svc P (length pre) (length (concat (take (length pre) (p_mfrms P)))) s).
  assert (HI : I (enumerate (p_mfrms_out P)) st).
  { eapply (foldM_inv _ I); [|exact HI0|exact E].
    intros pre [mi mfrm] post s0 tr0 s1 tr1 El HIp Ex. unfold I in *.
    apply enumerate_split in El as [Hmi Hm]. simpl in Hmi, Hm. subst mi.
    rewrite length_app. simpl. rewrite Nat.add_1_r.
    eapply register_group_inv; eauto. }
  unfold I, enumerate in HI. rewrite length_combine, length_seq, Nat.min_id, Hlen in HI.
  rewrite firstn_all in HI. rewrite Hseq, length_seq in HI. exact HI.
Qed.

End LoopFacts.

Section OutputFacts.

Context {F : Type} `{FloatOps F}.
Variable svc : services F.

(** What a returning call of [align_frames] went through. *)
Lemma align_frames_run fniis times fref Cnt reg_tool save4d f4d outpath tr out tr' :
  align_frames svc fniis times fref Cnt reg_tool save4d f4d outpath tr = (Ok out, tr') ->
  exists ts st tr1 tr2,
    frame_times (length fniis) times = Ok ts
    /\ Mash.mash_frames (frame_min_dur Cnt) (length fniis) ts = Ok (mashed_frame_idx out)
    /\ length (mashed_files out) = length (mashed_frame_idx out)
    /\ foldM (register_group svc fniis fref reg_tool (effective_metric reg_tool (reg_metric Cnt))
                (reg_fwhm Cnt) (reg_thrshld Cnt) (reg_costfun Cnt)
                (mashed_dir fniis outpath) (aligned_dir fniis outpath) (mashed_frame_idx out))
             (enumerate (mashed_files out))
             {| st_S := replicate (length (mashed_files out)) None;
                st_R := replicate (length (mashed_files out)) 0%Q;
                st_D := replicate (length (mashed_files out)) 0%Q;
                st_RT := replicate (length (mashed_files out)) (replicate 6 0%Q);
                st_RTf := replicate (length fniis) (replicate 6 0%Q);
                st_faligned := replicate (length fniis) None; st_fi := 0 |} tr1
       = (Ok st, tr2)
    /\ affines out = st_S st /\ metric out = st_R st /\ metric2 out = st_D st
    /\ rot_trans out = st_RTf st /\ faligned out = st_faligned st.
Proof.
  unfold align_frames. intros E.
  apply M_bind_inv in E as (? & t1 & E1 & E).
  apply M_bind_inv in E as (m' & t2 & E2 & E).
  destruct (switch_metric_run reg_tool (reg_metric Cnt) t1) as (w & Ew & _).
  rewrite Ew in E2. injection E2 as <- <-.
  apply M_bind_inv in E as (ts & t3 & E3 & E). apply lift_inv in E3 as [E3 ->].
  apply M_bind_inv in E as (opth & t4 & E4 & E).
  assert (Hopth : pjoin opth "mashed" = mashed_dir fniis outpath).
  { unfold mashed_dir. destruct outpath as [p|].
    - apply mret_inv in E4 as [-> _]. reflexivity.
    - apply M_bind_inv in E4 as (fn0 & t5 & E5 & E4). apply lift_inv in E5 as [E5 _].
      apply mret_inv in E4 as [<- _]. apply get_item_inv in E5.
      destruct fniis; [discriminate|]. simpl in E5. now injection E5 as ->. }
  apply M_bind_inv in E as (? & t5 & E5 & E).
  apply M_bind_inv in E as (? & t6 & E6 & E).
  apply M_bind_inv in E as (mfrms & t7 & E7 & E). apply lift_inv in E7 as [E7 ->].
  apply M_bind_inv in E as (mfrms_out & t8 & E8 & E).
  apply M_bind_inv in E as (? & t9 & E9 & E).
  apply M_bind_inv in E as (st & t10 & E10 & E).
  rewrite Hopth in E10.
  assert (Hlen : length mfrms_out = length mfrms).
  { destruct (Nat.eqb_spec (length mfrms_out) (length mfrms)); [assumption|].
    simpl in E9. apply lift_inv in E9 as [? _]. discriminate. }
  assert (Hout : mashed_frame_idx out = mfrms /\ mashed_files out = mfrms_out
                 /\ affines out = st_S st /\ metric out = st_R st /\ metric2 out = st_D st
                 /\ rot_trans out = st_RTf st /\ faligned out = st_faligned st).
  { destruct save4d.
    - apply M_bind_inv in E as (niia & t11 & E11 & E). apply mret_inv in E as [<- _].
      simpl. tauto.
    - apply mret_inv in E as [<- _]. simpl. tauto. }
  destruct Hout as (-> & -> & Ho).
  exists ts, st, t9, t10. unfold aligned_dir. tauto.
Qed.

End OutputFacts.

(** * Grouping and order of the outputs of [align_frames] *)

Section FramesTheorems.

Context {F : Type} `{FloatOps F}.
Variable svc : services F.

(** C2. For valid start/stop times a call of [align_frames] that returns
    hands back in ['mashed_frame_idx'] a partition of the frame indices:
    the short frames by windows over their end times, one group for
    every other frame; and the grouping stage fails with [ValueError]
    only. *)
Theorem mashed_frame_idx_partition fniis times fref Cnt reg_tool save4d f4d outpath tr ts :
  frame_times (length fniis) times = Ok ts ->
  Mash.valid_times ts ->
  (forall out tr',
      align_frames svc fniis times fref Cnt reg_tool save4d f4d outpath tr = (Ok out, tr') ->
      Mash.partition_of (mashed_frame_idx out) (length fniis)
      /\ mashed_frame_idx out = Mash.spec_grouping (frame_min_dur Cnt) ts)
  /\ (forall e, Mash.mash_frames (frame_min_dur Cnt) (length fniis) ts = Raise e ->
                exists msg, e = ValueError msg).
Proof.
  intros Hts Hv. pose proof (frame_times_length _ _ _ Hts) as Hl.
  pose proof (MashFacts.mash_frames_valid (frame_min_dur Cnt) ts Hv) as Hm.
  rewrite Hl in Hm. split.
  - intros out tr' E. apply align_frames_stages in E as (ts' & Hts' & E).
    rewrite Hts in Hts'. injection Hts' as <-. rewrite E in Hm. tauto.
  - intros e E. rewrite E in Hm. exact Hm.
Qed.

(** Where the running counter of ['faligned'] and the frame index agree:
    when the frames are listed in acquisition order and the tool is SPM
    or DIPY, a call that returns gives its outputs frame by frame: entry
    [i] of ['faligned'] is the resampled or copied file of [fniis[i]],
    decided on the metrics of the group of frame [i], and row [i] of
    ['rot_trans'] is the row of that group. *)
Theorem align_frames_outputs_in_order fniis times fref Cnt reg_tool save4d f4d outpath
    tr out tr' ts :
  reg_tool = "spm" \/ reg_tool = "dipy" ->
  frame_times (length fniis) times = Ok ts ->
  Mash.chronological 0 ts ->
  align_frames svc fniis times fref Cnt reg_tool save4d f4d outpath tr = (Ok out, tr') ->
  forall i fn, fniis !! i = Some fn ->
    exists mi grp mfrm r d aff,
      mashed_frame_idx out !! mi = Some grp /\ In i grp
      /\ mashed_files out !! mi = Some mfrm
      /\ metric out !! mi = Some r /\ metric2 out !! mi = Some d
      /\ affines out !! mi = Some aff
      /\ faligned out !! i
         = Some (Some (if motion_exceeds (effective_metric reg_tool (reg_metric Cnt))
                            (reg_thrshld Cnt) r d
                       then snd (resample_call svc reg_tool fref fn aff
                                   (aligned_dir fniis outpath))
                       else pjoin (aligned_dir fniis outpath) (basename fn)))
      /\ rot_trans out !! i
         = Some (reg_RT svc reg_tool fref (reg_fwhm Cnt) (reg_costfun Cnt)
                   (mashed_dir fniis outpath) mfrm).
Proof.
  intros Htool Hts Hc E i fn Hfn.
  apply align_frames_run in E
    as (ts' & st & t1 & t2 & Hts' & Hm & Hlen & Hloop & HS & HR & HD & HRTf & Hfal).
  rewrite Hts in Hts'. injection Hts' as <-.
  pose proof (frame_times_length _ _ _ Hts) as Hl. rewrite <- Hl in Hm.
  apply MashFacts.mash_frames_chronological in Hm as [_ Hseq]; [|assumption].
  set (P := {| p_fniis := fniis; p_fref := fref; p_tool := reg_tool;
               p_metric := effective_metric reg_tool (reg_metric Cnt);
               p_fwhm := reg_fwhm Cnt; p_thr := reg_thrshld Cnt;
               p_costfun := reg_costfun Cnt; p_mniidir := mashed_dir fniis outpath;
               p_rsmpl := aligned_dir fniis outpath;
               p_mfrms := mashed_frame_idx out; p_mfrms_out := mashed_files out |}).
  apply (registration_loop_inv svc P Htool _ _ _ _ (length ts) Hseq Hlen) in Hloop.
  - destruct Hloop as (_ & Hg & _ & Hf).
    assert (Hi : (i < length ts)%nat) by (rewrite Hl; eapply lookup_lt_Some; eauto).
    destruct (Hf i Hi) as (mi & grp & Hmi & Hgrp & Hin & (mfrm & fn' & Hmf & Hfn' & Hfa & Hrt)).
    destruct (Hg mi Hmi) as (mfrm' & Hmf' & HS' & HR' & HD' & _).
    simpl in *. rewrite Hfn in Hfn'. injection Hfn' as <-.
    rewrite Hmf in Hmf'. injection Hmf' as <-.
    eexists mi, grp, mfrm, _, _, _.
    rewrite HS, HR, HD, HRTf, Hfal.
    repeat split; eauto.
  - split; [reflexivity|]. split; [intros mi Hmi; lia|].
    split; [intros mi _; split; reflexivity|intros j Hj; lia].
Qed.

End FramesTheorems.

(** * [save4dnii] *)

Section Save4dFacts.

Context {F : Type} `{FloatOps F}.
Variable svc : services F.

Lemma nan_to_zero_clean (a : ndarray F) v :
  In v (data (nan_to_zero a)) -> fisnan v = false.
Proof.
  unfold nan_to_zero. simpl. intros Hv. apply in_map_iff in Hv as (x & <- & _).
  destruct (fisnan x) eqn:E; [apply f0_not_nan|assumption].
Qed.

Lemma save4d_step_ok (s : stack F) i p n :
  getnii svc p = Some n -> shape (nii_im n) = frame_shape s -> (i < length (frames s))%nat ->
  save4d_step svc s (i, Some p)
  = Ok {| frame_shape := frame_shape s;
          frames := <[i := data (nan_to_zero (nii_im n))]> (frames s) |}.
Proof.
  intros Hp Hs Hi. unfold save4d_step. cbn [fst snd].
  rewrite (read_nii_Some _ _ _ Hp). cbn [mbind result_bind].
  now rewrite stack_set_ok.
Qed.

Lemma save4d_loop shp todo ims pre post :
  Forall2 (fun p n => getnii svc p = Some n) todo ims ->
  Forall (fun n => shape (nii_im n) = shp) ims ->
  length post = length todo ->
  fold_result (save4d_step svc) (combine (seq (length pre) (length todo)) (map Some todo))
    {| frame_shape := shp; frames := pre ++ post |}
  = Ok {| frame_shape := shp;
          frames := pre ++ map (fun n => data (nan_to_zero (nii_im n))) ims |}.
Proof.
  intros Hread. revert pre post.
  induction Hread as [|p n todo ims Hp _ IH]; intros pre post Hshape Hlen.
  - destruct post; [|discriminate]. reflexivity.
  - destruct post as [|z post]; [discriminate|].
    apply Forall_cons in Hshape as [Hs Hshape]. simpl in Hlen.
    cbn [length seq map combine fold_result].
    rewrite (save4d_step_ok _ _ _ _ Hp);
      [|assumption|cbn [frames]; rewrite length_app; simpl; lia].
    cbn [mbind result_bind frame_shape frames].
    replace (<[length pre := data (nan_to_zero (nii_im n))]> (pre ++ z :: post))
      with ((pre ++ [data (nan_to_zero (nii_im n))]) ++ post).
    + replace (S (length pre)) with (length (pre ++ [data (nan_to_zero (nii_im n))]))
        by (rewrite length_app; simpl; lia).
      rewrite IH by (auto; lia). now rewrite <- app_assoc.
    + rewrite <- app_assoc. simpl.
      rewrite insert_app_r_alt by lia. now rewrite Nat.sub_diag.
Qed.

(** C7. For a non-empty list of readable frame files of one shape,
    [save4dnii] stacks the frames in the order of the list with every
    NaN replaced by zero, saves the stack with the affine and flip of
    the first frame and the transpose that undoes the first frame's, and
    returns the stack if [retarr] and [None] otherwise. *)
Theorem save4dnii_stacks_frames p0 lfrm n0 ims fnii descrip retarr tr trnsp :
  Forall2 (fun p n => getnii svc p = Some n) (p0 :: lfrm) (n0 :: ims) ->
  Forall (fun n => shape (nii_im n) = shape (nii_im n0)) ims ->
  inverse_transpose (nii_transpose n0) = Ok trnsp ->
  let niia := {| frame_shape := shape (nii_im n0);
                 frames := map (fun n => data (nan_to_zero (nii_im n))) (n0 :: ims) |} in
  save4dnii svc (map Some (p0 :: lfrm)) fnii descrip retarr tr
    = (Ok (if retarr then Some niia else None),
       tr ++ [EvArray2Nii (stack_array niia) (nii_affine n0) fnii descrip trnsp (nii_flip n0)])
  /\ length (frames niia) = length (p0 :: lfrm)
  /\ (forall i p, (p0 :: lfrm) !! i = Some p ->
        exists n, getnii svc p = Some n
                  /\ frames niia !! i
                     = Some (map (fun v => if fisnan v then f0 else v) (data (nii_im n))))
  /\ (forall fr v, In fr (frames niia) -> In v fr -> fisnan v = false).
Proof.
  intros Hread Hshape Htr niia.
  assert (Hlen : length (n0 :: ims) = length (p0 :: lfrm))
    by (symmetry; eapply Forall2_length; eauto).
  split; [|split; [|split]].
  - pose proof (Forall2_cons_1 _ _ _ _ _ Hread) as [Hp0 _].
    pose proof (save4d_loop (shape (nii_im n0)) (p0 :: lfrm) (n0 :: ims) []
                  (replicate (length (p0 :: lfrm)) (replicate (size_of (shape (nii_im n0))) f0))
                  Hread (Forall_cons_2 _ _ _ eq_refl Hshape) (length_replicate _ _)) as Hloop.
    cbn [app length] in Hloop.
    unfold save4dnii, enumerate, stack_zeros. rewrite length_map.
    change (get_item (map Some (p0 :: lfrm)) 0) with (Ok (Some p0) : result (option path)).
    unfold mbind at 1, M_bind at 1, lift at 1.
    unfold mbind at 1, M_bind at 1, lift at 1.
    rewrite (read_nii_Some _ _ _ Hp0).
    unfold mbind at 1, M_bind at 1, lift at 1.
    cbn [length]. rewrite Hloop.
    unfold mbind at 1, M_bind at 1, lift at 1. rewrite Htr.
    unfold mbind at 1, M_bind at 1, emit at 1.
    destruct retarr; reflexivity.
  - subst niia. cbn [frames]. now rewrite length_map.
  - intros i p Hi. subst niia. cbn [frames].
    destruct (Forall2_lookup_l _ _ _ _ _ Hread Hi) as (n & Hn & Hg).
    exists n. split; [assumption|]. rewrite list_lookup_fmap, Hn. reflexivity.
  - intros fr v Hfr Hv. subst niia. cbn [frames] in Hfr.
    apply in_map_iff in Hfr as (n & <- & _). eapply nan_to_zero_clean; eauto.
Qed.

End Save4dFacts.

(** * [extract_vois] *)

Section VoiFacts.

Context {F : Type} `{FloatOps F}.
Variable svc : services F.

Lemma voi_sums_not_4d (im : ndarray F) shp msk2 :
  ndim im <> 4%nat ->
  voi_sums im shp msk2
  = Raise (AttributeError "'numpy.ndarray' object has no attribute 'ndims'").
Proof.
  intros Hn. unfold voi_sums. destruct (Nat.eqb_spec (ndim im) 4); [contradiction|reflexivity].
Qed.

(** The arrays of the caller after a call: only the label array can
    have changed, and it has lost its NaNs unless reading the PET image
    failed first. *)
Lemma extract_vois_store_after impet atlas voi_dct atlas_mask outpath output_masks st :
  let st' := snd (extract_vois svc impet atlas voi_dct atlas_mask outpath output_masks st) in
  (forall l, arg_array atlas <> Some l -> st' l = st l)
  /\ (forall l, arg_array atlas = Some l -> (exists x, resolve_pet svc impet = Ok x) ->
        st' l = nan_to_zero (st l)).
Proof.
  unfold extract_vois.
  destruct (resolve_pet svc impet) as [[im g0]|e] eqn:Ep; simpl.
  2:{ split; [reflexivity|]. intros l _ (x & Hx). discriminate. }
  destruct atlas as [la a f t|p|la|]; simpl.
  - destruct (resolve_mask svc atlas_mask _); simpl; unfold store_set; split.
    + intros l Hl. destruct (decide (l = la)) as [->|]; [congruence|reflexivity].
    + intros l [= <-] _. destruct (decide (la = la)); [reflexivity|contradiction].
    + intros l Hl. destruct (decide (l = la)) as [->|]; [congruence|reflexivity].
    + intros l [= <-] _. destruct (decide (la = la)); [reflexivity|contradiction].
  - destruct (is_file svc p); simpl.
    + destruct (getnii svc p); simpl.
      * destruct (resolve_mask svc atlas_mask st); simpl; split; try reflexivity; discriminate.
      * split; [reflexivity|discriminate].
    + split; [reflexivity|discriminate].
  - destruct (resolve_mask svc atlas_mask _); simpl; unfold store_set; split.
    + intros l Hl. destruct (decide (l = la)) as [->|]; [congruence|reflexivity].
    + intros l [= <-] _. destruct (decide (la = la)); [reflexivity|contradiction].
    + intros l Hl. destruct (decide (l = la)) as [->|]; [congruence|reflexivity].
    + intros l [= <-] _. destruct (decide (la = la)); [reflexivity|contradiction].
  - split; [reflexivity|discriminate].
Qed.

(** C9. Given the atlas as an array, [extract_vois] sets every NaN of
    that array of the caller to zero; a PET image given as another array
    is left as it was. *)
Theorem extract_vois_mutates_atlas_only lp la voi_dct atlas_mask outpath output_masks st :
  lp <> la ->
  let st' := snd (extract_vois svc (ArgArray lp) (ArgArray la) voi_dct atlas_mask outpath
                    output_masks st) in
  shape (st' la) = shape (st la)
  /\ data (st' la) = map (fun v => if fisnan v then f0 else v) (data (st la))
  /\ (forall v, In v (data (st' la)) -> fisnan v = false)
  /\ st' lp = st lp.
Proof.
  intros Hne st'.
  destruct (extract_vois_store_after (ArgArray lp) (ArgArray la) voi_dct atlas_mask outpath
              output_masks st) as [Hframe Hatl].
  fold st' in Hframe, Hatl.
  assert (E : st' la = nan_to_zero (st la)) by (apply Hatl; simpl; eauto).
  rewrite E. repeat split.
  - apply nan_to_zero_clean.
  - apply Hframe. simpl. congruence.
Qed.

End VoiFacts.

(** C6 (the code departs from it). A 3D PET image makes [extract_vois]
    raise [AttributeError] on the first VOI: the test of the 3D case
    reads [im.ndims], which no array has. *)
Theorem extract_vois_3d_raises_attribute_error :
  ndim Demo.demo_pet3d = 3%nat
  /\ fst (extract_vois Demo.demo_svc (ArgArray 0%nat) (ArgArray 1%nat) Demo.demo_vois MaskNone
            None false (Demo.demo_store Demo.demo_pet3d))
     = (Raise (AttributeError "'numpy.ndarray' object has no attribute 'ndims'"), []).
Proof. split; vm_compute; reflexivity. Qed.

(** * [align_break] *)

Section DecayFacts.

Open Scope R_scope.

Variable riLUT_thalf : string -> option R.

(** The variable [decay_corr] is true whatever the configuration holds. *)
Lemma decay_corr_variable_truthy Cnt : Break.truthy (Break.decay_corr_variable Cnt) = true.
Proof. reflexivity. Qed.

Lemma decay_factor_two_series b t0 t1 tracer thalf :
  (t0 <= t1)%Z ->
  riLUT_thalf (Break.isotope tracer) = Some thalf ->
  Break.decay_factor riLUT_thalf (Break.PyTuple [b]) [t0; t1] tracer
  = Ok (1 / exp (- (ln 2 / thalf) * IZR (t1 - t0))).
Proof.
  intros Ht Hlut. unfold Break.decay_factor. simpl.
  destruct (Z.ltb_spec t1 t0); [lia|]. simpl. now rewrite Hlut.
Qed.

Lemma decay_factor_gt_1 thalf (td : Z) :
  0 < thalf -> (0 < td)%Z -> 1 < 1 / exp (- (ln 2 / thalf) * IZR td).
Proof.
  intros Hh Htd.
  assert (Hx : 0 < ln 2 / thalf * IZR td).
  { apply Rmult_lt_0_compat; [|now apply (IZR_lt 0)].
    apply Rdiv_lt_0_compat; [|assumption].
    pose proof ln_lt_2. lra. }
  replace (- (ln 2 / thalf) * IZR td) with (- (ln 2 / thalf * IZR td)) by lra.
  rewrite exp_Ropp. unfold Rdiv. rewrite Rmult_1_l, Rinv_inv.
  assert (Hne : ln 2 / thalf * IZR td <> 0) by lra.
  pose proof (exp_ineq1 _ Hne). lra.
Qed.

End DecayFacts.

(** C3 (the code departs from it). With decay correction switched off
    and a break of one hour, [align_break] still scales the static
    frames by the decay factor, which is above 1. *)
Theorem decay_factor_applied_when_disabled :
  decay_corr (Demo.demo_cfg "rss" 1%Q) = false
  /\ exists dcycrr,
       Break.align_break_dcycrr Demo.demo_thalf (Demo.demo_cfg "rss" 1%Q) [0; 3600] "pib"
       = Ok dcycrr
       /\ (1 < dcycrr)%R.
Proof.
  split; [reflexivity|]. eexists. split.
  - unfold Break.align_break_dcycrr, Break.decay_corr_variable.
    apply (decay_factor_two_series Demo.demo_thalf); [lia|reflexivity].
  - apply decay_factor_gt_1; [lra|lia].
Qed.

(** * The reference frame of [align_suvr] *)

(** C4 (the code departs from it). Under DIPY with the metric ['adst']
    the frame of least total distance is frame 2, and [align_suvr] aligns
    to frame 0: the reference is the argmin over [R], which DIPY leaves
    at zero. *)
Theorem align_suvr_reference_ignores_adst :
  exists o tr,
    align_suvr Demo.demo_svc Demo.demo_stat (Demo.demo_cfg "adst" 2%Q) "dipy" None false []
    = (Ok (Some o), tr)
    /\ so_rfrm o = 0%nat
    /\ argmin (zip_with Qplus (sum_axis0 3 (so_D o)) (sum_axis1 (so_D o))) = Ok 2%nat.
Proof. eexists _, _. split; [vm_compute; reflexivity|]. split; vm_compute; reflexivity. Qed.

(** * The order of ['faligned'] *)

(** C5 (the code departs from it). With the frame of a minute listed
    before the two short frames the groups are [[1; 2]; [0]].  Row 0 of
    ['rot_trans'], set by frame index, is the row of the group of frame
    0; ['faligned'], set by a running counter, has the copy of frame 1
    as its entry 0, which is no aligned file of frame 0, and the aligned
    file of frame 0 as its entry 2. *)
Theorem faligned_not_in_input_order :
  exists out tr',
    align_frames Demo.demo_svc [Demo.fa; Demo.fb; Demo.fc] Demo.demo_times_unordered
      Demo.fref_demo (Demo.demo_cfg "rss" 3%Q) "spm" false None None [] = (Ok out, tr')
    /\ mashed_frame_idx out = [[1; 2]; [0]]%nat
    /\ rot_trans out !! 0%nat
       = Some (reg_RT Demo.demo_svc "spm" Demo.fref_demo 8%Q "nmi"
                 (mashed_dir [Demo.fa; Demo.fb; Demo.fc] None)
                 (pjoin (mashed_dir [Demo.fa; Demo.fb; Demo.fc] None) "mashed_n1_a.nii"))
    /\ mashed_files out !! 1%nat
       = Some (pjoin (mashed_dir [Demo.fa; Demo.fb; Demo.fc] None) "mashed_n1_a.nii")
    /\ faligned out !! 0%nat
       = Some (Some (pjoin (aligned_dir [Demo.fa; Demo.fb; Demo.fc] None)
                       (basename Demo.fb)))
    /\ ~ aligned_file_of Demo.demo_svc "spm" Demo.fref_demo
          (aligned_dir [Demo.fa; Demo.fb; Demo.fc] None) Demo.fa
          (pjoin (aligned_dir [Demo.fa; Demo.fb; Demo.fc] None) (basename Demo.fb))
    /\ faligned out !! 2%nat
       = Some (Some (pjoin (aligned_dir [Demo.fa; Demo.fb; Demo.fc] None)
                       (basename Demo.fa))).
Proof.
  eexists _, _. split; [vm_compute; reflexivity|].
  split; [reflexivity|]. split; [vm_compute; reflexivity|].
  split; [vm_compute; reflexivity|]. split; [vm_compute; reflexivity|].
  split; [|vm_compute; reflexivity].
  intros [E|(aff & E)]; vm_compute in E; discriminate.
Qed.

(** * Which errors a computation can raise *)

Lemma nr_bind {F A B} e (m : M F A) (k : A -> M F B) :
  never_raises e m -> (forall a, never_raises e (k a)) -> never_raises e (m ≫= k).
Proof.
  intros Hm Hk tr. unfold mbind, M_bind. specialize (Hm tr).
  destruct (m tr) as [[a|e'] tr1]; simpl in *; [apply Hk|].
  intros [= ->]. now apply Hm.
Qed.

Lemma nr_lift {F A} e (r : result A) : r <> Raise e -> never_raises (F := F) e (lift r).
Proof. intros Hr tr. exact Hr. Qed.

Lemma nr_emit {F} e (ev : event F) : never_raises e (emit ev).
Proof. intros tr. discriminate. Qed.

Lemma nr_mret {F A} e (a : A) : never_raises (F := F) e (mret a).
Proof. intros tr. discriminate. Qed.

Lemma nr_foldM {F A S} e (f : S -> A -> M F S) l s :
  (forall s x, never_raises e (f s x)) -> never_raises e (foldM f l s).
Proof.
  intros Hf. revert s. induction l as [|x l IH]; intros s; simpl.
  - apply nr_mret.
  - apply nr_bind; auto.
Qed.

Lemma res_bind_ne {A B} e (r : result A) (k : A -> result B) :
  r <> Raise e -> (forall a, k a <> Raise e) -> r ≫= k <> Raise e.
Proof.
  intros Hr Hk. destruct r; simpl; [apply Hk|]. intros [= ->]. now apply Hr.
Qed.

Lemma fold_result_ne {A S} e (f : S -> A -> result S) l s :
  (forall s x, f s x <> Raise e) -> fold_result f l s <> Raise e.
Proof.
  intros Hf. revert s. induction l as [|x l IH]; intros s; simpl; [discriminate|].
  apply res_bind_ne; auto.
Qed.

Lemma mapM_ne {A B} e (f : A -> result B) l :
  (forall x, f x <> Raise e) -> mapM f l <> Raise e.
Proof.
  intros Hf. induction l as [|x l IH]; simpl; [discriminate|].
  apply res_bind_ne; [auto|]. intros y. apply res_bind_ne; [auto|discriminate].
Qed.

Lemma get_item_ne {A} (l : list A) i msg : get_item l i <> Raise (ValueError msg).
Proof. unfold get_item. destruct (l !! i); discriminate. Qed.

Lemma set_item_ne {A} (l : list A) i x msg : set_item l i x <> Raise (ValueError msg).
Proof. unfold set_item. destruct (decide _); discriminate. Qed.

Lemma get_item2_ne {A} (m : list (list A)) i j msg : get_item2 m i j <> Raise (ValueError msg).
Proof. unfold get_item2. apply res_bind_ne; [|intros]; apply get_item_ne. Qed.

Lemma set_item2_ne {A} (m : list (list A)) i j x msg :
  set_item2 m i j x <> Raise (ValueError msg).
Proof.
  unfold set_item2. apply res_bind_ne; [apply get_item_ne|intros].
  apply res_bind_ne; [|intros]; apply set_item_ne.
Qed.

Lemma py_index_ne t x : py_index t x <> Raise (ValueError msg_metric).
Proof.
  induction t as [|y t IH]; simpl; [discriminate|].
  destruct (y =? x)%nat; [discriminate|]. destruct (py_index t x); [discriminate|assumption].
Qed.

Lemma inverse_transpose_ne t : inverse_transpose t <> Raise (ValueError msg_metric).
Proof.
  unfold inverse_transpose.
  repeat (apply res_bind_ne; [apply py_index_ne|intros]). discriminate.
Qed.

Lemma key_index_ne l k : key_index l k <> Raise (ValueError msg_metric).
Proof.
  induction l as [|y l IH]; simpl; [discriminate|].
  destruct (y =? k)%string; [discriminate|]. destruct (key_index l k); [discriminate|assumption].
Qed.

Lemma frame_times_ne n times : frame_times n times <> Raise (ValueError msg_metric).
Proof.
  destruct times; simpl; try discriminate.
  destruct (rectangular rows); simpl; [|discriminate].
  apply res_bind_ne.
  - apply mapM_ne. intros [|? [|? ?]]; discriminate.
  - intros ts. destruct (negb _); discriminate.
Qed.

Lemma mash_frames_ne L n ts : Mash.mash_frames L n ts <> Raise (ValueError msg_metric).
Proof.
  unfold Mash.mash_frames, Mash.number_of_sets.
  destruct (L =? 0).
  - destruct (_ =? 0); discriminate.
  - destruct (negb _); [discriminate|]. destruct (negb _); discriminate.
Qed.

Section NeverRaises.

Context {F : Type} `{FloatOps F}.
Variable svc : services F.

Lemma read_nii_ne f msg : read_nii svc f <> Raise (ValueError msg).
Proof. unfold read_nii. destruct f as [p|]; [destruct (getnii svc p)|]; discriminate. Qed.

Lemma stack_set_ne (s : stack F) i a : stack_set s i a <> Raise (ValueError msg_metric).
Proof.
  unfold stack_set. destruct (negb _); [discriminate|].
  apply res_bind_ne; [apply set_item_ne|discriminate].
Qed.

Lemma add_image_ne im f : add_image svc im f <> Raise (ValueError msg_metric).
Proof.
  unfold add_image. apply res_bind_ne; [apply read_nii_ne|intros n].
  destruct (negb _); discriminate.
Qed.

Ltac nr_step :=
  first
    [ apply nr_mret | apply nr_emit
    | apply nr_lift;
      first [ apply get_item_ne | apply set_item_ne | apply get_item2_ne | apply set_item2_ne
            | apply read_nii_ne | apply stack_set_ne | apply inverse_transpose_ne
            | apply key_index_ne | apply frame_times_ne | apply mash_frames_ne
            | discriminate ]
    | apply nr_bind; [|intros] ].

Lemma save4dnii_nr lfrm fnii descrip retarr :
  never_raises (ValueError msg_metric) (save4dnii svc lfrm fnii descrip retarr).
Proof.
  unfold save4dnii. repeat nr_step.
  - apply nr_lift. apply fold_result_ne. intros s x. unfold save4d_step.
    apply res_bind_ne; [apply read_nii_ne|intros; apply stack_set_ne].
  - destruct retarr; nr_step.
Qed.

Lemma mash_file_nr fniis mniidir acc mgrp :
  never_raises (ValueError msg_metric) (mash_file svc fniis mniidir acc mgrp).
Proof.
  unfold mash_file. repeat nr_step.
  apply nr_lift. apply fold_result_ne. intros s x.
  apply res_bind_ne; [apply get_item_ne|intros; apply add_image_ne].
Qed.

Lemma align_one_nr fniis fref reg_tool m thr rsmpl mi st i :
  never_raises (ValueError msg_metric) (align_one svc fniis fref reg_tool m thr rsmpl mi st i).
Proof.
  unfold align_one. repeat nr_step.
  destruct (motion_exceeds _ _ _ _); [destruct (_ =? _)%string; [|destruct (_ =? _)%string]|];
    repeat nr_step.
Qed.

Lemma register_one_nr fref reg_tool fwhm costfun mniidir st mi mfrm :
  never_raises (ValueError msg_metric)
    (register_one svc fref reg_tool fwhm costfun mniidir st mi mfrm).
Proof.
  unfold register_one.
  destruct (_ =? _)%string; [|destruct (_ =? _)%string]; repeat nr_step.
  apply nr_lift. unfold set_row6. destruct (negb _); [discriminate|apply set_item_ne].
Qed.

Lemma register_group_nr fniis fref reg_tool m fwhm thr costfun mniidir rsmpl mfrms st x :
  never_raises (ValueError msg_metric)
    (register_group svc fniis fref reg_tool m fwhm thr costfun mniidir rsmpl mfrms st x).
Proof.
  unfold register_group. nr_step; [apply register_one_nr|]. nr_step; [nr_step|].
  apply nr_foldM. intros. apply align_one_nr.
Qed.

Lemma switch_metric_nr reg_tool m :
  never_raises (F := F) (ValueError msg_metric) (switch_metric reg_tool m).
Proof.
  unfold switch_metric. destruct (_ =? _)%string; [destruct (_ =? _)%string|]; repeat nr_step.
Qed.

(** Past the check of the metric, [align_frames] never raises the error
    of that check. *)
Lemma align_frames_valid_metric fniis times fref Cnt reg_tool save4d f4d outpath tr :
  In (reg_metric Cnt) reg_metric_list ->
  fst (align_frames svc fniis times fref Cnt reg_tool save4d f4d outpath tr)
  <> Raise (ValueError msg_metric).
Proof.
  intros Hm. revert tr. change (never_raises (ValueError msg_metric)
    (align_frames svc fniis times fref Cnt reg_tool save4d f4d outpath)).
  unfold align_frames.
  apply nr_bind; [apply nr_lift; rewrite (proj2 (check_reg_metric_spec _) Hm); discriminate|].
  intros _. apply nr_bind; [apply switch_metric_nr|intros m'].
  nr_step; [nr_step|]. nr_step; [destruct outpath; repeat nr_step|].
  nr_step; [nr_step|]. nr_step; [nr_step|]. nr_step; [nr_step|].
  nr_step; [apply nr_foldM; intros; apply mash_file_nr|].
  nr_step; [destruct (negb _); nr_step|].
  nr_step; [apply nr_foldM; intros; apply register_group_nr|].
  destruct save4d; [|nr_step].
  nr_step; [apply save4dnii_nr|nr_step].
Qed.

Lemma register_pair_nr reg_tool fwhm costfun niidir nii_frms st r f :
  never_raises (ValueError msg_metric)
    (register_pair svc reg_tool fwhm costfun niidir nii_frms st r f).
Proof.
  unfold register_pair. nr_step; [nr_step|]. nr_step; [nr_step|].
  destruct (_ =? _)%string; [|destruct (_ =? _)%string]; repeat nr_step.
Qed.

Lemma align_suvr_frame_nr reg_tool m thr rsmpl nii_frms R D S rfrm st ifrm :
  never_raises (ValueError msg_metric)
    (align_suvr_frame svc reg_tool m thr rsmpl nii_frms R D S rfrm st ifrm).
Proof.
  unfold align_suvr_frame. destruct (_ =? _)%nat; [nr_step|].
  nr_step; [nr_step|]. nr_step; [nr_step|].
  destruct (motion_exceeds _ _ _ _); [|repeat nr_step].
  nr_step; [|repeat nr_step].
  destruct (_ =? _)%string; [|destruct (_ =? _)%string]; repeat nr_step.
Qed.

Lemma argmin_ne l : argmin l <> Raise (ValueError msg_metric).
Proof. destruct l; discriminate. Qed.

Lemma align_suvr_valid_metric stat_tdata Cnt reg_tool outpath use_stored tr :
  In (reg_metric Cnt) reg_metric_list ->
  fst (align_suvr svc stat_tdata Cnt reg_tool outpath use_stored tr)
  <> Raise (ValueError msg_metric).
Proof.
  intros Hm. revert tr. change (never_raises (ValueError msg_metric)
    (align_suvr svc stat_tdata Cnt reg_tool outpath use_stored)).
  assert (Hentry : forall k, entry stat_tdata k <> Raise (ValueError msg_metric)).
  { intros k. unfold entry. destruct (_ !! _); discriminate. }
  unfold align_suvr.
  apply nr_bind; [apply nr_lift; rewrite (proj2 (check_reg_metric_spec _) Hm); discriminate|].
  intros _. apply nr_bind; [apply switch_metric_nr|intros m'].
  nr_step; [destruct outpath; repeat nr_step; apply nr_lift, Hentry|].
  nr_step; [nr_step|]. nr_step; [nr_step|]. nr_step; [nr_step|].
  nr_step; [nr_step|]. nr_step; [apply nr_lift, Hentry|].
  destruct (_ || _); [|nr_step].
  nr_step; [apply nr_lift, mapM_ne, Hentry|].
  nr_step.
  { apply nr_foldM. intros s c. unfold register_combination.
    nr_step; [nr_step|]. nr_step; [nr_step|].
    nr_step; apply register_pair_nr. }
  nr_step.
  { apply nr_lift. unfold reference_frames.
    apply res_bind_ne; [apply argmin_ne|intros].
    apply res_bind_ne; [apply argmin_ne|discriminate]. }
  nr_step; [nr_step|]. nr_step; [nr_step|]. nr_step; [nr_step|].
  nr_step; [apply nr_foldM; intros; apply align_suvr_frame_nr|].
  repeat nr_step.
Qed.

End NeverRaises.

(** * The threshold decision, the validation and the metric check *)

Section DecisionTheorems.

Context {F : Type} `{FloatOps F}.
Variable svc : services F.

(** C1, amended. With SPM or DIPY, a frame of [align_frames] and a frame
    of [align_suvr] other than the reference is resampled with the
    stored affine exactly when the metric in force exceeds the
    threshold: the configured metric, except that under DIPY ['rss'] is
    replaced by ['adst'].  Otherwise [align_frames] copies the frame and
    [align_suvr] keeps the original file. *)
Theorem motion_threshold_decision reg_tool m thr rsmpl_opth :
  reg_tool = "spm" \/ reg_tool = "dipy" ->
  In m reg_metric_list ->
  let m' := effective_metric reg_tool m in
  (forall fniis fref mi st i tr fn rt r d aff,
      fniis !! i = Some fn ->
      st_RT st !! mi = Some rt -> st_R st !! mi = Some r -> st_D st !! mi = Some d ->
      st_S st !! mi = Some aff ->
      (i < length (st_RTf st))%nat -> (st_fi st < length (st_faligned st))%nat ->
      let call := resample_call svc reg_tool fref fn aff rsmpl_opth in
      let dst := pjoin rsmpl_opth (basename fn) in
      exists st' ev,
        align_one svc fniis fref reg_tool m' thr rsmpl_opth mi st i tr = (Ok st', tr ++ [ev])
        /\ (ev = fst call <-> (thr < metric_value m' r d)%Q)
        /\ ((thr < metric_value m' r d)%Q ->
            st_faligned st' !! st_fi st = Some (Some (snd call)))
        /\ (~ (thr < metric_value m' r d)%Q ->
            ev = EvCopyFile fn dst /\ st_faligned st' !! st_fi st = Some (Some dst)))
  /\ (forall nii_frms R D S rfrm st ifrm tr fref fflo r d aff im_r im_o,
        ifrm <> rfrm ->
        nii_frms !! rfrm = Some fref -> nii_frms !! ifrm = Some fflo ->
        get_item2 R rfrm ifrm = Ok r -> get_item2 D rfrm ifrm = Ok d ->
        get_item2 S rfrm ifrm = Ok aff ->
        let call := resample_call svc reg_tool fref fflo aff rsmpl_opth in
        getnii svc (snd call) = Some im_r ->
        shape (nii_im im_r) = frame_shape (ss_niiim st) ->
        getnii svc fflo = Some im_o ->
        shape (nii_im im_o) = frame_shape (ss_niiim st) ->
        (ifrm < length (frames (ss_niiim st)))%nat ->
        exists st' tr',
          align_suvr_frame svc reg_tool m' thr rsmpl_opth nii_frms R D S rfrm st ifrm tr
          = (Ok st', tr')
          /\ (tr' = tr ++ [fst call] <-> (thr < metric_value m' r d)%Q)
          /\ ((thr < metric_value m' r d)%Q ->
              ss_fnii_aligned st' = ss_fnii_aligned st ++ [snd call])
          /\ (~ (thr < metric_value m' r d)%Q ->
              tr' = tr /\ ss_fnii_aligned st' = ss_fnii_aligned st ++ [fflo])).
Proof.
  intros Htool Hm m'. split.
  - intros. eapply align_one_decision; eauto.
  - intros. eapply align_suvr_frame_decision; eauto.
Qed.

(** C8. [align_frames] raises [ValueError], having neither registered
    nor written anything, when [times] is no list or array, when it is
    an array of a dimension other than 2, and when it is a 2D array of
    start/stop rows whose length is not the number of frames. *)
Theorem align_frames_rejects_times fniis times fref Cnt reg_tool save4d f4d outpath tr :
  times_ndim times = None
  \/ (exists d, times_ndim times = Some d /\ d <> 2%nat)
  \/ (exists rows, times = Times2D rows /\ Forall (fun r => (2 <= length r)%nat) rows
                   /\ length rows <> length fniis) ->
  exists msg w,
    align_frames svc fniis times fref Cnt reg_tool save4d f4d outpath tr
    = (Raise (ValueError msg), tr ++ w)
    /\ Forall (fun ev => is_warning ev = true) w.
Proof.
  intros Hbad. apply align_frames_invalid_times. now apply frame_times_invalid.
Qed.

Lemma align_frames_dipy_rss fniis times fref Cnt save4d f4d outpath tr :
  reg_metric Cnt = "rss" ->
  align_frames svc fniis times fref Cnt "dipy" save4d f4d outpath tr
  = align_frames svc fniis times fref (with_metric Cnt "adst") "dipy" save4d f4d outpath
      (tr ++ [EvWarning msg_dipy_rss]).
Proof. intros Hm. unfold align_frames. rewrite Hm. reflexivity. Qed.

Lemma align_suvr_dipy_rss stat_tdata Cnt outpath use_stored tr :
  reg_metric Cnt = "rss" ->
  align_suvr svc stat_tdata Cnt "dipy" outpath use_stored tr
  = align_suvr svc stat_tdata (with_metric Cnt "adst") "dipy" outpath use_stored
      (tr ++ [EvWarning msg_dipy_rss]).
Proof. intros Hm. unfold align_suvr. rewrite Hm. reflexivity. Qed.

(** C10, amended. [align_frames] and [align_suvr] raise the [ValueError]
    of an unrecognised metric exactly when the configured metric is
    neither ['rss'] nor ['adst'], and then before anything else; they
    raise other [ValueError]s later.  Under DIPY a configured ['rss'] is
    replaced, with a warning, by ['adst']: the decision is on the
    distance [D], and the call goes on as one configured with ['adst']. *)
Theorem reg_metric_check fniis times fref stat_tdata Cnt reg_tool save4d f4d outpath
    use_stored tr :
  (fst (align_frames svc fniis times fref Cnt reg_tool save4d f4d outpath tr)
     = Raise (ValueError msg_metric)
   <-> ~ In (reg_metric Cnt) reg_metric_list)
  /\ (fst (align_suvr svc stat_tdata Cnt reg_tool outpath use_stored tr)
        = Raise (ValueError msg_metric)
      <-> ~ In (reg_metric Cnt) reg_metric_list)
  /\ (~ In (reg_metric Cnt) reg_metric_list ->
      snd (align_frames svc fniis times fref Cnt reg_tool save4d f4d outpath tr) = tr
      /\ snd (align_suvr svc stat_tdata Cnt reg_tool outpath use_stored tr) = tr)
  /\ (reg_metric Cnt = "rss" ->
      effective_metric "dipy" (reg_metric Cnt) = "adst"
      /\ (forall thr r d,
            motion_exceeds (effective_metric "dipy" (reg_metric Cnt)) thr r d = Qgtb d thr)
      /\ align_frames svc fniis times fref Cnt "dipy" save4d f4d outpath tr
         = align_frames svc fniis times fref (with_metric Cnt "adst") "dipy" save4d f4d
             outpath (tr ++ [EvWarning msg_dipy_rss])
      /\ align_suvr svc stat_tdata Cnt "dipy" outpath use_stored tr
         = align_suvr svc stat_tdata (with_metric Cnt "adst") "dipy" outpath use_stored
             (tr ++ [EvWarning msg_dipy_rss])).
Proof.
  split; [|split; [|split]].
  - split.
    + intros E Hm. eapply align_frames_valid_metric; eauto.
    + intros Hm. now rewrite align_frames_bad_metric.
  - split.
    + intros E Hm. eapply align_suvr_valid_metric; eauto.
    + intros Hm. now rewrite align_suvr_bad_metric.
  - intros Hm. now rewrite align_frames_bad_metric, align_suvr_bad_metric.
  - intros Hm. split; [now rewrite Hm|]. split.
    + intros thr r d. rewrite Hm. unfold motion_exceeds. simpl.
      now rewrite Bool.andb_false_r, Bool.andb_true_r.
    + split; [now apply align_frames_dipy_rss|now apply align_suvr_dipy_rss].
Qed.

End DecisionTheorems.

(** * The theorems at work on the small study *)

Module Witness.
Import Demo.

Lemma motion_threshold_decision_witness :
  (exists st' ev,
      align_one demo_svc [fa] fref_demo "spm" "rss" 1%Q ["out"] 0 demo_reg_state 0 []
      = (Ok st', [ev])
      /\ ev = EvResampleSpm fref_demo fa (Some ["data"; "affine.npy"]) ["out"])
  /\ (exists st' tr',
        align_suvr_frame demo_svc "spm" "rss" 1%Q ["out"] [fa; fb]
          [[0%Q; 2%Q]; [2%Q; 0%Q]] [[0%Q; 5%Q]; [5%Q; 0%Q]]
          [[None; Some ["aff01"]]; [Some ["aff10"]; None]] 0 demo_suvr_state 1 []
        = (Ok st', tr')
        /\ tr' = [EvResampleSpm fa fb (Some ["aff01"]) ["out"]]).
Proof.
  destruct (motion_threshold_decision demo_svc "spm" "rss" 1%Q ["out"]
              (or_introl eq_refl) (or_introl eq_refl)) as [HA HB].
  split.
  - destruct (HA [fa] fref_demo 0%nat demo_reg_state 0%nat []
                fa [0%Q; 0%Q; 0%Q; 2%Q; 0%Q; 0%Q] 2%Q 5%Q (Some ["data"; "affine.npy"])
                eq_refl eq_refl eq_refl eq_refl eq_refl (Nat.lt_0_succ 0) (Nat.lt_0_succ 0))
      as (st' & ev & E & Hiff & _).
    exists st', ev. split; [exact E|]. apply Hiff. reflexivity.
  - destruct (HB [fa; fb] [[0%Q; 2%Q]; [2%Q; 0%Q]] [[0%Q; 5%Q]; [5%Q; 0%Q]]
                [[None; Some ["aff01"]]; [Some ["aff10"]; None]] 0%nat demo_suvr_state 1%nat []
                fa fb 2%Q 5%Q (Some ["aff01"]) demo_image demo_image
                (Nat.neq_succ_0 0) eq_refl eq_refl eq_refl eq_refl eq_refl
                eq_refl eq_refl eq_refl eq_refl (Nat.lt_succ_diag_r 1))
      as (st' & tr' & E & Hiff & _).
    exists st', tr'. split; [exact E|]. apply Hiff. reflexivity.
Defined.

(** Under DIPY with ['rss'] configured, frame [a] is resampled although
    [R], the metric of the configuration, is zero and does not exceed
    the threshold. *)
Lemma configured_rss_not_decisive_under_dipy :
  exists out tr',
    align_frames demo_svc [fa; fb; fc] demo_times fref_demo (demo_cfg "rss" 1%Q) "dipy"
      false None None [] = (Ok out, tr')
    /\ In (EvResampleDipy fref_demo fa (Some ["data"; "mashed"; "affine-dipy.npy"])
             ["data"; "mashed"; "aligned"]) tr'
    /\ metric out !! 0%nat = Some 0%Q
    /\ metric2 out !! 0%nat = Some 5%Q
    /\ ~ (reg_thrshld (demo_cfg "rss" 1%Q)
          < metric_value (reg_metric (demo_cfg "rss" 1%Q)) 0 5)%Q.
Proof.
  eexists _, _. split; [vm_compute; reflexivity|].
  split; [simpl; tauto|]. split; [reflexivity|]. split; [reflexivity|].
  intros Hlt. vm_compute in Hlt. discriminate.
Qed.

Lemma mashed_frame_idx_partition_witness :
  exists out tr',
    align_frames demo_svc [fa; fb; fc] demo_times fref_demo (demo_cfg "rss" 1%Q) "spm"
      false None None [] = (Ok out, tr')
    /\ Mash.partition_of (mashed_frame_idx out) 3
    /\ mashed_frame_idx out = [[0; 1]; [2]]%nat.
Proof.
  assert (Hv : Mash.valid_times [(0, 30); (30, 60); (60, 120)]).
  { exists [(0, 30); (30, 60); (60, 120)]. split; [apply Permutation_refl|].
    simpl. repeat split; discriminate. }
  destruct (mashed_frame_idx_partition demo_svc [fa; fb; fc] demo_times fref_demo
              (demo_cfg "rss" 1%Q) "spm" false None None []
              [(0, 30); (30, 60); (60, 120)] eq_refl Hv) as [Hret _].
  eexists _, _. split; [vm_compute; reflexivity|].
  split.
  - eapply proj1, Hret. vm_compute. reflexivity.
  - reflexivity.
Defined.

Lemma align_frames_outputs_in_order_witness :
  exists out tr',
    align_frames demo_svc [fa; fb; fc] demo_times fref_demo (demo_cfg "rss" 3%Q) "spm"
      false None None [] = (Ok out, tr')
    /\ exists mi grp mfrm r d aff,
         mashed_frame_idx out !! mi = Some grp /\ In 2%nat grp
         /\ mashed_files out !! mi = Some mfrm
         /\ metric out !! mi = Some r /\ metric2 out !! mi = Some d
         /\ affines out !! mi = Some aff
         /\ faligned out !! 2%nat
            = Some (Some (if motion_exceeds (effective_metric "spm" "rss") 3%Q r d
                          then snd (resample_call demo_svc "spm" fref_demo fc aff
                                      (aligned_dir [fa; fb; fc] None))
                          else pjoin (aligned_dir [fa; fb; fc] None) (basename fc)))
         /\ rot_trans out !! 2%nat
            = Some (reg_RT demo_svc "spm" fref_demo 8%Q "nmi"
                      (mashed_dir [fa; fb; fc] None) mfrm).
Proof.
  eexists _, _. split; [vm_compute; reflexivity|].
  eapply (align_frames_outputs_in_order demo_svc [fa; fb; fc] demo_times fref_demo
            (demo_cfg "rss" 3%Q) "spm" false None None [] _ _
            [(0, 30); (30, 60); (60, 120)] (or_introl eq_refl) eq_refl).
  - simpl. repeat split; discriminate.
  - vm_compute. reflexivity.
  - reflexivity.
Defined.

Lemma save4dnii_stacks_frames_witness :
  exists niia,
    save4dnii demo_svc (map Some [fa; fb]) ["out"; "f4d.nii.gz"] "AmyPET generated" true []
    = (Ok (Some niia),
       [EvArray2Nii (stack_array niia) [[1%Q]] ["out"; "f4d.nii.gz"] "AmyPET generated"
          [2; 1; 0]%nat [1; 1; 1]])
    /\ frames niia = [[Some 3%Q; Some 0%Q]; [Some 3%Q; Some 0%Q]].
Proof.
  assert (Hread : Forall2 (fun p n => getnii demo_svc p = Some n) [fa; fb]
                    [demo_image; demo_image]) by (repeat constructor).
  assert (Hshape : Forall (fun n : nii qfloat => shape (nii_im n) = shape (nii_im demo_image))
                     [demo_image]) by (repeat constructor).
  destruct (save4dnii_stacks_frames demo_svc fa [fb] demo_image [demo_image]
              ["out"; "f4d.nii.gz"] "AmyPET generated" true [] [2; 1; 0]%nat
              Hread Hshape eq_refl) as (E & _).
  eexists. split; [exact E|reflexivity].
Defined.

Lemma align_frames_rejects_times_witness :
  exists msg w,
    align_frames demo_svc [fa; fb; fc] (Times1D [30; 30; 60]) fref_demo (demo_cfg "rss" 1%Q)
      "spm" true None None [] = (Raise (ValueError msg), [] ++ w)
    /\ Forall (fun ev => is_warning ev = true) w.
Proof.
  apply align_frames_rejects_times. right. left. exists 1%nat.
  split; [reflexivity|discriminate].
Defined.

(** A 2D array without a stop column is not covered: the durations
    cannot be formed, and the error is an [IndexError]. *)
Example times_without_stop_column :
  fst (align_frames demo_svc [fa; fb] (Times2D [[5]; [7]; [9]]) fref_demo (demo_cfg "rss" 1%Q)
         "spm" true None None [])
  = Raise (IndexError "index 1 is out of bounds for axis 0").
Proof. reflexivity. Qed.

(** Times that are not valid: the first frame starts before time 0; the
    count checks pass, frame 0 is in two groups and frame 2 in none. *)
Example count_checks_pass_on_negative_start :
  Mash.mash_frames 60 3 [(-30, 30); (30, 60); (60, 90)] = Ok [[0; 1]; [0]]%nat.
Proof. reflexivity. Qed.

Lemma extract_vois_mutates_atlas_only_witness :
  let st' := snd (extract_vois demo_svc (ArgArray 0%nat) (ArgArray 1%nat) demo_vois MaskNone
                    None false (demo_store demo_pet3d)) in
  data (st' 1%nat) = [Some 1%Q; Some 0%Q] /\ st' 0%nat = demo_pet3d.
Proof.
  destruct (extract_vois_mutates_atlas_only demo_svc 0%nat 1%nat demo_vois MaskNone None false
              (demo_store demo_pet3d) (Nat.neq_0_succ 0)) as (_ & E & _ & E2).
  split; [exact E|exact E2].
Defined.

(** The same array given as PET image and as atlas is modified: a PET
    array stays as it was only when it is not the atlas array. *)
Example extract_vois_aliased_arrays :
  data (snd (extract_vois demo_svc (ArgArray 1%nat) (ArgArray 1%nat) demo_vois MaskNone None
               false (demo_store demo_pet3d)) 1%nat)
  = [Some 1%Q; Some 0%Q]
  /\ data (demo_store demo_pet3d 1%nat) = [Some 1%Q; None].
Proof. split; reflexivity. Qed.

(** On a 4D image the sums, the voxel count and the averages come out
    per frame. *)
Example extract_vois_4d :
  exists out r,
    fst (extract_vois demo_svc (ArgArray 0%nat) (ArgArray 1%nat) demo_vois MaskNone None
           false (demo_store demo_pet4d)) = (Ok out, [])
    /\ out !! "frontal" = Some r
    /\ vox_no r = NInt 1
    /\ voi_sum r = PerFrame [Some 4%Q; Some 8%Q]
    /\ voi_avg r = PerFrame [Some 4%Q; Some 8%Q].
Proof. eexists _, _. split; [vm_compute; reflexivity|]. repeat split; vm_compute; reflexivity. Qed.

Lemma reg_metric_check_witness :
  fst (align_frames demo_svc [fa; fb; fc] demo_times fref_demo (demo_cfg "mi" 1%Q) "spm"
         false None None []) = Raise (ValueError msg_metric)
  /\ snd (align_suvr demo_svc demo_stat (demo_cfg "mi" 1%Q) "spm" None false []) = []
  /\ align_frames demo_svc [fa; fb; fc] demo_times fref_demo (demo_cfg "rss" 1%Q) "dipy"
       false None None []
     = align_frames demo_svc [fa; fb; fc] demo_times fref_demo
         (with_metric (demo_cfg "rss" 1%Q) "adst") "dipy" false None None
         [EvWarning msg_dipy_rss].
Proof.
  assert (Hbad : ~ In "mi" reg_metric_list).
  { intros [E|[E|[]]]; discriminate. }
  split; [|split].
  - destruct (reg_metric_check demo_svc [fa; fb; fc] demo_times fref_demo demo_stat
                (demo_cfg "mi" 1%Q) "spm" false None None false []) as (H1 & _).
    apply H1. exact Hbad.
  - destruct (reg_metric_check demo_svc [fa; fb; fc] demo_times fref_demo demo_stat
                (demo_cfg "mi" 1%Q) "spm" false None None false []) as (_ & _ & H3 & _).
    apply H3. exact Hbad.
  - destruct (reg_metric_check demo_svc [fa; fb; fc] demo_times fref_demo demo_stat
                (demo_cfg "rss" 1%Q) "dipy" false None None false []) as (_ & _ & _ & H4).
    destruct (H4 eq_refl) as (_ & _ & E & _). exact E.
Defined.

(** With a recognised metric and a 1D list of durations [align_frames]
    raises a [ValueError] all the same. *)
Lemma value_error_with_recognised_metric :
  is_ValueError
    (fst (align_frames demo_svc [fa; fb; fc] (Times1D [30; 30; 60]) fref_demo
            (demo_cfg "rss" 1%Q) "spm" false None None []))
  /\ In (reg_metric (demo_cfg "rss" 1%Q)) reg_metric_list.
Proof. split; [exact I|left; reflexivity]. Qed.

End Witness.

(** * Further properties of the grouping stage *)

Module MashEdges.
Import Mash.

(** With no minimum duration the number of sets cannot be formed. *)
Lemma mash_frames_zero_min_dur n ts :
  (Forall (fun t => fst t <= snd t) ts -> mash_frames 0 n ts = Raise (ValueError msg_nan))
  /\ forall mfrms, mash_frames 0 n ts <> Ok mfrms.
Proof.
  assert (Hs : forall l, Forall (fun t : Z * Z => fst t <= snd t) l ->
                         sum_masked (frame_durations l) (short_frames 0 (frame_durations l)) = 0).
  { induction 1 as [|t l Ht _ IH]; [reflexivity|]. simpl.
    destruct (Z.ltb_spec (snd t - fst t) 0); [lia|]. now rewrite IH. }
  split.
  - intros Hts. unfold mash_frames, number_of_sets. now rewrite (Hs _ Hts).
  - intros mfrms. unfold mash_frames, number_of_sets. simpl.
    destruct (_ =? 0); discriminate.
Qed.

(** Without short frames every frame is a group of its own. *)
Lemma mash_frames_no_short_frames L ts :
  L <> 0 -> Forall (fun t => L <= snd t - fst t) ts ->
  mash_frames L (length ts) ts = Ok (map (fun j => [j]) (seq 0 (length ts))).
Proof.
  intros HL Hts.
  assert (Hshort : forall x, In x ts -> short L x = false).
  { intros x Hx. rewrite List.Forall_forall in Hts. specialize (Hts x Hx).
    unfold short. destruct (Z.ltb_spec (snd x - fst x) L); [lia|reflexivity]. }
  rewrite (MashFacts.mash_frames_unfold L ts HL).
  rewrite (MashFacts.sm_none _ _ Hshort). rewrite Z.div_0_l by assumption.
  cbn [Z.to_nat seq map concat length].
  assert (Hc : cnt (short L) ts = 0%nat).
  { rewrite <- (MashFacts.find_idx_length (short L) 0 ts).
    now rewrite (MashFacts.find_idx_none _ 0 _ Hshort). }
  rewrite Hc. cbn [Nat.eqb negb app].
  rewrite (MashFacts.find_idx_all (fun t => negb (short L t)) 0 ts); [reflexivity|].
  intros x Hx. now rewrite (Hshort x Hx).
Qed.

(** A short frame that stops after the last full window is left over:
    the first count check fails. *)
Lemma mash_frames_leftover L ts x :
  0 < L -> chronological 0 ts ->
  In x ts -> snd x - fst x < L -> (sm (short L) ts / L) * L < snd x ->
  mash_frames L (length ts) ts = Raise (ValueError msg_mash1).
Proof.
  intros HL Hc Hx Hsh Hend.
  rewrite (MashFacts.mash_frames_unfold L ts) by lia.
  cbv zeta. rewrite (MashFacts.windows_concat L 0 ts) by (lia || assumption).
  rewrite MashFacts.find_idx_length.
  assert (Hn : 0 <= sm (short L) ts / L).
  { apply Z.div_pos; [|lia]. eapply MashFacts.sm_nonneg; eauto. }
  rewrite Z2Nat.id by assumption.
  destruct (Nat.eqb_spec (cnt (win 0 (sm (short L) ts / L * L)) ts) (cnt (short L) ts))
    as [E|]; [|reflexivity].
  exfalso.
  pose proof (MashFacts.window_is_short L ts (sm (short L) ts / L) HL Hc eq_refl E x Hx) as Hw.
  assert (Hwt : win 0 (sm (short L) ts / L * L) x = true).
  { rewrite Hw. unfold short. apply Z.ltb_lt. lia. }
  apply (Bool.reflect_iff _ _ (MashFacts.win_spec _ _ _)) in Hwt. lia.
Qed.

End MashEdges.

(** * What a computation logs *)

Lemma eo_mret {F A} (P : event F -> Prop) (a : A) : emits_only P (mret a).
Proof. intros tr. exists []. rewrite app_nil_r. split; [reflexivity|constructor]. Qed.

Lemma eo_lift {F A} (P : event F -> Prop) (r : result A) : emits_only P (lift r).
Proof. intros tr. exists []. rewrite app_nil_r. split; [reflexivity|constructor]. Qed.

Lemma eo_emit {F} (P : event F -> Prop) ev : P ev -> emits_only P (emit ev).
Proof. intros Hev tr. exists [ev]. split; [reflexivity|]. now constructor. Qed.

Lemma eo_bind {F A B} (P : event F -> Prop) (m : M F A) (k : A -> M F B) :
  emits_only P m -> (forall a, emits_only P (k a)) -> emits_only P (m ≫= k).
Proof.
  intros Hm Hk tr. unfold mbind, M_bind. destruct (Hm tr) as (w & E & Hw).
  destruct (m tr) as [[a|e] tr1]; simpl in E; subst tr1.
  - destruct (Hk a (tr ++ w)) as (w' & E' & Hw'). exists (w ++ w').
    rewrite E', app_assoc. split; [reflexivity|]. now apply Forall_app.
  - exists w. auto.
Qed.

Lemma eo_foldM {F A S} (P : event F -> Prop) (f : S -> A -> M F S) l s :
  (forall s x, emits_only P (f s x)) -> emits_only P (foldM f l s).
Proof.
  intros Hf. revert s. induction l as [|x l IH]; intros s; simpl.
  - apply eo_mret.
  - apply eo_bind; [apply Hf|]. intros s'. apply IH.
Qed.

Lemma eo_weaken {F A} (P Q : event F -> Prop) (m : M F A) :
  (forall ev, P ev -> Q ev) -> emits_only P m -> emits_only Q m.
Proof.
  intros HPQ Hm tr. destruct (Hm tr) as (w & E & Hw). exists w. split; [assumption|].
  eapply Forall_impl; eauto.
Qed.

Lemma parent_pjoin (d : path) c : parent (pjoin d c) = d.
Proof. unfold parent, pjoin. apply removelast_last. Qed.

Lemma basename_pjoin (d : path) c : basename (pjoin d c) = c.
Proof. unfold basename, pjoin. apply last_last. Qed.

Ltac eo_step :=
  first [ apply eo_mret | apply eo_lift | apply eo_bind; [|intros] ].

(** * The calls of [save4dnii] and [align_frames] *)

Lemma eo_bind_lift_ok {F A B} (P : event F -> Prop) (a : A) (k : A -> M F B) :
  emits_only P (k a) -> emits_only P (lift (Ok a) ≫= k).
Proof. intros Hk tr. exact (Hk tr). Qed.

Lemma eo_bind_lift_raise {F A B} (P : event F -> Prop) e (k : A -> M F B) :
  emits_only P (lift (Raise e) ≫= k).
Proof. intros tr. exists []. rewrite app_nil_r. split; [reflexivity|constructor]. Qed.

Lemma switch_metric_events {F} (P : event F -> Prop) reg_tool m :
  (forall msg, P (EvWarning msg)) -> emits_only P (switch_metric reg_tool m).
Proof.
  intros HP. unfold switch_metric.
  destruct (reg_tool =? "dipy")%string; [|apply eo_mret].
  destruct (m =? "rss")%string; [|apply eo_mret].
  apply eo_bind; [apply eo_emit, HP|intros; apply eo_mret].
Qed.

Ltac eo_auto :=
  repeat first
    [ apply eo_mret | apply eo_lift
    | apply eo_emit; simpl; auto
    | apply eo_bind; [|intros] ].

Section AlignFramesEffects.

Context {F : Type} `{FloatOps F}.
Variable svc : services F.

Lemma save4dnii_events (P : event F -> Prop) lfrm fnii descrip retarr :
  (forall a aff t fl, P (EvArray2Nii a aff fnii descrip t fl)) ->
  emits_only P (save4dnii svc lfrm fnii descrip retarr).
Proof.
  intros HP. unfold save4dnii. eo_auto. destruct retarr; apply eo_mret.
Qed.

Lemma mash_file_events (P : event F -> Prop) fniis mniidir acc mgrp :
  (forall a aff c t fl,
      P (EvArray2Nii a aff (pjoin mniidir c) "mashed PET frames for registration" t fl)) ->
  emits_only P (mash_file svc fniis mniidir acc mgrp).
Proof. intros HP. unfold mash_file. eo_auto. Qed.

Lemma register_one_events (P : event F -> Prop) fref reg_tool fwhm costfun mniidir st mi mfrm :
  (reg_tool = "spm" -> forall r f c, P (EvCoregSpm r f c mniidir)) ->
  (reg_tool = "dipy" -> forall r f c, P (EvAffineDipy r f c mniidir)) ->
  emits_only P (register_one svc fref reg_tool fwhm costfun mniidir st mi mfrm).
Proof.
  intros Hs Hd. unfold register_one.
  destruct (String.eqb_spec reg_tool "spm") as [Es|_]; [eo_auto|].
  destruct (String.eqb_spec reg_tool "dipy") as [Ed|_]; eo_auto.
Qed.

Lemma align_one_events (P : event F -> Prop) fniis fref reg_tool m thr rsmpl mi st i :
  (reg_tool = "spm" -> forall r f a, P (EvResampleSpm r f a rsmpl)) ->
  (reg_tool = "dipy" -> forall r f a, P (EvResampleDipy r f a rsmpl)) ->
  (forall s c, P (EvCopyFile s (pjoin rsmpl c))) ->
  emits_only P (align_one svc fniis fref reg_tool m thr rsmpl mi st i).
Proof.
  intros Hs Hd Hc. unfold align_one. eo_auto.
  destruct (motion_exceeds _ _ _ _).
  - destruct (String.eqb_spec reg_tool "spm") as [Es|_]; [eo_auto|].
    destruct (String.eqb_spec reg_tool "dipy") as [Ed|_]; eo_auto.
  - eo_auto.
Qed.

Lemma register_group_events (P : event F -> Prop) fniis fref reg_tool m fwhm thr costfun
    mniidir rsmpl mfrms st x :
  (reg_tool = "spm" -> forall r f c, P (EvCoregSpm r f c mniidir)) ->
  (reg_tool = "dipy" -> forall r f c, P (EvAffineDipy r f c mniidir)) ->
  (reg_tool = "spm" -> forall r f a, P (EvResampleSpm r f a rsmpl)) ->
  (reg_tool = "dipy" -> forall r f a, P (EvResampleDipy r f a rsmpl)) ->
  (forall s c, P (EvCopyFile s (pjoin rsmpl c))) ->
  emits_only P (register_group svc fniis fref reg_tool m fwhm thr costfun mniidir rsmpl mfrms st x).
Proof.
  intros H1 H2 H3 H4 H5. unfold register_group.
  apply eo_bind; [now apply register_one_events|intros].
  apply eo_bind; [apply eo_lift|intros].
  apply eo_foldM. intros. now apply align_one_events.
Qed.

(** Every call [align_frames] makes is one of [align_frames_event]. *)
Lemma align_frames_events (fniis : list path) times fref Cnt reg_tool (save4d : bool)
    (f4d outpath : option path) :
  emits_only
    (align_frames_event reg_tool (mashed_dir fniis outpath) (aligned_dir fniis outpath)
       (if save4d then Some (f4d_path svc f4d (out_dir fniis outpath)) else None))
    (align_frames svc fniis times fref Cnt reg_tool save4d f4d outpath).
Proof.
  set (P := align_frames_event _ _ _ _).
  assert (Hbody : forall opth, opth = out_dir fniis outpath ->
            forall ts reg_metric, emits_only P
    (let mniidir := pjoin opth "mashed" in
     let rsmpl_opth := pjoin mniidir "aligned" in
     _ ← emit (EvCreateDir mniidir);
     _ ← emit (EvCreateDir rsmpl_opth);
     mfrms ← lift (Mash.mash_frames (frame_min_dur Cnt) (length fniis) ts);
     mfrms_out ← foldM (mash_file svc fniis mniidir) mfrms [];
     _ ← (if negb (length mfrms_out =? length mfrms)%nat
          then lift (Raise (ValueError msg_mash_files)) else mret tt);
     let n := length mfrms_out in
     let st0 := {| st_S := replicate n None; st_R := replicate n 0%Q; st_D := replicate n 0%Q;
                   st_RT := replicate n (replicate 6 0%Q);
                   st_RTf := replicate (length fniis) (replicate 6 0%Q);
                   st_faligned := replicate (length fniis) None; st_fi := 0 |} in
     st ← foldM (register_group svc fniis fref reg_tool reg_metric (reg_fwhm Cnt)
                   (reg_thrshld Cnt) (reg_costfun Cnt) mniidir rsmpl_opth mfrms)
            (enumerate mfrms_out) st0;
     let out := {| mashed_frame_idx := mfrms; mashed_files := mfrms_out;
                   affines := st_S st; metric := st_R st; metric2 := st_D st;
                   rot_trans := st_RTf st; faligned := st_faligned st;
                   f4d_out := None; im4d := None |} in
     if save4d then
       let falign_nii :=
         match f4d with
         | Some p => if is_dir svc (parent p) then p
                     else pjoin opth "aligned_via_mashing_using_ref_4D.nii.gz"
         | None => pjoin opth "aligned_via_mashing_using_ref_4D.nii.gz"
         end in
       niia ← save4dnii svc (st_faligned st) falign_nii "AmyPET-aligned frames" true;
       mret {| mashed_frame_idx := mfrms; mashed_files := mfrms_out;
               affines := st_S st; metric := st_R st; metric2 := st_D st;
               rot_trans := st_RTf st; faligned := st_faligned st;
               f4d_out := Some falign_nii; im4d := niia |}
     else mret out)).
  { intros opth -> ts reg_metric. cbv zeta.
    fold (mashed_dir fniis outpath). fold (aligned_dir fniis outpath).
    fold (f4d_path svc f4d (out_dir fniis outpath)).
    apply eo_bind; [apply eo_emit; left; reflexivity|intros].
    apply eo_bind; [apply eo_emit; right; reflexivity|intros].
    apply eo_bind; [apply eo_lift|intros].
    apply eo_bind.
    { apply eo_foldM. intros. apply mash_file_events. intros. left.
      split; [apply parent_pjoin|reflexivity]. }
    intros. apply eo_bind; [destruct (negb _); eo_auto|intros].
    apply eo_bind.
    { apply eo_foldM. intros. apply register_group_events; simpl; auto.
      intros. apply parent_pjoin. }
    intros. destruct save4d; [|apply eo_mret].
    apply eo_bind; [|intros; apply eo_mret].
    apply save4dnii_events. intros. right. split; reflexivity. }
  unfold align_frames.
  apply eo_bind; [apply eo_lift|intros].
  apply eo_bind; [apply switch_metric_events; intros; exact I|intros].
  apply eo_bind; [apply eo_lift|intros].
  destruct outpath as [p|].
  - apply (eo_bind_lift_ok P p). now apply Hbody.
  - destruct fniis as [|fn0 fniis'].
    + intros tr. exists []. rewrite app_nil_r. split; [reflexivity|constructor].
    + intros tr. exact (Hbody (parent fn0) eq_refl _ _ tr).
Qed.

End AlignFramesEffects.

(** * [save4dnii]: one write, at the end *)

Section Save4dEffects.

Context {F : Type} `{FloatOps F}.
Variable svc : services F.

Lemma stack_set_inv (s s' : stack F) i (a : ndarray F) :
  stack_set s i a = Ok s' ->
  shape a = frame_shape s /\ (i < length (frames s))%nat
  /\ s' = {| frame_shape := frame_shape s; frames := <[i := data a]> (frames s) |}.
Proof.
  unfold stack_set. destruct (bool_decide_reflect (shape a = frame_shape s)) as [Es|]; simpl;
    [|discriminate].
  intros E. apply result_bind_inv in E as (fr & E1 & E2).
  apply set_item_inv in E1 as [Hi ->]. injection E2 as <-. auto.
Qed.

Lemma save4d_loop_inv l (s s' : stack F) :
  fold_result (save4d_step svc) l s = Ok s' ->
  frame_shape s' = frame_shape s /\ length (frames s') = length (frames s)
  /\ Forall (fun x => snd x <> None) l
  /\ (nan_free s -> nan_free s').
Proof.
  revert s. induction l as [|[i f] l IH]; intros s E; simpl in E.
  - injection E as <-. repeat split; auto.
  - apply result_bind_inv in E as (s1 & E1 & E).
    unfold save4d_step in E1. cbn [fst snd] in E1.
    apply result_bind_inv in E1 as (im & Eread & Eset).
    apply stack_set_inv in Eset as (_ & Hi & ->).
    destruct (IH _ E) as (Hs & Hl & Hn & Hc). cbn [frame_shape frames] in *.
    rewrite length_insert in Hl. repeat split; auto.
    + constructor; [|assumption]. simpl. intros ->. discriminate.
    + intros Hfree. apply Hc. unfold nan_free. cbn [frames].
      apply Forall_insert; [assumption|].
      apply List.Forall_forall. intros v Hv. eapply nan_to_zero_clean; eauto.
Qed.

Lemma stack_zeros_nan_free n shp : nan_free (stack_zeros n shp : stack F).
Proof.
  unfold nan_free, stack_zeros. cbn [frames].
  apply Forall_replicate, Forall_replicate, f0_not_nan.
Qed.

(** What a call of [save4dnii] comes to: it raises with nothing
    written, or it writes the stack once and returns. *)
Lemma save4dnii_cases lfrm fnii descrip retarr tr :
  (exists e, save4dnii svc lfrm fnii descrip retarr tr = (Raise e, tr))
  \/ (exists p0 n0 niia trnsp,
        lfrm !! 0%nat = Some (Some p0) /\ getnii svc p0 = Some n0
        /\ inverse_transpose (nii_transpose n0) = Ok trnsp
        /\ frame_shape niia = shape (nii_im n0)
        /\ length (frames niia) = length lfrm
        /\ nan_free niia
        /\ Forall (fun f => f <> None) lfrm
        /\ save4dnii svc lfrm fnii descrip retarr tr
           = (Ok (if retarr then Some niia else None),
              tr ++ [EvArray2Nii (stack_array niia) (nii_affine n0) fnii descrip trnsp
                       (nii_flip n0)])).
Proof.
  assert (Hcomp : save4dnii svc lfrm fnii descrip retarr tr
    = match lfrm with
      | [] => (Raise (IndexError "index out of range"), tr)
      | f0_ :: _ =>
          match read_nii svc f0_ with
          | Raise e => (Raise e, tr)
          | Ok tmp =>
              match fold_result (save4d_step svc) (enumerate lfrm)
                      (stack_zeros (length lfrm) (shape (nii_im tmp))) with
              | Raise e => (Raise e, tr)
              | Ok niia =>
                  match inverse_transpose (nii_transpose tmp) with
                  | Raise e => (Raise e, tr)
                  | Ok trnsp =>
                      (Ok (if retarr then Some niia else None),
                       tr ++ [EvArray2Nii (stack_array niia) (nii_affine tmp) fnii descrip
                                trnsp (nii_flip tmp)])
                  end
              end
          end
      end).
  { unfold save4dnii. destruct lfrm as [|f0_ lfrm']; [reflexivity|].
    set (lf := f0_ :: lfrm').
    change (get_item lf 0) with (Ok f0_ : result (option path)).
    unfold mbind at 1, M_bind at 1, lift at 1.
    unfold mbind at 1, M_bind at 1, lift at 1.
    destruct (read_nii svc f0_) as [n0|e]; [|reflexivity].
    unfold mbind at 1, M_bind at 1, lift at 1.
    destruct (fold_result _ _ _) as [niia|e]; [|reflexivity].
    unfold mbind at 1, M_bind at 1, lift at 1.
    destruct (inverse_transpose _) as [trnsp|e]; [|reflexivity].
    unfold mbind at 1, M_bind at 1, emit at 1.
    destruct retarr; reflexivity. }
  rewrite Hcomp. clear Hcomp.
  destruct lfrm as [|f0_ lfrm'] eqn:El; [left; eexists; reflexivity|]. rewrite <- El.
  destruct (read_nii svc f0_) as [n0|e] eqn:Er; [|left; eexists; reflexivity].
  destruct (fold_result _ _ _) as [niia|e] eqn:Ef; [|left; eexists; reflexivity].
  destruct (inverse_transpose _) as [trnsp|e] eqn:Et; [|left; eexists; reflexivity].
  right. destruct f0_ as [p0|]; [|discriminate].
  unfold read_nii in Er. destruct (getnii svc p0) as [n|] eqn:Eg0; [|discriminate].
  injection Er as ->.
  destruct (save4d_loop_inv _ _ _ Ef) as (Hs & Hl & Hn & Hc).
  exists p0, n0, niia, trnsp. split; [now subst lfrm|]. split; [assumption|].
  split; [assumption|]. split; [assumption|]. split.
  { rewrite Hl. unfold stack_zeros. cbn [frames]. apply length_replicate. }
  split; [apply Hc, stack_zeros_nan_free|]. split; [|reflexivity].
  unfold enumerate in Hn. apply List.Forall_forall. intros f Hf ->.
  apply In_nth_error in Hf as (k & Hk).
  assert (Hin : In (k, @None path) (combine (seq 0 (length lfrm)) lfrm)).
  { apply (nth_error_In _ k).
    assert (Hlt : (k < length lfrm)%nat) by (apply nth_error_Some; congruence).
    clear -Hk Hlt. rewrite <- (Nat.add_0_l k) at 2. generalize 0%nat as c.
    revert k Hk Hlt. induction lfrm as [|x l IH]; intros k Hk Hlt c; [simpl in Hlt; lia|].
    destruct k; simpl in *.
    - injection Hk as ->. now rewrite Nat.add_0_r.
    - rewrite <- Nat.add_succ_comm. apply IH; [assumption|lia]. }
  rewrite List.Forall_forall in Hn. now apply (Hn _ Hin).
Qed.

(** X1. [save4dnii] writes at most once, and only after every frame has
    been read: a call that raises has logged nothing, a call that returns
    has written the one 4D file, of as many frames as the list has files,
    none of them holding a NaN.  An empty list raises [IndexError], and a
    list with an entry [None] makes the call raise. *)
Theorem save4dnii_writes_once lfrm fnii descrip retarr tr :
  (forall e tr', save4dnii svc lfrm fnii descrip retarr tr = (Raise e, tr') -> tr' = tr)
  /\ (forall r tr', save4dnii svc lfrm fnii descrip retarr tr = (Ok r, tr') ->
        exists niia ev,
          r = (if retarr then Some niia else None)
          /\ tr' = tr ++ [ev] /\ written ev = Some fnii
          /\ length (frames niia) = length lfrm
          /\ (forall fr v, In fr (frames niia) -> In v fr -> fisnan v = false))
  /\ (lfrm = [] -> exists msg, save4dnii svc lfrm fnii descrip retarr tr
                               = (Raise (IndexError msg), tr))
  /\ (In None lfrm -> exists e, fst (save4dnii svc lfrm fnii descrip retarr tr) = Raise e).
Proof.
  destruct (save4dnii_cases lfrm fnii descrip retarr tr)
    as [(e0 & E)|(p0 & n0 & niia & trnsp & H0 & Hg & Ht & Hs & Hl & Hc & Hn & E)].
  - split; [|split; [|split]].
    + intros e tr' E'. rewrite E in E'. congruence.
    + intros r tr' E'. rewrite E in E'. discriminate.
    + intros ->. eexists. reflexivity.
    + intros _. exists e0. now rewrite E.
  - split; [|split; [|split]].
    + intros e tr' E'. rewrite E in E'. discriminate.
    + intros r tr' E'. rewrite E in E'. injection E' as <- <-.
      eexists niia, _. split; [reflexivity|]. split; [reflexivity|]. split; [reflexivity|].
      split; [assumption|]. intros fr v Hfr Hv. unfold nan_free in Hc.
      rewrite List.Forall_forall in Hc. specialize (Hc fr Hfr).
      rewrite List.Forall_forall in Hc. now apply Hc.
    + intros ->. discriminate.
    + intros Hin. rewrite List.Forall_forall in Hn. now destruct (Hn None Hin).
Qed.

End Save4dEffects.

(** * [align_frames]: the stages of a call *)

Section AlignFramesRun.

Context {F : Type} `{FloatOps F}.
Variable svc : services F.

(** A call of [align_frames] that has its times and its output folder
    creates the two folders and goes on to the grouping. *)
Lemma align_frames_to_grouping (fniis : list path) times fref Cnt reg_tool (save4d : bool)
    (f4d outpath : option path) tr ts :
  In (reg_metric Cnt) reg_metric_list ->
  frame_times (length fniis) times = Ok ts ->
  (outpath = None -> fniis <> []) ->
  exists w, Forall (fun ev => is_warning ev = true) w
    /\ forall e, Mash.mash_frames (frame_min_dur Cnt) (length fniis) ts = Raise e ->
         align_frames svc fniis times fref Cnt reg_tool save4d f4d outpath tr
         = (Raise e, tr ++ w ++ [EvCreateDir (mashed_dir fniis outpath);
                                 EvCreateDir (aligned_dir fniis outpath)]).
Proof.
  intros Hm Hts Hout.
  destruct (switch_metric_run (F := F) reg_tool (reg_metric Cnt) tr) as (w & Ew & Hw).
  exists w. split; [assumption|]. intros e Ee.
  unfold align_frames.
  rewrite (proj2 (check_reg_metric_spec _) Hm).
  unfold mbind at 1, M_bind at 1, lift at 1.
  unfold mbind at 1, M_bind at 1. rewrite Ew.
  rewrite Hts. unfold mbind at 1, M_bind at 1, lift at 1.
  assert (Eo : forall t : list (event F),
            (match outpath with
             | None => fn0 ← lift (get_item fniis 0); mret (parent fn0)
             | Some p => mret p
             end : M F path) t = (Ok (out_dir fniis outpath), t)).
  { intros t. destruct outpath as [p|]; [reflexivity|].
    destruct fniis; [now destruct Hout|reflexivity]. }
  unfold mbind at 1, M_bind at 1. rewrite Eo.
  unfold mbind at 1, M_bind at 1, emit at 1.
  unfold mbind at 1, M_bind at 1, emit at 1.
  unfold mbind at 1, M_bind at 1, lift at 1. rewrite Ee.
  unfold aligned_dir, mashed_dir, out_dir. now rewrite <- !app_assoc.
Qed.

(** What a returning call of [align_frames] went through, stage by
    stage. *)
Lemma align_frames_run_all fniis times fref Cnt reg_tool save4d f4d outpath tr out tr' :
  align_frames svc fniis times fref Cnt reg_tool save4d f4d outpath tr = (Ok out, tr') ->
  exists ts st t0 t1 t2,
    frame_times (length fniis) times = Ok ts
    /\ Mash.mash_frames (frame_min_dur Cnt) (length fniis) ts = Ok (mashed_frame_idx out)
    /\ foldM (mash_file svc fniis (mashed_dir fniis outpath)) (mashed_frame_idx out) [] t0
       = (Ok (mashed_files out), t1)
    /\ length (mashed_files out) = length (mashed_frame_idx out)
    /\ foldM (register_group svc fniis fref reg_tool (effective_metric reg_tool (reg_metric Cnt))
                (reg_fwhm Cnt) (reg_thrshld Cnt) (reg_costfun Cnt)
                (mashed_dir fniis outpath) (aligned_dir fniis outpath) (mashed_frame_idx out))
             (enumerate (mashed_files out))
             {| st_S := replicate (length (mashed_files out)) None;
                st_R := replicate (length (mashed_files out)) 0%Q;
                st_D := replicate (length (mashed_files out)) 0%Q;
                st_RT := replicate (length (mashed_files out)) (replicate 6 0%Q);
                st_RTf := replicate (length fniis) (replicate 6 0%Q);
                st_faligned := replicate (length fniis) None; st_fi := 0 |} t1
       = (Ok st, t2)
    /\ affines out = st_S st /\ metric out = st_R st /\ metric2 out = st_D st
    /\ rot_trans out = st_RTf st /\ faligned out = st_faligned st
    /\ (if save4d
        then save4dnii svc (st_faligned st) (f4d_path svc f4d (out_dir fniis outpath))
               "AmyPET-aligned frames" true t2 = (Ok (im4d out), tr')
             /\ f4d_out out = Some (f4d_path svc f4d (out_dir fniis outpath))
        else tr' = t2 /\ f4d_out out = None /\ im4d out = None).
Proof.
  unfold align_frames. intros E.
  apply M_bind_inv in E as (? & t1 & E1 & E).
  apply M_bind_inv in E as (m' & t2 & E2 & E).
  destruct (switch_metric_run reg_tool (reg_metric Cnt) t1) as (w & Ew & _).
  rewrite Ew in E2. injection E2 as <- <-.
  apply M_bind_inv in E as (ts & t3 & E3 & E). apply lift_inv in E3 as [E3 ->].
  apply M_bind_inv in E as (opth & t4 & E4 & E).
  assert (Hopth : opth = out_dir fniis outpath).
  { unfold out_dir. destruct outpath as [p|].
    - apply mret_inv in E4 as [-> _]. reflexivity.
    - apply M_bind_inv in E4 as (fn0 & t5 & E5 & E4). apply lift_inv in E5 as [E5 _].
      apply mret_inv in E4 as [<- _]. apply get_item_inv in E5.
      destruct fniis; [discriminate|]. simpl in E5. now injection E5 as ->. }
  subst opth. fold (mashed_dir fniis outpath) in E. fold (aligned_dir fniis outpath) in E.
  fold (f4d_path svc f4d (out_dir fniis outpath)) in E.
  apply M_bind_inv in E as (? & t5 & E5 & E).
  apply M_bind_inv in E as (? & t6 & E6 & E).
  apply M_bind_inv in E as (mfrms & t7 & E7 & E). apply lift_inv in E7 as [E7 ->].
  apply M_bind_inv in E as (mfrms_out & t8 & E8 & E).
  apply M_bind_inv in E as (? & t9 & E9 & E).
  apply M_bind_inv in E as (st & t10 & E10 & E).
  assert (Hlen : length mfrms_out = length mfrms /\ t9 = t8).
  { destruct (Nat.eqb_spec (length mfrms_out) (length mfrms)).
    - simpl in E9. apply mret_inv in E9 as [_ ->]. auto.
    - simpl in E9. apply lift_inv in E9 as [? _]. discriminate. }
  destruct Hlen as [Hlen ->].
  destruct save4d.
  - apply M_bind_inv in E as (niia & t11 & E11 & E). apply mret_inv in E as [<- <-].
    exists ts, st, t6, t8, t10. cbn [mashed_frame_idx mashed_files affines metric metric2
      rot_trans faligned f4d_out im4d]. repeat split; assumption || reflexivity.
  - apply mret_inv in E as [<- <-].
    exists ts, st, t6, t8, tr'. cbn [mashed_frame_idx mashed_files affines metric metric2
      rot_trans faligned f4d_out im4d]. repeat split; assumption || reflexivity.
Qed.

End AlignFramesRun.

(** * [align_frames]: where it writes and which tool it calls *)

Lemma parent_prefix (p : path) : parent p `prefix_of` p.
Proof.
  unfold parent. destruct p as [|c p]; [reflexivity|].
  exists [List.last (c :: p) EmptyString]. now apply app_removelast_last.
Qed.

Section AlignFramesFrame.

Context {F : Type} `{FloatOps F}.
Variable svc : services F.

(** X2. Whatever the outcome of a call, [align_frames] creates folders,
    writes images, lets a tool write and copies files only inside the
    folder ['mashed'] of its output folder; the one exception is the 4D
    file, written when [save4d] is set. *)
Theorem align_frames_writes_under_mashed (fniis : list path) times fref Cnt reg_tool
    (save4d : bool) (f4d outpath : option path) tr :
  exists w,
    snd (align_frames svc fniis times fref Cnt reg_tool save4d f4d outpath tr) = tr ++ w
    /\ Forall (fun ev => writes_under (mashed_dir fniis outpath) ev
                         \/ (save4d = true
                             /\ written ev = Some (f4d_path svc f4d (out_dir fniis outpath))))
              w.
Proof.
  apply (eo_weaken
           (align_frames_event reg_tool (mashed_dir fniis outpath) (aligned_dir fniis outpath)
              (if save4d then Some (f4d_path svc f4d (out_dir fniis outpath)) else None)));
    [|apply align_frames_events].
  assert (Hr : mashed_dir fniis outpath `prefix_of` aligned_dir fniis outpath)
    by (unfold aligned_dir, pjoin; now apply prefix_app_r).
  intros ev Hev. unfold writes_under.
  destruct ev; simpl in *.
  - now left.
  - left. destruct Hev as [->| ->]; [reflexivity|assumption].
  - destruct Hev as [[<- _]|[Hf _]].
    + left. apply parent_prefix.
    + right. destruct save4d; [|discriminate]. split; [reflexivity|]. now rewrite <- Hf.
  - left. now destruct Hev as [_ ->].
  - left. now destruct Hev as [_ ->].
  - left. now destruct Hev as [_ ->].
  - left. now destruct Hev as [_ ->].
  - left. etrans; [exact Hr|]. rewrite <- Hev. apply parent_prefix.
  - destruct Hev.
Qed.

(** X3. [align_frames] calls no registration or resampling tool but the
    one [reg_tool] names.  A [reg_tool] that is neither ['spm'] nor
    ['dipy'] is not refused: the call goes on without any registration
    or resampling. *)
Theorem align_frames_calls_selected_tool (fniis : list path) times fref Cnt reg_tool
    (save4d : bool) (f4d outpath : option path) tr :
  exists w,
    snd (align_frames svc fniis times fref Cnt reg_tool save4d f4d outpath tr) = tr ++ w
    /\ Forall (fun ev => (is_spm_event ev = true -> reg_tool = "spm")
                         /\ (is_dipy_event ev = true -> reg_tool = "dipy")) w.
Proof.
  apply (eo_weaken
           (align_frames_event reg_tool (mashed_dir fniis outpath) (aligned_dir fniis outpath)
              (if save4d then Some (f4d_path svc f4d (out_dir fniis outpath)) else None)));
    [|apply align_frames_events].
  intros ev Hev. destruct ev; simpl in *; split; intros; try discriminate; tauto.
Qed.

End AlignFramesFrame.

(** * [align_frames]: what the registration loop leaves untouched *)

Section AlignFramesState.

Context {F : Type} `{FloatOps F}.
Variable svc : services F.

Lemma register_one_keeps fref reg_tool fwhm costfun mniidir st mi mfrm tr st1 tr1 :
  register_one svc fref reg_tool fwhm costfun mniidir st mi mfrm tr = (Ok st1, tr1) ->
  st_RTf st1 = st_RTf st /\ st_faligned st1 = st_faligned st /\ st_fi st1 = st_fi st
  /\ length (st_S st1) = length (st_S st) /\ length (st_R st1) = length (st_R st)
  /\ length (st_D st1) = length (st_D st) /\ length (st_RT st1) = length (st_RT st)
  /\ (reg_tool <> "spm" -> st_R st1 = st_R st /\ st_RT st1 = st_RT st)
  /\ (reg_tool <> "spm" -> reg_tool <> "dipy" -> st_S st1 = st_S st /\ st_D st1 = st_D st).
Proof.
  unfold register_one. intros E.
  destruct (String.eqb_spec reg_tool "spm") as [Es|Es].
  - apply M_bind_inv in E as (? & t1 & E1 & E).
    apply M_bind_inv in E as (S' & t2 & E2 & E). apply lift_inv in E2 as [E2 ->].
    apply M_bind_inv in E as (RT' & t3 & E3 & E). apply lift_inv in E3 as [E3 ->].
    apply M_bind_inv in E as (R' & t4 & E4 & E). apply lift_inv in E4 as [E4 ->].
    apply M_bind_inv in E as (D' & t5 & E5 & E). apply lift_inv in E5 as [E5 ->].
    apply mret_inv in E as [<- _]. cbn.
    apply set_item_inv in E2 as [_ ->]. apply set_item_inv in E4 as [_ ->].
    apply set_item_inv in E5 as [_ ->].
    unfold set_row6 in E3. destruct (negb _); [discriminate|].
    apply set_item_inv in E3 as [_ ->].
    rewrite !length_insert. repeat split; congruence.
  - destruct (String.eqb_spec reg_tool "dipy") as [Ed|Ed].
    + apply M_bind_inv in E as (? & t1 & E1 & E).
      apply M_bind_inv in E as (S' & t2 & E2 & E). apply lift_inv in E2 as [E2 ->].
      apply M_bind_inv in E as (D' & t5 & E5 & E). apply lift_inv in E5 as [E5 ->].
      apply mret_inv in E as [<- _]. cbn.
      apply set_item_inv in E2 as [_ ->]. apply set_item_inv in E5 as [_ ->].
      rewrite !length_insert. repeat split; congruence.
    + apply mret_inv in E as [<- _]. repeat split; reflexivity.
Qed.

Lemma align_one_keeps fniis fref reg_tool m thr rsmpl mi st i tr st' tr' :
  align_one svc fniis fref reg_tool m thr rsmpl mi st i tr = (Ok st', tr') ->
  st_S st' = st_S st /\ st_R st' = st_R st /\ st_D st' = st_D st /\ st_RT st' = st_RT st
  /\ length (st_faligned st') = length (st_faligned st)
  /\ exists rt, st_RT st !! mi = Some rt /\ st_RTf st' = <[i := rt]> (st_RTf st).
Proof.
  unfold align_one. intros E.
  apply M_bind_inv in E as (rt & t1 & E1 & E). apply lift_inv in E1 as [E1 ->].
  apply M_bind_inv in E as (RTf & t2 & E2 & E). apply lift_inv in E2 as [E2 ->].
  apply M_bind_inv in E as (r & t3 & E3 & E). apply lift_inv in E3 as [E3 ->].
  apply M_bind_inv in E as (d & t4 & E4 & E). apply lift_inv in E4 as [E4 ->].
  apply M_bind_inv in E as (fal & t5 & E5 & E).
  apply mret_inv in E as [<- _]. cbn.
  apply get_item_inv in E1. apply set_item_inv in E2 as [_ ->].
  assert (Hl : length fal = length (st_faligned st)).
  { destruct (motion_exceeds _ _ _ _).
    - destruct (reg_tool =? "spm")%string; [|destruct (reg_tool =? "dipy")%string].
      + apply M_bind_inv in E5 as (fn & u1 & G1 & E5).
        apply M_bind_inv in E5 as (aff & u2 & G2 & E5).
        apply M_bind_inv in E5 as (? & u3 & G3 & E5).
        apply lift_inv in E5 as [E5 _]. apply set_item_inv in E5 as [_ ->].
        apply length_insert.
      + apply M_bind_inv in E5 as (fn & u1 & G1 & E5).
        apply M_bind_inv in E5 as (aff & u2 & G2 & E5).
        apply M_bind_inv in E5 as (? & u3 & G3 & E5).
        apply lift_inv in E5 as [E5 _]. apply set_item_inv in E5 as [_ ->].
        apply length_insert.
      + apply mret_inv in E5 as [<- _]. reflexivity.
    - apply M_bind_inv in E5 as (fn & u1 & G1 & E5).
      apply M_bind_inv in E5 as (fal' & u2 & G2 & E5).
      apply M_bind_inv in E5 as (? & u3 & G3 & E5).
      apply mret_inv in E5 as [<- _]. apply lift_inv in G2 as [G2 _].
      apply set_item_inv in G2 as [_ ->]. apply length_insert. }
  repeat split; try reflexivity; try assumption. eauto.
Qed.

Lemma register_group_kept fniis fref reg_tool m fwhm thr costfun mniidir rsmpl mfrms
    n nfrm st x tr st' tr' :
  kept reg_tool n nfrm st ->
  register_group svc fniis fref reg_tool m fwhm thr costfun mniidir rsmpl mfrms st x tr
    = (Ok st', tr') ->
  kept reg_tool n nfrm st'.
Proof.
  intros Hk E. unfold register_group in E.
  apply M_bind_inv in E as (st1 & t1 & E1 & E).
  apply M_bind_inv in E as (mgrp & t2 & E2 & E). apply lift_inv in E2 as [_ ->].
  apply register_one_keeps in E1 as (H1 & H2 & H3 & L1 & L2 & L3 & L4 & Hns & Hnn).
  assert (Hk1 : kept reg_tool n nfrm st1).
  { destruct Hk as (K1 & K2 & K3 & K4 & K5 & K6 & K7 & K8).
    unfold kept. rewrite L1, L2, L3, L4, H1, H2.
    repeat split; try assumption.
    - destruct (Hns H0) as [-> _]. now apply K7.
    - destruct (Hns H0) as [_ ->]. now apply K7.
    - now apply K7.
    - destruct (Hnn H0 H4) as [-> _]. now apply K8.
    - destruct (Hnn H0 H4) as [_ ->]. now apply K8. }
  clear Hk H1 H2 H3 L1 L2 L3 L4 Hns Hnn.
  refine (foldM_inv (F := F) _ (fun _ s => kept reg_tool n nfrm s) mgrp _ _ _ _ _ Hk1 E).
  intros pre i post s0 tr0 s1 tr1 _ Hs0 Es.
  apply align_one_keeps in Es as (E1 & E2 & E3 & E4 & E5 & rt & Hrt & E6).
  destruct Hs0 as (K1 & K2 & K3 & K4 & K5 & K6 & K7 & K8).
  unfold kept. rewrite E1, E2, E3, E4, E5, E6, length_insert.
  repeat split; try assumption; try (now apply K7); try (now apply K8).
  destruct (K7 H0) as (_ & Hrt0 & ->). rewrite Hrt0 in Hrt.
  apply lookup_replicate in Hrt as [-> _]. apply insert_replicate.
Qed.

Lemma align_frames_kept fniis times fref Cnt reg_tool save4d f4d outpath tr out tr' :
  align_frames svc fniis times fref Cnt reg_tool save4d f4d outpath tr = (Ok out, tr') ->
  exists st,
    affines out = st_S st /\ metric out = st_R st /\ metric2 out = st_D st
    /\ rot_trans out = st_RTf st /\ faligned out = st_faligned st
    /\ length (mashed_files out) = length (mashed_frame_idx out)
    /\ kept reg_tool (length (mashed_files out)) (length fniis) st.
Proof.
  intros E. apply align_frames_run_all in E
    as (ts & st & t0 & t1 & t2 & _ & _ & _ & Hlen & Hloop & HS & HR & HD & HRT & Hfal & _).
  exists st. repeat (split; [assumption|]).
  refine (foldM_inv (F := F) _ (fun _ s => kept reg_tool (length (mashed_files out))
                                             (length fniis) s) _ _ _ _ _ _ _ Hloop).
  - intros pre x post s0 tr0 s1 tr1 _ Hs0 Es. eapply register_group_kept; eauto.
  - unfold kept. cbn. rewrite !length_replicate. repeat split; reflexivity.
Qed.

(** X4. The outputs of a returning call have one entry for every frame
    (['faligned'], ['rot_trans']) or for every group of frames
    (['mashed_files'], ['affines'], ['metric'], ['metric2']). *)
Theorem align_frames_output_sizes fniis times fref Cnt reg_tool save4d f4d outpath tr out tr' :
  align_frames svc fniis times fref Cnt reg_tool save4d f4d outpath tr = (Ok out, tr') ->
  length (faligned out) = length fniis
  /\ length (rot_trans out) = length fniis
  /\ length (mashed_files out) = length (mashed_frame_idx out)
  /\ length (affines out) = length (mashed_frame_idx out)
  /\ length (metric out) = length (mashed_frame_idx out)
  /\ length (metric2 out) = length (mashed_frame_idx out).
Proof.
  intros E. apply align_frames_kept in E
    as (st & HS & HR & HD & HRT & Hf & Hl & K1 & K2 & K3 & K4 & K5 & K6 & _).
  rewrite HS, HR, HD, HRT, Hf, <- Hl. repeat split; assumption.
Qed.

(** X5. With a tool other than SPM, DIPY included, a returning call
    reports no rotations and translations and no ['rss'] metric: every
    entry of ['metric'] is 0 and every row of ['rot_trans'] is six
    zeros.  With a tool that is neither SPM nor DIPY there is no affine
    file either, and ['metric2'] is 0 throughout. *)
Theorem align_frames_metric_without_spm fniis times fref Cnt reg_tool save4d f4d outpath
    tr out tr' :
  reg_tool <> "spm" ->
  align_frames svc fniis times fref Cnt reg_tool save4d f4d outpath tr = (Ok out, tr') ->
  metric out = replicate (length (mashed_frame_idx out)) 0%Q
  /\ rot_trans out = replicate (length fniis) (replicate 6 0%Q)
  /\ (reg_tool <> "dipy" ->
      affines out = replicate (length (mashed_frame_idx out)) None
      /\ metric2 out = replicate (length (mashed_frame_idx out)) 0%Q).
Proof.
  intros Hns E. apply align_frames_kept in E
    as (st & HS & HR & HD & HRT & _ & Hl & _ & _ & _ & _ & _ & _ & K7 & K8).
  rewrite HS, HR, HD, HRT, <- Hl. destruct (K7 Hns) as (-> & _ & ->).
  split; [reflexivity|]. split; [reflexivity|]. intros Hnd. now apply K8.
Qed.

End AlignFramesState.

(** * [align_frames]: mashed files, the 4D file, edge cases of the grouping *)

Section AlignFramesOutputs.

Context {F : Type} `{FloatOps F}.
Variable svc : services F.

Lemma mash_file_name fniis mniidir acc mgrp tr acc' tr' :
  mash_file svc fniis mniidir acc mgrp tr = (Ok acc', tr') ->
  exists fout, mashed_name fniis mniidir mgrp = Some fout /\ acc' = acc ++ [fout].
Proof.
  unfold mash_file. intros E.
  apply M_bind_inv in E as (i0 & t1 & E1 & E). apply lift_inv in E1 as [E1 ->].
  apply M_bind_inv in E as (fn0 & t2 & E2 & E). apply lift_inv in E2 as [E2 ->].
  apply M_bind_inv in E as (tmp & t3 & E3 & E).
  apply M_bind_inv in E as (im & t4 & E4 & E).
  apply M_bind_inv in E as (? & t5 & E5 & E).
  apply mret_inv in E as [<- _].
  apply get_item_inv in E1, E2. destruct mgrp as [|j mgrp]; [discriminate|].
  simpl in E1. injection E1 as ->. unfold mashed_name. rewrite E2. eauto.
Qed.

Lemma mash_files_named fniis mniidir mfrms t0 files t1 :
  foldM (mash_file svc fniis mniidir) mfrms [] t0 = (Ok files, t1) ->
  Forall2 (fun mgrp fout => mashed_name fniis mniidir mgrp = Some fout) mfrms files.
Proof.
  intros Hfiles.
  refine (foldM_inv (F := F) _
            (fun pre acc => Forall2 (fun mgrp fout =>
                 mashed_name fniis mniidir mgrp = Some fout) pre acc)
            _ _ _ _ _ _ _ Hfiles); [|constructor].
  intros pre x post s0 tr0 s1 tr1 _ Hpre Es.
  apply mash_file_name in Es as (fout & Hn & ->).
  apply Forall2_app; [assumption|]. now repeat constructor.
Qed.

(** X6. A returning call has written one mashed file for every group, in
    the order of the groups; the file of a group lies in the folder
    ['mashed'] and is named after the size of the group and the file name
    of its first frame.  No group is empty. *)
Theorem align_frames_mashed_files fniis times fref Cnt reg_tool save4d f4d outpath tr out tr' :
  align_frames svc fniis times fref Cnt reg_tool save4d f4d outpath tr = (Ok out, tr') ->
  Forall2 (fun mgrp fout => mashed_name fniis (mashed_dir fniis outpath) mgrp = Some fout)
          (mashed_frame_idx out) (mashed_files out)
  /\ Forall (fun mgrp => mgrp <> []) (mashed_frame_idx out).
Proof.
  intros E. apply align_frames_run_all in E
    as (ts & st & t0 & t1 & t2 & _ & _ & Hfiles & _).
  pose proof (mash_files_named _ _ _ _ _ _ Hfiles) as HF.
  split; [assumption|].
  clear -HF. induction HF as [|g f gs fs Hg _ IH]; constructor; [|assumption].
  intros ->. discriminate.
Qed.

(** X7. With [save4d] a returning call has, as its last action, written
    the 4D file: at [f4d] when that is given and its folder exists, else
    at the default name in the output folder.  The image returned has one
    frame for every input frame and holds no NaN, and every frame has an
    aligned file.  Without [save4d] neither ['f4d'] nor ['im4d'] is
    set. *)
Theorem align_frames_4d_output fniis times fref Cnt reg_tool save4d f4d outpath tr out tr' :
  align_frames svc fniis times fref Cnt reg_tool save4d f4d outpath tr = (Ok out, tr') ->
  if save4d then
    exists niia t ev,
      f4d_out out = Some (f4d_path svc f4d (out_dir fniis outpath))
      /\ im4d out = Some niia
      /\ tr' = t ++ [ev]
      /\ written ev = Some (f4d_path svc f4d (out_dir fniis outpath))
      /\ length (frames niia) = length fniis
      /\ nan_free niia
      /\ Forall (fun f => f <> None) (faligned out)
  else f4d_out out = None /\ im4d out = None.
Proof.
  intros E. pose proof (align_frames_kept svc _ _ _ _ _ _ _ _ _ _ _ E)
    as (st' & _ & _ & _ & _ & Hf' & _ & _ & _ & _ & _ & _ & K6 & _).
  apply align_frames_run_all in E
    as (ts & st & t0 & t1 & t2 & _ & _ & _ & _ & _ & _ & _ & _ & _ & Hfal & Hs).
  destruct save4d; [|tauto].
  destruct Hs as [Hsave Hout].
  destruct (save4dnii_cases svc (st_faligned st) (f4d_path svc f4d (out_dir fniis outpath))
              "AmyPET-aligned frames" true t2)
    as [(e & Ee)|(p0 & n0 & niia & trnsp & _ & _ & _ & _ & Hl & Hc & Hn & Ee)];
    rewrite Ee in Hsave; [discriminate|].
  injection Hsave as Him <-.
  exists niia, t2, (EvArray2Nii (stack_array niia) (nii_affine n0)
                     (f4d_path svc f4d (out_dir fniis outpath)) "AmyPET-aligned frames"
                     trnsp (nii_flip n0)).
  rewrite Hfal. split; [assumption|]. split; [now symmetry|]. split; [reflexivity|].
  split; [reflexivity|]. split; [|split; assumption].
  rewrite Hl, <- Hfal, Hf'. exact K6.
Qed.

(** X8. When no frame is shorter than [frame_min_dur], whatever the
    order of the frames in time, every frame is a group of its own, in
    input order, and the outputs of a returning call are in input order:
    entry [i] of each output belongs to frame [i], resampled or copied on
    its own metrics. *)
Theorem align_frames_without_short_frames fniis times fref Cnt reg_tool save4d f4d outpath
    tr out tr' ts :
  reg_tool = "spm" \/ reg_tool = "dipy" ->
  frame_min_dur Cnt <> 0 ->
  frame_times (length fniis) times = Ok ts ->
  Forall (fun t => frame_min_dur Cnt <= snd t - fst t) ts ->
  align_frames svc fniis times fref Cnt reg_tool save4d f4d outpath tr = (Ok out, tr') ->
  mashed_frame_idx out = map (fun i => [i]) (seq 0 (length fniis))
  /\ forall i fn, fniis !! i = Some fn ->
       exists r d aff,
         mashed_files out !! i
           = Some (pjoin (mashed_dir fniis outpath) ("mashed_n1_" +:+ basename fn))
         /\ metric out !! i = Some r /\ metric2 out !! i = Some d
         /\ affines out !! i = Some aff
         /\ faligned out !! i
            = Some (Some (if motion_exceeds (effective_metric reg_tool (reg_metric Cnt))
                               (reg_thrshld Cnt) r d
                          then snd (resample_call svc reg_tool fref fn aff
                                      (aligned_dir fniis outpath))
                          else pjoin (aligned_dir fniis outpath) (basename fn))).
Proof.
  intros Htool HL Hts Hlong E.
  pose proof (frame_times_length _ _ _ Hts) as Hl.
  pose proof (MashEdges.mash_frames_no_short_frames (frame_min_dur Cnt) ts HL Hlong) as Hm.
  rewrite Hl in Hm.
  apply align_frames_run_all in E
    as (ts' & st & t0 & t1 & t2 & Hts' & Hm' & Hfiles & Hlen & Hloop & HS & HR & HD & HRTf
        & Hfal & _).
  rewrite Hts in Hts'. injection Hts' as <-. rewrite Hm in Hm'. injection Hm' as Hidx.
  split; [now symmetry|]. intros i fn Hfn.
  assert (Hi : (i < length fniis)%nat) by (eapply lookup_lt_Some; eauto).
  set (P := {| p_fniis := fniis; p_fref := fref; p_tool := reg_tool;
               p_metric := effective_metric reg_tool (reg_metric Cnt);
               p_fwhm := reg_fwhm Cnt; p_thr := reg_thrshld Cnt;
               p_costfun := reg_costfun Cnt; p_mniidir := mashed_dir fniis outpath;
               p_rsmpl := aligned_dir fniis outpath;
               p_mfrms := mashed_frame_idx out; p_mfrms_out := mashed_files out |}).
  assert (Hseq : concat (p_mfrms P) = seq 0 (length fniis)).
  { cbn. rewrite <- Hidx. apply MashFacts.concat_singletons. }
  apply (registration_loop_inv svc P Htool _ _ _ _ (length fniis) Hseq Hlen) in Hloop.
  - destruct Hloop as (_ & Hg & _ & Hf).
    destruct (Hf i Hi) as (mi & grp & Hmi & Hgrp & Hin & (mfrm & fn' & Hmf & Hfn' & Hfa & _)).
    cbn in Hgrp, Hmf, Hfn', Hfa.
    rewrite <- Hidx in Hgrp. rewrite list_lookup_fmap in Hgrp.
    destruct (seq 0 (length fniis) !! mi) as [j|] eqn:Ej; [|discriminate].
    apply lookup_seq in Ej as [Ej _]. simpl in Ej, Hgrp. subst j. injection Hgrp as <-.
    assert (Emi : mi = i) by (destruct Hin as [Hin|[]]; exact Hin).
    subst mi. clear Hin.
    rewrite Hfn in Hfn'. injection Hfn' as <-.
    destruct (Hg i Hmi) as (mfrm' & Hmf' & HS' & HR' & HD' & _). cbn in Hmf', HS', HR', HD'.
    rewrite Hmf in Hmf'. injection Hmf' as <-.
    assert (Hname : mfrm = pjoin (mashed_dir fniis outpath) ("mashed_n1_" +:+ basename fn)).
    { pose proof (mash_files_named _ _ _ _ _ _ Hfiles) as HF.
      destruct (Forall2_lookup_r _ _ _ _ _ HF Hmf) as (g & Hg1 & Hg2).
      rewrite <- Hidx, list_lookup_fmap in Hg1.
      rewrite (lookup_seq_lt _ _ _ Hi) in Hg1. simpl in Hg1. injection Hg1 as <-.
      unfold mashed_name in Hg2. rewrite Hfn in Hg2. now injection Hg2 as <-. }
    eexists _, _, _. rewrite HS, HR, HD, Hfal, <- Hname.
    repeat split; eauto.
  - split; [reflexivity|]. split; [intros mi Hmi; lia|].
    split; [intros mi _; split; reflexivity|intros j Hj; lia].
Qed.

(** X9. With [frame_min_dur] 0 no call returns: the number of sets of
    short frames is a division by zero.  When the metric and the times
    are accepted and no frame stops before it starts, the call raises
    [ValueError] after it has created its two folders. *)
Theorem align_frames_zero_min_dur (fniis : list path) times fref Cnt reg_tool (save4d : bool)
    (f4d outpath : option path) tr :
  frame_min_dur Cnt = 0 ->
  (forall out tr',
      align_frames svc fniis times fref Cnt reg_tool save4d f4d outpath tr <> (Ok out, tr'))
  /\ (forall ts,
        In (reg_metric Cnt) reg_metric_list ->
        frame_times (length fniis) times = Ok ts ->
        (outpath = None -> fniis <> []) ->
        Forall (fun t => fst t <= snd t) ts ->
        exists w, Forall (fun ev => is_warning ev = true) w
          /\ align_frames svc fniis times fref Cnt reg_tool save4d f4d outpath tr
             = (Raise (ValueError Mash.msg_nan),
                tr ++ w ++ [EvCreateDir (mashed_dir fniis outpath);
                            EvCreateDir (aligned_dir fniis outpath)])).
Proof.
  intros HL. split.
  - intros out tr' E. apply align_frames_run_all in E
      as (ts & st & t0 & t1 & t2 & _ & Hm & _).
    rewrite HL in Hm. now apply (proj2 (MashEdges.mash_frames_zero_min_dur _ ts)) in Hm.
  - intros ts Hmet Hts Hout Hdur.
    destruct (align_frames_to_grouping svc fniis times fref Cnt reg_tool save4d f4d outpath
                tr ts Hmet Hts Hout) as (w & Hw & Hraise).
    exists w. split; [assumption|]. apply Hraise. rewrite HL.
    now apply MashEdges.mash_frames_zero_min_dur.
Qed.

(** X10. A short frame that stops after the last full window of
    [frame_min_dur] seconds cannot be grouped: with frames in
    acquisition order the call raises the [ValueError] of the first
    consistency check, after creating its folders and before it reads or
    registers an image. *)
Theorem align_frames_leftover_short_frame (fniis : list path) times fref Cnt reg_tool
    (save4d : bool) (f4d outpath : option path) tr ts x :
  In (reg_metric Cnt) reg_metric_list ->
  frame_times (length fniis) times = Ok ts ->
  (outpath = None -> fniis <> []) ->
  0 < frame_min_dur Cnt ->
  Mash.chronological 0 ts ->
  In x ts -> snd x - fst x < frame_min_dur Cnt ->
  (Mash.sm (Mash.short (frame_min_dur Cnt)) ts / frame_min_dur Cnt) * frame_min_dur Cnt < snd x ->
  exists w, Forall (fun ev => is_warning ev = true) w
    /\ align_frames svc fniis times fref Cnt reg_tool save4d f4d outpath tr
       = (Raise (ValueError Mash.msg_mash1),
          tr ++ w ++ [EvCreateDir (mashed_dir fniis outpath);
                      EvCreateDir (aligned_dir fniis outpath)]).
Proof.
  intros Hmet Hts Hout HL Hc Hx Hshort Hend.
  destruct (align_frames_to_grouping svc fniis times fref Cnt reg_tool save4d f4d outpath
              tr ts Hmet Hts Hout) as (w & Hw & Hraise).
  exists w. split; [assumption|]. apply Hraise.
  rewrite <- (frame_times_length _ _ _ Hts).
  eapply MashEdges.mash_frames_leftover; eauto.
Qed.

End AlignFramesOutputs.

(** * [align_break]: the decay factor *)

Section DecayEdges.

Open Scope R_scope.

Variable riLUT_thalf : string -> option R.

Lemma mapM_indices (ts : list Z) tref l :
  Forall (fun i => (i < length ts)%nat) l ->
  exists tds, mapM (fun i => t ← get_item ts i; Ok (t - tref)%Z) l = Ok tds
              /\ length tds = length l.
Proof.
  induction 1 as [|i l Hi _ (tds & E & Hl)]; [exists []; split; reflexivity|].
  destruct (lookup_lt_is_Some_2 ts i Hi) as (t & Ht).
  exists ((t - tref)%Z :: tds). cbn. rewrite (get_item_Some _ _ _ Ht). cbn.
  rewrite E. cbn. split; [reflexivity|]. now rewrite Hl.
Qed.

Lemma argminZ_from_lt l : forall best vbest k,
  (best < k)%nat -> (Break.argminZ_from best vbest k l < k + length l)%nat.
Proof.
  induction l as [|x l IH]; intros best vbest k Hb; simpl; [lia|].
  destruct (x <? vbest)%Z.
  - specialize (IH k x (S k)). lia.
  - specialize (IH best vbest (S k)). lia.
Qed.

(** X11. With coffee-break data [align_break] gets its decay factor only
    from a study of exactly two series, whatever [decay_corr] is set to:
    three or more series raise the [ValueError] of more than one break,
    a single series raises [IndexError], none raises [ValueError]. *)
Theorem align_break_two_series_only Cnt (ts : list Z) tracer :
  (forall r, Break.align_break_dcycrr riLUT_thalf Cnt ts tracer = Ok r -> length ts = 2%nat)
  /\ ((3 <= length ts)%nat ->
      Break.align_break_dcycrr riLUT_thalf Cnt ts tracer
      = Raise (ValueError Break.msg_breaks))
  /\ (length ts = 1%nat ->
      exists msg, Break.align_break_dcycrr riLUT_thalf Cnt ts tracer
                  = Raise (IndexError msg))
  /\ (ts = [] ->
      exists msg, Break.align_break_dcycrr riLUT_thalf Cnt ts tracer
                  = Raise (ValueError msg)).
Proof.
  assert (H3 : (3 <= length ts)%nat ->
               Break.align_break_dcycrr riLUT_thalf Cnt ts tracer
               = Raise (ValueError Break.msg_breaks)).
  { intros Hlen. unfold Break.align_break_dcycrr, Break.decay_factor, Break.decay_corr_variable.
    cbn [Break.truthy].
    destruct ts as [|t ts']; [simpl in Hlen; lia|]. cbn [Break.argminZ mbind result_bind].
    set (k := Break.argminZ_from 0 t 1 ts').
    assert (Hk : (k < length (t :: ts'))%nat).
    { pose proof (argminZ_from_lt ts' 0%nat t 1%nat). simpl in *. lia. }
    destruct (lookup_lt_is_Some_2 _ _ Hk) as (tref & Htref).
    rewrite (get_item_Some _ _ _ Htref). cbn [mbind result_bind].
    destruct (mapM_indices (t :: ts') tref (delete k (seq 0 (length (t :: ts')))))
      as (tds & -> & Hl).
    { apply Forall_delete. apply List.Forall_forall. intros i Hi. apply in_seq in Hi. lia. }
    cbn [mbind result_bind].
    rewrite length_delete in Hl by (eexists; apply lookup_seq_lt; exact Hk).
    rewrite length_seq in Hl.
    destruct (Nat.ltb_spec 1 (length tds)); [reflexivity|]. simpl in *. lia. }
  split; [|split; [assumption|split]].
  - intros r E.
    destruct ts as [|a [|b [|c ts']]]; [discriminate|discriminate|reflexivity|].
    rewrite H3 in E by (simpl; lia). discriminate.
  - intros Hl. destruct ts as [|a [|]]; try discriminate. eexists. reflexivity.
  - intros ->. eexists. reflexivity.
Qed.

(** X12. For the two series of a study the factor depends on the time
    between their starts only, not on which of them came first: it is
    [1/exp(-lambda*|t1-t0|)], and with a positive half-life never below
    1.  A tracer of neither group is looked up under the empty name. *)
Theorem align_break_factor_two_series Cnt tracer (t0 t1 : Z) :
  (forall thalf, riLUT_thalf (Break.isotope tracer) = Some thalf ->
     Break.align_break_dcycrr riLUT_thalf Cnt [t0; t1] tracer
     = Ok (1 / exp (- (ln 2 / thalf) * IZR (Z.abs (t1 - t0))))
     /\ Break.align_break_dcycrr riLUT_thalf Cnt [t1; t0] tracer
        = Break.align_break_dcycrr riLUT_thalf Cnt [t0; t1] tracer
     /\ (0 < thalf -> 1 <= 1 / exp (- (ln 2 / thalf) * IZR (Z.abs (t1 - t0)))))
  /\ (~ In tracer Break.f18group -> ~ In tracer Break.c11group ->
      Break.isotope tracer = ""
      /\ (riLUT_thalf "" = None ->
          Break.align_break_dcycrr riLUT_thalf Cnt [t0; t1] tracer = Raise (KeyError ""))).
Proof.
  assert (Hval : forall a b thalf, riLUT_thalf (Break.isotope tracer) = Some thalf ->
            Break.align_break_dcycrr riLUT_thalf Cnt [a; b] tracer
            = Ok (1 / exp (- (ln 2 / thalf) * IZR (Z.abs (b - a))))).
  { intros a b thalf Hlut.
    unfold Break.align_break_dcycrr, Break.decay_factor, Break.decay_corr_variable.
    cbn [Break.truthy Break.argminZ Break.argminZ_from mbind result_bind].
    destruct (Z.ltb_spec b a) as [Hlt|Hge]; cbn; rewrite Hlut; cbn.
    - replace (Z.abs (b - a)) with (a - b)%Z by lia. reflexivity.
    - replace (Z.abs (b - a)) with (b - a)%Z by lia. reflexivity. }
  split.
  - intros thalf Hlut. split; [now apply Hval|]. split.
    + rewrite !(Hval _ _ thalf Hlut).
      replace (Z.abs (t0 - t1)) with (Z.abs (t1 - t0)) by lia. reflexivity.
    + intros Hpos. set (x := ln 2 / thalf * IZR (Z.abs (t1 - t0))).
      replace (- (ln 2 / thalf) * IZR (Z.abs (t1 - t0))) with (- x) by (unfold x; lra).
      rewrite exp_Ropp. unfold Rdiv. rewrite Rmult_1_l, Rinv_inv.
      assert (Hx : 0 <= x).
      { unfold x. apply Rmult_le_pos.
        - apply Rlt_le, Rdiv_lt_0_compat; [|assumption].
          rewrite <- ln_1. apply ln_increasing; lra.
        - apply IZR_le, Z.abs_nonneg. }
      destruct (Req_dec x 0) as [->|Hne]; [rewrite exp_0; lra|].
      pose proof (exp_ineq1 x Hne). lra.
  - intros Hf Hc.
    assert (Hi : Break.isotope tracer = "").
    { unfold Break.isotope.
      destruct (existsb (String.eqb tracer) Break.f18group) eqn:E1.
      - apply existsb_exists in E1 as (y & Hy & Ey). apply String.eqb_eq in Ey.
        subst y. contradiction.
      - destruct (existsb (String.eqb tracer) Break.c11group) eqn:E2; [|reflexivity].
        apply existsb_exists in E2 as (y & Hy & Ey). apply String.eqb_eq in Ey.
        subst y. contradiction. }
    split; [assumption|]. intros Hlut.
    unfold Break.align_break_dcycrr, Break.decay_factor, Break.decay_corr_variable.
    cbn [Break.truthy Break.argminZ Break.argminZ_from mbind result_bind].
    rewrite Hi. destruct (t1 <? t0)%Z; cbn; rewrite Hlut; reflexivity.
Qed.

End DecayEdges.

(** * [align_suvr]: edge cases and the order of the aligned frames *)

Section AlignSuvrEdges.

Context {F : Type} `{FloatOps F}.
Variable svc : services F.

(** X13. Without SUVr frames [align_suvr] raises [ValueError]: there is no
    least entry to pick the reference by.  The three output folders have
    been created by then. *)
Theorem align_suvr_no_suvr_frames stat_tdata Cnt reg_tool outpath tr k0 e0 :
  In (reg_metric Cnt) reg_metric_list ->
  descr_frms stat_tdata !! 0%nat = Some k0 ->
  entries stat_tdata !! k0 = Some e0 ->
  descr_suvr_frms stat_tdata = [] ->
  let niidir := pjoin (suvr_out_dir outpath e0) "NIfTI_aligned" in
  exists w msg, Forall (fun ev => is_warning ev = true) w
    /\ align_suvr svc stat_tdata Cnt reg_tool outpath false tr
       = (Raise (ValueError msg),
          tr ++ w ++ [EvCreateDir niidir; EvCreateDir (pjoin niidir "intermediate");
                      EvCreateDir (pjoin niidir "SPM-aligned")]).
Proof.
  intros Hm Hk0 He0 Hs niidir.
  destruct (switch_metric_run (F := F) reg_tool (reg_metric Cnt) tr) as (w & Ew & Hw).
  exists w. eexists. split; [assumption|].
  unfold align_suvr.
  rewrite (proj2 (check_reg_metric_spec _) Hm).
  unfold mbind at 1, M_bind at 1, lift at 1.
  unfold mbind at 1, M_bind at 1. rewrite Ew.
  assert (Ek : get_item (descr_frms stat_tdata) 0 = Ok k0) by now apply get_item_Some.
  assert (Ee : entry stat_tdata k0 = Ok e0) by (unfold entry; now rewrite He0).
  assert (Eo : forall t : list (event F),
            (match outpath with
             | None =>
                 k0 ← lift (get_item (descr_frms stat_tdata) 0);
                 e0 ← lift (entry stat_tdata k0);
                 mret (parent (parent (fnii e0)))
             | Some p => mret p
             end : M F path) t = (Ok (suvr_out_dir outpath e0), t)).
  { intros t. destruct outpath as [p|]; [reflexivity|].
    rewrite Ek. unfold mbind at 1, M_bind at 1, lift at 1. rewrite Ee. reflexivity. }
  unfold mbind at 1, M_bind at 1. rewrite Eo.
  unfold mbind at 1, M_bind at 1, emit at 1.
  unfold mbind at 1, M_bind at 1, emit at 1.
  unfold mbind at 1, M_bind at 1, emit at 1.
  rewrite Ek. unfold mbind at 1, M_bind at 1, lift at 1.
  rewrite Ee. unfold mbind at 1, M_bind at 1, lift at 1.
  rewrite Hs. cbn. fold niidir. now rewrite <- !app_assoc.
Qed.

Lemma align_suvr_frame_adds reg_tool m thr rsmpl nii_frms R D S rfrm fnref st ifrm tr st' tr' :
  nii_frms !! rfrm = Some fnref ->
  align_suvr_frame svc reg_tool m thr rsmpl nii_frms R D S rfrm st ifrm tr = (Ok st', tr') ->
  frame_shape (ss_niiim st') = frame_shape (ss_niiim st)
  /\ length (frames (ss_niiim st')) = length (frames (ss_niiim st))
  /\ if (ifrm =? rfrm)%nat then ss_fnii_aligned st' = ss_fnii_aligned st
     else exists f, ss_fnii_aligned st' = ss_fnii_aligned st ++ [f]
                    /\ suvr_aligned_file svc reg_tool rsmpl nii_frms fnref ifrm f.
Proof.
  intros Href. unfold align_suvr_frame.
  destruct (ifrm =? rfrm)%nat.
  { intros E. apply mret_inv in E as [<- _]. auto. }
  intros E.
  apply M_bind_inv in E as (r & t1 & E1 & E).
  apply M_bind_inv in E as (d & t2 & E2 & E).
  destruct (motion_exceeds m thr r d).
  - apply M_bind_inv in E as (frsmpl & t3 & E3 & E).
    apply M_bind_inv in E as (im & t4 & E4 & E).
    apply M_bind_inv in E as (niiim & t5 & E5 & E). apply lift_inv in E5 as [E5 _].
    apply mret_inv in E as [<- _]. cbn.
    apply stack_set_inv in E5 as (_ & _ & ->). cbn. rewrite length_insert.
    split; [reflexivity|]. split; [reflexivity|].
    exists frsmpl. split; [reflexivity|]. unfold suvr_aligned_file, resample_call.
    destruct (String.eqb_spec reg_tool "spm") as [Es|Es].
    + apply M_bind_inv in E3 as (fref & u1 & G1 & E3). apply lift_inv in G1 as [G1 _].
      apply M_bind_inv in E3 as (fflo & u2 & G2 & E3). apply lift_inv in G2 as [G2 _].
      apply M_bind_inv in E3 as (aff & u3 & G3 & E3).
      apply M_bind_inv in E3 as (? & u4 & G4 & E3). apply mret_inv in E3 as [<- _].
      apply get_item_inv in G1, G2. rewrite Href in G1. injection G1 as <-.
      exists fflo. split; [assumption|]. right. exists aff. reflexivity.
    + destruct (String.eqb_spec reg_tool "dipy") as [Ed|Ed].
      * apply M_bind_inv in E3 as (fref & u1 & G1 & E3). apply lift_inv in G1 as [G1 _].
        apply M_bind_inv in E3 as (fflo & u2 & G2 & E3). apply lift_inv in G2 as [G2 _].
        apply M_bind_inv in E3 as (aff & u3 & G3 & E3).
        apply M_bind_inv in E3 as (? & u4 & G4 & E3). apply mret_inv in E3 as [<- _].
        apply get_item_inv in G1, G2. rewrite Href in G1. injection G1 as <-.
        exists fflo. split; [assumption|]. right. exists aff. reflexivity.
      * apply lift_inv in E3 as [E3 _]. discriminate.
  - apply M_bind_inv in E as (fflo & t3 & E3 & E). apply lift_inv in E3 as [E3 _].
    apply M_bind_inv in E as (im & t4 & E4 & E).
    apply M_bind_inv in E as (niiim & t5 & E5 & E). apply lift_inv in E5 as [E5 _].
    apply mret_inv in E as [<- _]. cbn.
    apply stack_set_inv in E5 as (_ & _ & ->). cbn. rewrite length_insert.
    split; [reflexivity|]. split; [reflexivity|].
    exists fflo. split; [reflexivity|]. exists fflo. apply get_item_inv in E3. auto.
Qed.

(** X14. A returning call of [align_suvr] (through the saving of the
    aligned SUVr frames) lists the reference frame first and the other
    SUVr frames after it, in frame order, each as its own file or as its
    resampling to the reference; the image saved has one frame for every
    SUVr frame and no NaN. *)
Theorem align_suvr_reference_first stat_tdata Cnt reg_tool outpath use_stored tr o tr' :
  align_suvr svc stat_tdata Cnt reg_tool outpath use_stored tr = (Ok (Some o), tr') ->
  exists es e0 fnref l,
    mapM (entry stat_tdata) (descr_suvr_frms stat_tdata) = Ok es
    /\ map fnii es !! so_rfrm o = Some fnref
    /\ so_fnii_aligned o = fnref :: l
    /\ Forall2 (suvr_aligned_file svc reg_tool
                  (pjoin (pjoin (suvr_out_dir outpath e0) "NIfTI_aligned") "SPM-aligned")
                  (map fnii es) fnref)
               (List.filter (fun i => negb (i =? so_rfrm o)%nat) (seq 0 (length es))) l
    /\ length (frames (so_niiim o)) = length es
    /\ nan_free (so_niiim o).
Proof.
  unfold align_suvr. intros E.
  apply M_bind_inv in E as (? & t1 & E1 & E).
  apply M_bind_inv in E as (m' & t2 & E2 & E).
  apply M_bind_inv in E as (align_out & t3 & E3 & E).
  apply M_bind_inv in E as (? & t4 & E4 & E).
  apply M_bind_inv in E as (? & t5 & E5 & E).
  apply M_bind_inv in E as (? & t6 & E6 & E).
  apply M_bind_inv in E as (k0 & t7 & E7 & E). apply lift_inv in E7 as [E7 ->].
  apply M_bind_inv in E as (e0 & t8 & E8 & E). apply lift_inv in E8 as [E8 ->].
  assert (Hout : align_out = suvr_out_dir outpath e0).
  { unfold suvr_out_dir. destruct outpath as [p|].
    - now apply mret_inv in E3 as [-> _].
    - apply M_bind_inv in E3 as (k0' & u1 & G1 & E3). apply lift_inv in G1 as [G1 _].
      apply M_bind_inv in E3 as (e0' & u2 & G2 & E3). apply lift_inv in G2 as [G2 _].
      apply mret_inv in E3 as [<- _]. rewrite E7 in G1. injection G1 as <-.
      rewrite E8 in G2. now injection G2 as <-. }
  subst align_out.
  destruct (negb use_stored || negb (is_file svc _)); [|apply mret_inv in E as [? _]; discriminate].
  apply M_bind_inv in E as (es & t9 & E9 & E). apply lift_inv in E9 as [E9 ->].
  apply M_bind_inv in E as (ps & t10 & E10 & E).
  apply M_bind_inv in E as (rr & t11 & E11 & E).
  apply M_bind_inv in E as (fnref & t12 & E12 & E). apply lift_inv in E12 as [E12 ->].
  apply M_bind_inv in E as (niiref & t13 & E13 & E).
  apply M_bind_inv in E as (niiim0 & t14 & E14 & E). apply lift_inv in E14 as [E14 ->].
  apply M_bind_inv in E as (ss & t15 & E15 & E).
  apply M_bind_inv in E as (trnsp & t16 & E16 & E).
  apply M_bind_inv in E as (? & t17 & E17 & E).
  apply mret_inv in E as [E _]. injection E as <-. cbn.
  apply get_item_inv in E12.
  apply stack_set_inv in E14 as (_ & _ & ->).
  set (rfrm := fst rr) in *.
  set (nii_frms := map fnii es) in *.
  set (rsmpl := pjoin (pjoin (suvr_out_dir outpath e0) "NIfTI_aligned") "SPM-aligned") in *.
  assert (Hinv : exists l,
             ss_fnii_aligned ss = fnref :: l
             /\ Forall2 (suvr_aligned_file svc reg_tool rsmpl nii_frms fnref)
                  (List.filter (fun i => negb (i =? rfrm)%nat) (seq 0 (length nii_frms))) l
             /\ length (frames (ss_niiim ss)) = length nii_frms).
  { refine (foldM_inv (F := F) _
              (fun pre st => exists l,
                 ss_fnii_aligned st = fnref :: l
                 /\ Forall2 (suvr_aligned_file svc reg_tool rsmpl nii_frms fnref)
                      (List.filter (fun i => negb (i =? rfrm)%nat) pre) l
                 /\ length (frames (ss_niiim st)) = length nii_frms)
              _ _ _ _ _ _ _ E15).
    - intros pre ifr post s0 tr0 s1 tr1 _ (l & Hl & HF & Hlen) Es.
      apply (align_suvr_frame_adds _ _ _ _ _ _ _ _ _ fnref) in Es as (_ & Hlen' & Hadd);
        [|assumption].
      rewrite List.filter_app. cbn [List.filter].
      destruct (ifr =? rfrm)%nat; cbn [negb].
      + exists l. rewrite app_nil_r, Hadd, Hlen'. auto.
      + destruct Hadd as (f & Hf & Hal). exists (l ++ [f]).
        rewrite Hf, Hl, Hlen'. split; [reflexivity|]. split; [|assumption].
        apply Forall2_app; [assumption|]. now repeat constructor.
    - exists []. cbn. rewrite length_insert, length_replicate.
      split; [reflexivity|]. split; [constructor|reflexivity]. }
  destruct Hinv as (l & Hl & HF & Hlen).
  exists es, e0, fnref, l. unfold nii_frms in *. rewrite length_map in *.
  split; [assumption|]. split; [assumption|]. split; [assumption|].
  split; [assumption|]. split; [now rewrite ?length_map|].
  unfold nan_free. cbn. apply Forall_map, Forall_true. intros fr.
  apply Forall_map, Forall_true. intros v. cbn.
  destruct (fisnan v) eqn:Ev; [apply f0_not_nan|assumption].
Qed.

End AlignSuvrEdges.

(** * [extract_vois]: masks, records and edge cases *)

Section VoiExtras.

Context {F : Type} `{FloatOps F}.
Variable svc : services F.

Lemma zip_with_orb_map {A} (g h : A -> bool) l :
  zip_with orb (map g l) (map h l) = map (fun v => g v || h v) l.
Proof. induction l as [|v l IH]; simpl; [reflexivity|]. now rewrite IH. Qed.

Lemma replicate_map_const {A B} (b : B) (l : list A) :
  replicate (length l) b = map (fun _ => b) l.
Proof. induction l as [|v l IH]; simpl; [reflexivity|]. now rewrite IH. Qed.

Lemma roi_mask_spec (lbls : ndarray F) labels :
  length (data lbls) = size_of (shape lbls) ->
  roi_mask lbls labels = voi_mask lbls labels.
Proof.
  intros Hwf. unfold roi_mask, voi_mask. rewrite <- Hwf. clear Hwf.
  rewrite (replicate_map_const false (data lbls)).
  assert (Hgen : forall g : F -> bool,
            fold_left (fun rmsk ri =>
                         zip_with orb rmsk (map (fun v => feqb v (f_of_Z ri)) (data lbls)))
                      labels (map g (data lbls))
            = map (fun v => g v || existsb (fun ri => feqb v (f_of_Z ri)) labels) (data lbls)).
  { induction labels as [|ri labels IH]; intros g; simpl.
    - apply map_ext. intros v. now rewrite Bool.orb_false_r.
    - rewrite zip_with_orb_map, IH. apply map_ext. intros v. now rewrite Bool.orb_assoc. }
  now rewrite Hgen.
Qed.

Lemma extract_voi_4d (im lbls : ndarray F) g outpath output_masks out voi tr :
  ndim im = 4%nat ->
  (hd 0%nat (shape im) = 0%nat \/ tail (shape im) = shape lbls) ->
  length (data lbls) = size_of (shape lbls) ->
  extract_voi (Some im) lbls None g true outpath output_masks out voi tr
  = (Ok (<[fst voi := voi_record_4d im lbls (snd voi) output_masks]> out), tr).
Proof.
  intros Hnd Hshape Hwf. unfold extract_voi.
  rewrite (roi_mask_spec _ _ Hwf). cbn [apply_mask].
  unfold mbind at 1, M_bind at 1, lift at 1.
  assert (Ef : forall t : list (event F),
            (match outpath with
             | Some op =>
                 if negb true then
                   _ ← emit (EvCreateDir op);
                   trnsp ← lift (match g_trnsp g with
                                 | Some t => inverse_transpose t
                                 | None => Raise (AttributeError
                                             "'NoneType' object has no attribute 'index'")
                                 end);
                   _ ← emit (EvMask2Nii (mask_floats (MBool (voi_mask lbls (snd voi))))
                               (shape lbls) (g_affine g)
                               (pjoin op (fst voi +:+ "_mask.nii.gz")) trnsp (g_flip g));
                   mret (Some (pjoin op (fst voi +:+ "_mask.nii.gz")))
                 else mret None
             | None => mret None
             end : M F (option path)) t = (Ok None, t)).
  { intros t. destruct outpath; reflexivity. }
  unfold mbind at 1, M_bind at 1. rewrite Ef.
  unfold mbind at 1, M_bind at 1, lift at 1.
  unfold voi_sums. rewrite Hnd. cbn [Nat.eqb].
  assert (Eg : (0 <? hd 0%nat (shape im))%nat
               && negb (bool_decide (tail (shape im) = shape lbls)) = false).
  { destruct Hshape as [->| ->]; [reflexivity|].
    rewrite bool_decide_eq_true_2 by reflexivity. apply Bool.andb_false_r. }
  rewrite Eg. unfold mbind at 1, M_bind at 1, lift at 1.
  reflexivity.
Qed.

Lemma foldM_pure {A S} (f : S -> A -> M F S) (g : S -> A -> S) l s tr :
  (forall s x t, f s x t = (Ok (g s x), t)) ->
  foldM f l s tr = (Ok (fold_left g l s), tr).
Proof.
  intros Hf. revert s. induction l as [|x l IH]; intros s; simpl; [reflexivity|].
  unfold mbind, M_bind. rewrite Hf. apply IH.
Qed.

Lemma find_app_split {A} (p : A -> bool) l1 l2 :
  List.find p (l1 ++ l2)
  = match List.find p l1 with
    | Some x => Some x
    | None => List.find p l2
    end.
Proof. induction l1 as [|x l1 IH]; simpl; [reflexivity|]. now destruct (p x). Qed.

Lemma NoDup_fst_functional {B} (l : list (string * B)) k v v' :
  NoDup (map fst l) -> In (k, v) l -> In (k, v') l -> v = v'.
Proof.
  induction l as [|[k0 v0] l IH]; intros Hnd Hin Hin'; [destruct Hin|].
  simpl in Hnd. apply NoDup_cons in Hnd as [Hk Hnd].
  assert (Hfst : forall w, In (k0, w) l -> False).
  { intros w Hw. apply Hk, list_elem_of_In, in_map_iff. now exists (k0, w). }
  destruct Hin as [Hin|Hin], Hin' as [Hin'|Hin'].
  - congruence.
  - injection Hin as -> _. destruct (Hfst _ Hin').
  - injection Hin' as -> _. destruct (Hfst _ Hin).
  - now apply IH.
Qed.

Lemma fold_insert_lookup {V} (r : list Z -> V) (l : list (string * list Z))
    (m : gmap string V) name :
  fold_left (fun m voi => <[fst voi := r (snd voi)]> m) l m !! name
  = match List.find (fun voi => String.eqb (fst voi) name) (rev l) with
    | Some voi => Some (r (snd voi))
    | None => m !! name
    end.
Proof.
  revert m. induction l as [|voi l IH]; intros m; simpl; [reflexivity|].
  rewrite IH. rewrite find_app_split.
  destruct (List.find _ (rev l)); [reflexivity|]. simpl.
  destruct (String.eqb_spec (fst voi) name) as [->|Hne].
  - apply lookup_insert_eq.
  - now apply lookup_insert_ne.
Qed.

(** X15. For a 4D PET image and a label image given as arrays, with no
    atlas mask, [extract_vois] returns and writes nothing; the result has
    one record for every VOI name and no other.  The record of a VOI
    counts the voxels whose label is one of the VOI's labels and gives,
    frame by frame, the sum of the PET image over these voxels and that
    sum divided by the count. *)
Theorem extract_vois_4d_records lp la voi_dct outpath output_masks (st : store F) :
  lp <> la ->
  ndim (st lp) = 4%nat ->
  (hd 0%nat (shape (st lp)) = 0%nat \/ tail (shape (st lp)) = shape (st la)) ->
  length (data (st la)) = size_of (shape (st la)) ->
  NoDup (map fst voi_dct) ->
  exists out,
    fst (extract_vois svc (ArgArray lp) (ArgArray la) voi_dct MaskNone outpath output_masks st)
    = (Ok out, [])
    /\ (forall name labels, In (name, labels) voi_dct ->
          out !! name
          = Some (voi_record_4d (st lp) (nan_to_zero (st la)) labels output_masks))
    /\ (forall name, is_Some (out !! name) -> In name (map fst voi_dct)).
Proof.
  intros Hne Hnd Hshape Hwf Hnodup.
  unfold extract_vois. cbn [resolve_pet resolve_atlas remove_nans resolve_mask is_ndarray].
  unfold deref. cbn [fmap option_fmap option_map].
  unfold store_set at 1 2. destruct (decide (lp = la)) as [|_]; [contradiction|].
  destruct (decide (la = la)) as [_|]; [|contradiction].
  set (r := fun labels => voi_record_4d (st lp) (nan_to_zero (st la)) labels output_masks).
  rewrite (foldM_pure _ (fun m voi => <[fst voi := r (snd voi)]> m)).
  2:{ intros s x t. apply extract_voi_4d; try assumption.
      unfold nan_to_zero. cbn. now rewrite length_map. }
  cbn [fst]. eexists. split; [reflexivity|]. split.
  - intros name labels Hin. rewrite fold_insert_lookup.
    destruct (List.find _ (rev voi_dct)) as [[name' labels']|] eqn:Ef.
    + apply find_some in Ef as [Hin' Heq]. apply String.eqb_eq in Heq. simpl in Heq.
      subst name'. apply in_rev in Hin'.
      now rewrite (NoDup_fst_functional _ _ _ _ Hnodup Hin Hin').
    + apply in_rev in Hin. pose proof (find_none _ _ Ef (name, labels) Hin) as Hf.
      simpl in Hf. rewrite String.eqb_refl in Hf. discriminate.
  - intros name [rec Hrec]. rewrite fold_insert_lookup in Hrec.
    destruct (List.find _ (rev voi_dct)) as [[name' labels']|] eqn:Ef; [|discriminate].
    apply find_some in Ef as [Hin' Heq]. apply String.eqb_eq in Heq. simpl in Heq.
    subst name'. apply in_rev in Hin'. apply in_map_iff. now exists (name, labels').
Qed.

End VoiExtras.

Section VoiEdges.

Context {F : Type} `{FloatOps F}.
Variable svc : services F.

Lemma extract_voi_no_file (im : option (ndarray F)) lbls amsk g (atlas_is_array : bool)
    (outpath : option path) output_masks out voi :
  atlas_is_array = true \/ outpath = None ->
  emits_only (fun _ => False)
    (extract_voi im lbls amsk g atlas_is_array outpath output_masks out voi)
  /\ forall tr out' tr',
       extract_voi im lbls amsk g atlas_is_array outpath output_masks out voi tr
         = (Ok out', tr') ->
       exists r, out' = <[fst voi := r]> out /\ fvoi r = None.
Proof.
  intros Hc.
  assert (Ef : forall (msk2 : mask F),
            (match outpath with
             | Some op =>
                 if negb atlas_is_array then
                   _ ← emit (EvCreateDir op);
                   trnsp ← lift (match g_trnsp g with
                                 | Some t => inverse_transpose t
                                 | None => Raise (AttributeError
                                             "'NoneType' object has no attribute 'index'")
                                 end);
                   _ ← emit (EvMask2Nii (mask_floats msk2) (shape lbls) (g_affine g)
                               (pjoin op (fst voi +:+ "_mask.nii.gz")) trnsp (g_flip g));
                   mret (Some (pjoin op (fst voi +:+ "_mask.nii.gz")))
                 else mret None
             | None => mret None
             end : M F (option path)) = mret None).
  { intros msk2. destruct Hc as [-> | ->]; [destruct outpath|]; reflexivity. }
  split.
  - unfold extract_voi. apply eo_bind; [apply eo_lift|intros msk2].
    rewrite Ef. eo_auto.
  - unfold extract_voi. intros tr out' tr' E.
    apply M_bind_inv in E as (msk2 & t1 & E1 & E). rewrite Ef in E.
    apply M_bind_inv in E as (fv & t2 & E2 & E). apply mret_inv in E2 as [<- _].
    apply M_bind_inv in E as (im_ & t3 & E3 & E).
    apply M_bind_inv in E as (emsum & t4 & E4 & E).
    apply mret_inv in E as [<- _]. eexists. split; reflexivity.
Qed.

(** X16. With the atlas given as an array, or with no output folder,
    [extract_vois] writes no mask file and creates no folder, whatever
    else it is given and whether it returns or raises; the records it
    returns name no mask file. *)
Theorem extract_vois_writes_no_mask impet atlas voi_dct atlas_mask outpath output_masks
    (st : store F) :
  is_ndarray atlas = true \/ outpath = None ->
  snd (fst (extract_vois svc impet atlas voi_dct atlas_mask outpath output_masks st)) = []
  /\ forall out name r,
       fst (fst (extract_vois svc impet atlas voi_dct atlas_mask outpath output_masks st))
         = Ok out ->
       out !! name = Some r -> fvoi r = None.
Proof.
  intros Hc. unfold extract_vois.
  destruct (resolve_pet svc impet) as [[im g0]|e]; [|split; [reflexivity|discriminate]].
  destruct (resolve_atlas svc atlas g0) as [[[lbls0|] g]|e];
    [|split; [reflexivity|discriminate]|split; [reflexivity|discriminate]].
  destruct (remove_nans lbls0 st) as [lbls st'].
  destruct (resolve_mask svc atlas_mask st') as [amsk|e]; [|split; [reflexivity|discriminate]].
  cbn [fst snd]. split.
  - destruct (eo_foldM (fun _ : event F => False)
                (extract_voi (deref st' <$> im) (deref st' lbls) amsk g (is_ndarray atlas)
                   outpath output_masks) voi_dct ∅
                (fun s x => proj1 (extract_voi_no_file _ _ _ _ _ _ _ s x Hc)) [])
      as (w & -> & Hw).
    destruct w as [|ev w]; [reflexivity|]. now apply Forall_cons in Hw as [[] _].
  - intros out name r E.
    destruct (foldM _ _ _ _) as [res t] eqn:Ef. simpl in E. subst res.
    revert name r.
    refine (foldM_inv (F := F) _
              (fun _ (m : gmap string (voi_record F)) =>
                 forall name r, m !! name = Some r -> fvoi r = None)
              _ _ _ _ _ _ _ Ef).
    + intros pre x post s0 tr0 s1 tr1 _ Hs0 Es name r.
      apply (proj2 (extract_voi_no_file _ _ _ _ _ _ _ _ _ Hc)) in Es as (r' & -> & Hr').
      destruct (decide (fst x = name)) as [<-|Hn].
      * rewrite lookup_insert_eq. now intros [= <-].
      * rewrite lookup_insert_ne by assumption. apply Hs0.
    + intros name r Hl. rewrite lookup_empty in Hl. discriminate.
Qed.

(** X17. A PET argument that is no dictionary, no existing file and no
    array is found out only when the first VOI is summed: with VOIs to
    extract the call raises [UnboundLocalError], without any it returns
    the empty result. *)
Theorem extract_vois_unusable_pet impet la voi_dct outpath output_masks (st : store F) :
  impet = ArgOther \/ (exists p, impet = ArgFile p /\ is_file svc p = false) ->
  fst (extract_vois svc impet (ArgArray la) voi_dct MaskNone outpath output_masks st)
  = (match voi_dct with
     | [] => Ok ∅
     | _ :: _ => Raise (UnboundLocalError "im")
     end, []).
Proof.
  intros Hp.
  assert (Hr : resolve_pet svc impet = Ok (None, no_geometry)).
  { destruct Hp as [->|(p & -> & Hp)]; [reflexivity|]. cbn. now rewrite Hp. }
  unfold extract_vois. rewrite Hr.
  cbn [resolve_atlas remove_nans resolve_mask is_ndarray fst fmap option_fmap option_map].
  destruct voi_dct as [|voi voi_dct]; [reflexivity|].
  cbn [foldM]. unfold extract_voi at 1. cbn [apply_mask].
  unfold mbind at 1, M_bind at 1. unfold mbind at 1, M_bind at 1, lift at 1.
  unfold mbind at 1, M_bind at 1.
  destruct outpath; reflexivity.
Qed.

(** X18. Mask files need the orientation of an image: with an output
    folder, an atlas given as a dictionary without ['transpose'] and a PET
    image that brings none (an array, or a dictionary without
    ['transpose']), the call creates the folder and raises
    [AttributeError] at the first VOI, before any mask is written. *)
Theorem extract_vois_mask_needs_transpose impet im a f voi voi_dct op output_masks
    (st : store F) :
  (exists lp, impet = ArgArray lp) \/ (exists imp ap fp, impet = ArgDict imp ap fp None) ->
  fst (extract_vois svc impet (ArgDict im a f None) (voi :: voi_dct) MaskNone
         (Some op) output_masks st)
  = (Raise (AttributeError "'NoneType' object has no attribute 'index'"), [EvCreateDir op]).
Proof. intros [(lp & ->)|(imp & ap & fp & ->)]; reflexivity. Qed.

(** X19. An atlas mask that is neither an existing file nor an array is
    refused with [ValueError], but only after the NaNs of the caller's
    atlas array have been set to zero. *)
Theorem extract_vois_bad_atlas_mask lp la voi_dct atlas_mask outpath output_masks
    (st : store F) :
  atlas_mask = MaskOther \/ (exists p, atlas_mask = MaskFile p /\ is_file svc p = false) ->
  extract_vois svc (ArgArray lp) (ArgArray la) voi_dct atlas_mask outpath output_masks st
  = ((Raise (ValueError "Incorrectly provided atlas mask"), []),
     store_set st la (nan_to_zero (st la))).
Proof.
  intros [->|(p & -> & Hp)]; unfold extract_vois; cbn; [reflexivity|]. now rewrite Hp.
Qed.

End VoiEdges.

(** * Reasoning about the wider computations *)

Lemma X_bind_inv {F A B} (m : X F A) (k : A -> X F B) tr b tr' :
  (m ≫= k) tr = (Ok b, tr') ->
  exists a tr1, m tr = (Ok a, tr1) /\ k a tr1 = (Ok b, tr').
Proof.
  unfold mbind, X_bind. destruct (m tr) as [[a|e] tr1]; intros E; [eauto|discriminate].
Qed.

Lemma xlift_inv {F A} (r : result A) (tr : list (xevent F)) a tr' :
  xlift r tr = (Ok a, tr') -> r = Ok a /\ tr' = tr.
Proof. unfold xlift. intros E. injection E as -> ->. auto. Qed.

Lemma xemit_inv {F} (ev : xevent F) tr u tr' :
  xemit ev tr = (Ok u, tr') -> tr' = tr ++ [ev].
Proof. unfold xemit. intros E. now injection E as _ <-. Qed.

Lemma xmret_inv {F A} (a b : A) (tr tr' : list (xevent F)) :
  mret (M := X F) a tr = (Ok b, tr') -> a = b /\ tr' = tr.
Proof. unfold mret, X_ret. intros E. injection E as -> ->. auto. Qed.

(** * [atl2pet] and [proc_vois] *)

Section ProcFacts.

Context {F : Type} `{FloatOps F}.
Variable svc : services F.
Variable psvc : proc_services F.

(** X20. [atl2pet] cannot be called without an output folder: the default
    reads the variable [cl_dct] before it is assigned, and the call raises
    [UnboundLocalError] with nothing done.  With a folder, a dictionary
    that has neither a single entry nor the key ['norm'] is refused with
    [ValueError], once the folder has been created and before any image
    is read. *)
Theorem atl2pet_rejects frefpet fatl cldct outpath tr :
  (outpath = None ->
   atl2pet svc psvc frefpet fatl cldct outpath tr = (Raise (UnboundLocalError "cl_dct"), tr))
  /\ (forall p, outpath = Some p ->
        length cldct <> 1%nat ->
        (forall v, ~ In ("norm", v) cldct) ->
        atl2pet svc psvc frefpet fatl cldct outpath tr
        = (Raise (ValueError "unrecognised CL dictionary"), tr ++ [XCore (EvCreateDir p)])).
Proof.
  split.
  - intros ->. reflexivity.
  - intros p -> Hlen Hnorm. unfold atl2pet.
    unfold mbind at 1, X_bind at 1, mret at 1, X_ret at 1.
    unfold mbind at 1, X_bind at 1, xemit at 1.
    unfold mbind at 1, X_bind at 1, xlift at 1.
    unfold decipher_cldct.
    destruct (Nat.eqb_spec (length cldct) 1); [contradiction|].
    destruct (existsb _ cldct) eqn:Ex; [|reflexivity].
    apply existsb_exists in Ex as ([k v] & Hin & Hk). apply String.eqb_eq in Hk.
    simpl in Hk. subst k. destruct (Hnorm v Hin).
Qed.

(** X21. A returning call of [atl2pet] has made eight calls, in this
    order: it creates the folder, copies the inverse deformation into it
    under the name [<stem>_2nat.nii], starts SPM and changes the copy,
    unpacks the atlas, warps it, removes the unpacked atlas again and
    resamples the grey-matter image.  The atlas returned is the first
    output of the warp, and neither returned array holds a NaN. *)
Theorem atl2pet_returns frefpet fatl cldct outpath tr out tr' :
  atl2pet svc psvc frefpet fatl cldct outpath tr = (Ok out, tr') ->
  exists opth src c1 M bbox,
    outpath = Some opth /\ ao_outpath out = opth
    /\ (let fmod := pjoin opth (split_dot_head (basename src) +:+ "_2nat.nii") in
        let fniiatl := nii_ugzip psvc fatl opth in
        let flist := [with_suffix fniiatl ",1"] in
        tr' = tr ++ [XCore (EvCreateDir opth); XCore (EvCopyFile src fmod); XSpmEngine;
                     XModifyAffine fmod M; XUgzip fatl opth;
                     XNormw fmod flist (voxsize psvc frefpet) bbox opth;
                     XRemove fniiatl; XResampleAff frefpet c1 M opth "_GM_in_PET"]
        /\ normw_spm psvc fmod flist (voxsize psvc frefpet) bbox opth !! 0%nat
           = Some (fatlpet out)
        /\ fgmpet out = resample_spm_aff psvc frefpet c1 M opth "_GM_in_PET")
    /\ (forall v, In v (data (atlpet out)) -> fisnan v = false)
    /\ (forall v, In v (data (gmpet out)) -> fisnan v = false).
Proof.
  unfold atl2pet. intros E.
  apply X_bind_inv in E as (opth & t1 & E1 & E).
  destruct outpath as [p|]; [|discriminate].
  apply xmret_inv in E1 as [-> ->].
  apply X_bind_inv in E as (? & t2 & E2 & E). apply xemit_inv in E2 as ->.
  apply X_bind_inv in E as (cl_dct & t3 & E3 & E). apply xlift_inv in E3 as [E3 ->].
  apply X_bind_inv in E as (petdct & t4 & E4 & E). apply xlift_inv in E4 as [E4 ->].
  apply X_bind_inv in E as (reg2 & t5 & E5 & E). apply xlift_inv in E5 as [E5 ->].
  apply X_bind_inv in E as (aff & t6 & E6 & E). apply xlift_inv in E6 as [E6 ->].
  apply X_bind_inv in E as (M & t7 & E7 & E). apply xlift_inv in E7 as [E7 ->].
  apply X_bind_inv in E as (norm & t8 & E8 & E). apply xlift_inv in E8 as [E8 ->].
  apply X_bind_inv in E as (invdef & t9 & E9 & E). apply xlift_inv in E9 as [E9 ->].
  apply X_bind_inv in E as (src & t10 & E10 & E). apply xlift_inv in E10 as [E10 ->].
  apply X_bind_inv in E as (? & t11 & E11 & E). apply xemit_inv in E11 as ->.
  apply X_bind_inv in E as (? & t12 & E12 & E). apply xemit_inv in E12 as ->.
  apply X_bind_inv in E as (? & t13 & E13 & E). apply xemit_inv in E13 as ->.
  apply X_bind_inv in E as (? & t14 & E14 & E). apply xemit_inv in E14 as ->.
  apply X_bind_inv in E as (? & t15 & E15 & E). apply xemit_inv in E15 as ->.
  apply X_bind_inv in E as (finvatl & t16 & E16 & E). apply xlift_inv in E16 as [E16 ->].
  apply X_bind_inv in E as (? & t17 & E17 & E). apply xemit_inv in E17 as ->.
  apply X_bind_inv in E as (norm' & t18 & E18 & E). apply xlift_inv in E18 as [E18 ->].
  apply X_bind_inv in E as (c1 & t19 & E19 & E). apply xlift_inv in E19 as [E19 ->].
  apply X_bind_inv in E as (c1p & t20 & E20 & E). apply xlift_inv in E20 as [E20 ->].
  apply X_bind_inv in E as (? & t21 & E21 & E). apply xemit_inv in E21 as ->.
  apply X_bind_inv in E as (atl & t22 & E22 & E). apply xlift_inv in E22 as [E22 ->].
  apply X_bind_inv in E as (gm & t23 & E23 & E). apply xlift_inv in E23 as [E23 ->].
  apply xmret_inv in E as [<- ->]. cbn [ao_outpath fatlpet fgmpet atlpet gmpet].
  exists opth, src, c1p, M, (get_bbox psvc petdct).
  split; [reflexivity|]. split; [reflexivity|]. split.
  - cbv zeta. split; [rewrite <- !app_assoc; reflexivity|].
    split; [now apply get_item_inv|reflexivity].
  - split; intros v Hv; apply (nan_to_zero_clean _ _ Hv).
Qed.

(** X22. Without a dictionary [voi_idx], [proc_vois] returns for the atlas
    ['hammers'] only.  The atlas ['aal'] is fetched and then refused with
    the [ValueError] of an unrecognised atlas name, since the table of
    AAL codes is kept under the name ['all']; and for ['all'] there is no
    atlas file, so the call raises [UnboundLocalError]. *)
Theorem proc_vois_atlas_names nd fsuvr fpet cl_dct atlas voi_idx res outpath apply_gmmask
    tr opth :
  (forall d, voi_idx <> VoiDict d) ->
  match outpath with
  | Some p => opth = p
  | None => exists p, nd_outpath nd = Some p /\ opth = pjoin (parent p) "DYN"
  end ->
  (forall out tr',
      proc_vois svc psvc nd fsuvr fpet cl_dct atlas voi_idx res outpath apply_gmmask tr
        = (Ok out, tr') ->
      atlas = AtlasStr "hammers")
  /\ (atlas = AtlasStr "aal" ->
      forall fatlas, get_atlas psvc "aal" res = Ok fatlas ->
      proc_vois svc psvc nd fsuvr fpet cl_dct atlas voi_idx res outpath apply_gmmask tr
      = (Raise (ValueError "unrecognised atlas name!"),
         tr ++ [XCore (EvCreateDir opth); XGetAtlas "aal" res]))
  /\ (atlas = AtlasStr "all" ->
      proc_vois svc psvc nd fsuvr fpet cl_dct atlas voi_idx res outpath apply_gmmask tr
      = (Raise (UnboundLocalError "fatl"), tr ++ [XCore (EvCreateDir opth)])).
Proof.
  intros Hvoi Hopth.
  assert (Eo : forall t : list (xevent F),
            (match outpath with
             | None => p ← xlift (niidat_outpath nd); mret (pjoin (parent p) "DYN")
             | Some p => mret p
             end : X F path) t = (Ok opth, t)).
  { intros t. destruct outpath as [p|]; [now subst|].
    destruct Hopth as (p & Hp & ->). unfold niidat_outpath. now rewrite Hp. }
  split; [|split].
  - intros out tr' E. unfold proc_vois in E.
    apply X_bind_inv in E as (opth' & t1 & E1 & E).
    apply X_bind_inv in E as (? & t2 & E2 & E).
    apply X_bind_inv in E as (fatl & t3 & E3 & E).
    apply X_bind_inv in E as (dvoi & t4 & E4 & E). apply xlift_inv in E4 as [E4 ->].
    apply X_bind_inv in E as (fatl_ & t5 & E5 & E). apply xlift_inv in E5 as [E5 ->].
    destruct fatl as [f|]; [|discriminate].
    unfold select_vois in E4.
    destruct voi_idx as [|d|]; [|destruct (Hvoi d eq_refl)|].
    + destruct atlas as [s| |]; try discriminate. simpl in E4.
      destruct (String.eqb_spec s "all") as [->|_].
      * cbn in E3. apply xmret_inv in E3 as [? _]. discriminate.
      * destruct (String.eqb_spec s "hammers") as [->|_]; [reflexivity|discriminate].
    + destruct atlas as [s| |]; try discriminate. simpl in E4.
      destruct (String.eqb_spec s "all") as [->|_].
      * cbn in E3. apply xmret_inv in E3 as [? _]. discriminate.
      * destruct (String.eqb_spec s "hammers") as [->|_]; [reflexivity|discriminate].
  - intros -> fatlas Hget. unfold proc_vois.
    unfold mbind at 1, X_bind at 1. rewrite Eo.
    unfold mbind at 1, X_bind at 1, xemit at 1.
    unfold mbind at 1, X_bind at 1. cbn [select_atlas atlas_file].
    change (is_nifti_name (str_path "aal")) with false.
    change (existsb (String.eqb "aal") ["hammers"; "aal"]) with true. cbv iota.
    unfold mbind at 1, X_bind at 1, xemit at 1.
    unfold mbind at 1, X_bind at 1, xlift at 1. rewrite Hget.
    unfold mret at 1, X_ret at 1.
    unfold mbind at 1, X_bind at 1, xlift at 1.
    assert (Es : select_vois (AtlasStr "aal") voi_idx
                 = Raise (ValueError "unrecognised atlas name!")).
    { destruct voi_idx as [|d|]; [reflexivity|destruct (Hvoi d eq_refl)|reflexivity]. }
    rewrite Es. rewrite <- ?app_assoc. reflexivity.
  - intros ->. unfold proc_vois.
    unfold mbind at 1, X_bind at 1. rewrite Eo.
    unfold mbind at 1, X_bind at 1, xemit at 1.
    unfold mbind at 1, X_bind at 1. cbn [select_atlas atlas_file].
    change (is_nifti_name (str_path "all")) with false.
    change (existsb (String.eqb "all") ["hammers"; "aal"]) with false. cbv iota.
    unfold mret at 1, X_ret at 1.
    unfold mbind at 1, X_bind at 1, xlift at 1.
    assert (Es : select_vois (AtlasStr "all") voi_idx = Ok aal_vois).
    { destruct voi_idx as [|d|]; [reflexivity|destruct (Hvoi d eq_refl)|reflexivity]. }
    rewrite Es. reflexivity.
Qed.

End ProcFacts.

(** * The rest of [align_suvr] *)

Lemma core_inv {F A} (m : M F A) (tr : list (xevent F)) a tr' :
  core m tr = (Ok a, tr') -> exists w, m [] = (Ok a, w) /\ tr' = tr ++ map XCore w.
Proof.
  unfold core. destruct (m []) as [r w]. intros E. injection E as -> <-. eauto.
Qed.

Lemma fold_result_inv {A S} (f : S -> A -> result S) (I : list A -> S -> Prop) l :
  (forall pre x post s0 s1,
      l = pre ++ x :: post -> I pre s0 -> f s0 x = Ok s1 -> I (pre ++ [x]) s1) ->
  forall s s', I [] s -> fold_result f l s = Ok s' -> I l s'.
Proof.
  intros Hstep.
  assert (Hgen : forall post pre s s',
            l = pre ++ post -> I pre s -> fold_result f post s = Ok s' -> I l s').
  { induction post as [|x post IH]; intros pre s s' Hl Hpre E.
    - simpl in E. injection E as <-. now rewrite Hl, app_nil_r.
    - simpl in E. apply result_bind_inv in E as (s1 & E1 & E).
      apply (IH (pre ++ [x]) s1 s'); [now rewrite <- app_assoc| |assumption].
      eapply Hstep; eauto. }
  intros s s' Hs E. now apply (Hgen l [] s s').
Qed.

Lemma mash_frames_total_length L ts mfrms :
  Mash.mash_frames L (length ts) ts = Ok mfrms -> length (concat mfrms) = length ts.
Proof.
  intros E. destruct (Z.eq_dec L 0) as [->|HL].
  { now apply (proj2 (MashEdges.mash_frames_zero_min_dur _ ts)) in E. }
  rewrite (MashFacts.mash_frames_unfold L ts HL) in E. cbv zeta in E.
  destruct (Nat.eqb_spec
              (length (concat (map (fun i => Mash.find_idx
                   (Mash.win (Z.of_nat i * L) ((Z.of_nat i + 1) * L)) 0 ts)
                   (seq 0 (Z.to_nat (Mash.sm (Mash.short L) ts / L))))))
              (Mash.cnt (Mash.short L) ts)) as [Ec|]; [|discriminate].
  injection E as <-. rewrite concat_app, length_app, Ec, MashFacts.concat_singletons.
  rewrite MashFacts.find_idx_length. apply MashFacts.cnt_negb.
Qed.

Lemma groups_singletons (gs : list (list nat)) :
  Forall (fun g => g <> []) gs -> (length (concat gs) <= length gs)%nat ->
  Forall (fun g => length g = 1%nat) gs.
Proof.
  intros Hne. induction Hne as [|g gs Hg Hgs IH]; intros Hl; [constructor|].
  simpl in Hl. rewrite length_app in Hl.
  assert (Hge : (length gs <= length (concat gs))%nat).
  { clear -Hgs. induction Hgs as [|a l Ha _ IHl]; [reflexivity|].
    simpl. rewrite length_app. destruct a; [contradiction|]. simpl. lia. }
  destruct g as [|i g]; [contradiction|]. simpl in Hl.
  constructor; [destruct g; [reflexivity|simpl in Hl; lia]|].
  apply IH. lia.
Qed.

Lemma length_select_le {A} (l : list A) mask : (length (select l mask) <= length l)%nat.
Proof.
  revert mask. induction l as [|x l IH]; intros [|b mask]; simpl; try lia.
  specialize (IH mask). destruct b; simpl; lia.
Qed.

Lemma length_select {A} (l : list A) mask :
  length l = length mask -> length (select l mask) = length (List.filter (fun b => b) mask).
Proof.
  revert mask. induction l as [|x l IH]; intros [|b mask] Hl; simpl in *; try lia.
  destruct b; simpl; rewrite IH by lia; reflexivity.
Qed.

Section AlignSuvrRest.

Context {F : Type} `{FloatOps F}.
Variable svc : services F.
Variable asvc : @align_services F.

Lemma wide_step_counts idx_r aw fpeti Saff Rm rfrm niiim st fi frm st' :
  wide_step svc idx_r aw fpeti Saff Rm rfrm niiim st (fi, frm) = Ok st' ->
  exists b : bool, idx_r !! fi = Some b
    /\ if b then ws_fwi st' = S (ws_fwi st) /\ (ws_fwi st < length (affines aw))%nat
       else ws_fwi st' = ws_fwi st.
Proof.
  unfold wide_step. cbn [fst snd]. intros E.
  apply result_bind_inv in E as (b & Eb & E). apply get_item_inv in Eb.
  exists b. split; [assumption|]. destruct b.
  - apply result_bind_inv in E as (a & Ea & E). apply get_item_inv in Ea.
    apply result_bind_inv in E as (? & _ & E).
    apply result_bind_inv in E as (? & _ & E).
    apply result_bind_inv in E as (? & _ & E).
    apply result_bind_inv in E as (? & _ & E).
    apply result_bind_inv in E as (? & _ & E).
    apply result_bind_inv in E as (? & _ & E).
    apply result_bind_inv in E as (? & _ & E).
    apply result_bind_inv in E as (? & _ & E).
    apply result_bind_inv in E as (? & _ & E).
    injection E as <-. cbn. split; [reflexivity|]. eapply lookup_lt_Some; eauto.
  - apply result_bind_inv in E as (? & _ & E).
    apply result_bind_inv in E as (? & _ & E).
    apply result_bind_inv in E as (? & _ & E).
    apply result_bind_inv in E as (? & _ & E).
    apply result_bind_inv in E as (? & _ & E).
    apply result_bind_inv in E as (? & _ & E).
    apply result_bind_inv in E as (? & _ & E).
    apply result_bind_inv in E as (? & _ & E).
    injection E as <-. reflexivity.
Qed.

Lemma wide_loop_counts idx_r aw fpeti Saff Rm rfrm niiim (falign : list path) ws0 ws :
  length falign = length idx_r -> ws_fwi ws0 = 0%nat ->
  fold_result (wide_step svc idx_r aw fpeti Saff Rm rfrm niiim) (enumerate falign) ws0 = Ok ws ->
  (length (List.filter (fun b => b) idx_r) <= length (affines aw))%nat.
Proof.
  intros Hlen H0 E.
  assert (Hinv : ws_fwi ws = length (List.filter (fun b => b)
                                       (take (length (enumerate falign)) idx_r))
                 /\ (ws_fwi ws <= length (affines aw))%nat).
  { refine (fold_result_inv _
              (fun pre st => ws_fwi st = length (List.filter (fun b => b)
                                                   (take (length pre) idx_r))
                             /\ (ws_fwi st <= length (affines aw))%nat)
              _ _ _ _ _ E).
    - intros pre [fi frm] post s0 s1 Hl [Hc Hle] Es.
      apply enumerate_split in Hl as [Hfi _]. cbn [fst] in Hfi. subst fi.
      apply wide_step_counts in Es as (b & Hb & Hs).
      rewrite length_app. cbn [length]. rewrite Nat.add_1_r.
      rewrite (take_S_r _ _ _ Hb), List.filter_app, length_app. cbn [List.filter].
      destruct b; cbn [length].
      + destruct Hs as [-> Hlt]. split; lia.
      + rewrite Hs. split; lia.
    - rewrite H0. cbn. split; [reflexivity|lia]. }
  destruct Hinv as [Hc Hle]. unfold enumerate in Hc.
  rewrite length_combine, length_seq, Nat.min_id, Hlen, firstn_all in Hc. lia.
Qed.

(** X23. The rest of [align_suvr] looks up the affine, the metrics and the
    aligned file of a remaining frame by the count of remaining frames,
    where [align_frames] has one entry for every group.  A call
    therefore returns only if the call of [align_frames] that it makes,
    on the frames outside the SUVr window, their rows of the timings,
    the SUVr image as reference, the tool SPM and the folder
    ['NIfTI_aligned'], has made every one of these frames a group of
    its own; with two frames mashed into one group the look-up runs
    past the end and the call raises. *)
Theorem align_suvr_rest_needs_single_frames stat Cnt outpath save_not_aligned com_correction
    o tr d tr' :
  align_suvr_rest svc asvc stat Cnt outpath save_not_aligned com_correction o tr = (Ok d, tr') ->
  exists fl suvr_frm fall ts_r aligned_wide w,
    (let idx_r := map (fun f => negb (existsb (String.eqb f)
                                        (descr_suvr_frms (sw_stat stat))))
                      (descr_frms (sw_stat stat)) in
     suvr_file_names svc (sw_stat stat) outpath com_correction = Ok fl
     /\ preproc_suvr asvc (so_faligned o) (f_niidir fl) com_correction = Ok suvr_frm
     /\ mapM (entry (sw_stat stat)) (descr_frms (sw_stat stat)) = Ok fall
     /\ mask_rows (sw_timings stat) idx_r = Ok ts_r
     /\ align_frames svc (select (map fnii fall) idx_r) ts_r (sf_fcom suvr_frm) Cnt "spm"
          false None (Some (f_niidir fl)) [] = (Ok aligned_wide, w)
     /\ length (select (map fnii fall) idx_r) = length (List.filter (fun b => b) idx_r)
     /\ Forall (fun g => length g = 1%nat) (mashed_frame_idx aligned_wide)
     /\ length (mashed_frame_idx aligned_wide) = length (select (map fnii fall) idx_r)).
Proof.
  unfold align_suvr_rest. intros E.
  apply X_bind_inv in E as (fl & t1 & E1 & E). apply xlift_inv in E1 as [E1 ->].
  apply X_bind_inv in E as (es & t2 & E2 & E).
  apply X_bind_inv in E as (fnref & t3 & E3 & E).
  apply X_bind_inv in E as (niiref & t4 & E4 & E).
  apply X_bind_inv in E as (? & t5 & E5 & E).
  apply X_bind_inv in E as (suvr_frm & t6 & E6 & E). apply xlift_inv in E6 as [E6 ->].
  apply X_bind_inv in E as (cn & t7 & E7 & E).
  apply X_bind_inv in E as (tmp & t8 & E8 & E).
  apply X_bind_inv in E as (trnsp & t9 & E9 & E).
  apply X_bind_inv in E as (? & t10 & E10 & E).
  apply X_bind_inv in E as (suvr & t11 & E11 & E).
  apply X_bind_inv in E as (fall & t12 & E12 & E). apply xlift_inv in E12 as [E12 ->].
  apply X_bind_inv in E as (ts_r & t13 & E13 & E). apply xlift_inv in E13 as [E13 ->].
  apply X_bind_inv in E as (aw & t14 & E14 & E).
  apply X_bind_inv in E as (ws & t15 & E15 & E). apply xlift_inv in E15 as [E15 ->].
  clear E.
  apply core_inv in E14 as (w & Eaw & _).
  exists fl, suvr_frm, fall, ts_r, aw, w. cbv zeta.
  set (idx_r := map (fun f => negb (existsb (String.eqb f) (descr_suvr_frms (sw_stat stat))))
                    (descr_frms (sw_stat stat))) in *.
  set (falign := map fnii fall) in *.
  assert (Hlen : length falign = length idx_r).
  { unfold falign, idx_r. rewrite !length_map. symmetry.
    clear -E12. revert fall E12.
    induction (descr_frms (sw_stat stat)) as [|k l IH]; intros fall E.
    - cbn in E. now injection E as <-.
    - cbn in E. apply result_bind_inv in E as (e & _ & E).
      apply result_bind_inv in E as (fall' & E' & E). injection E as <-.
      simpl. f_equal. now apply IH. }
  assert (Hn : length (select falign idx_r) = length (List.filter (fun b => b) idx_r))
    by now apply length_select.
  split; [assumption|]. split; [assumption|]. split; [assumption|].
  split; [assumption|]. split; [assumption|]. split; [assumption|].
  assert (Hle : (length (List.filter (fun b => b) idx_r) <= length (affines aw))%nat).
  { eapply wide_loop_counts; [exact Hlen| |exact E15]. reflexivity. }
  pose proof (align_frames_kept svc _ _ _ _ _ _ _ _ _ _ _ Eaw)
    as (st & HS & _ & _ & _ & _ & Hl & K1 & _).
  pose proof (align_frames_run_all svc _ _ _ _ _ _ _ _ _ _ _ Eaw)
    as (ts & st' & u0 & u1 & u2 & Hts & Hm & Hfiles & _).
  pose proof (frame_times_length _ _ _ Hts) as Hlts. rewrite <- Hlts in Hm.
  apply mash_frames_total_length in Hm.
  assert (Hne : Forall (fun g : list nat => g <> []) (mashed_frame_idx aw)).
  { pose proof (mash_files_named svc _ _ _ _ _ _ Hfiles) as HF.
    clear -HF. induction HF as [|g f gs fs Hg _ IH]; constructor; [|assumption].
    intros ->. discriminate. }
  rewrite HS, K1, Hl in Hle.
  assert (Hs : Forall (fun g => length g = 1%nat) (mashed_frame_idx aw)).
  { apply groups_singletons; [assumption|]. lia. }
  split; [assumption|].
  rewrite <- Hlts, <- Hm. clear -Hs.
  induction Hs as [|g gs Hg _ IH]; [reflexivity|].
  simpl. rewrite length_app, Hg, <- IH. reflexivity.
Qed.

End AlignSuvrRest.

(** * [align_break] and [align] *)

Section AlignBreakFacts.

Context {F : Type} `{FloatOps F}.
Variable svc : services F.
Variable asvc : @align_services F.

Lemma static_loop_inv dcycrr nb l (s s' : stack F) :
  fold_result (static_step svc asvc dcycrr nb) l s = Ok s' ->
  frame_shape s' = frame_shape s /\ length (frames s') = length (frames s)
  /\ Forall (fun x => snd x <> None) l
  /\ (nan_free s -> nan_free s').
Proof.
  revert s. induction l as [|[i f] l IH]; intros s E; simpl in E.
  - injection E as <-. repeat split; auto.
  - apply result_bind_inv in E as (s1 & E1 & E).
    unfold static_step in E1. cbn [fst snd] in E1.
    apply result_bind_inv in E1 as (im & Eread & Eset).
    apply stack_set_inv in Eset as (_ & Hi & ->).
    destruct (IH _ E) as (Hs & Hl & Hn & Hc). cbn [frame_shape frames] in *.
    rewrite length_insert in Hl. repeat split; auto.
    + constructor; [|assumption]. simpl. intros ->. discriminate.
    + intros Hfree. apply Hc. unfold nan_free. cbn [frames].
      apply Forall_insert; [assumption|].
      apply List.Forall_forall. intros v Hv. eapply nan_to_zero_clean; eauto.
Qed.

Lemma Forall_snd_enumerate {A} (P : A -> Prop) (l : list A) :
  Forall (fun x => P (snd x)) (enumerate l) -> Forall P l.
Proof.
  unfold enumerate. generalize 0%nat. induction l as [|a l IH]; intros n Hl; [constructor|].
  simpl in Hl. inversion Hl as [|? ? Ha Hl']; subst. constructor; [exact Ha|].
  eapply IH; eauto.
Qed.

(** X24. A call of [align_break] that does not read a stored result keeps
    the dictionary of [align_suvr] as it is.  Without coffee-break data
    it does nothing else.  With such data it aligns the frames of the
    break to the SUVr reference inside [niidat['outpath']], lists the
    aligned frames of the break followed by those of the static series,
    and writes one 4D image of as many frames as it lists, without a
    NaN, named after that number; every file listed has been read.  The
    last action stores the result. *)
Theorem align_break_stacks_break_then_static nd aligned_suvr Cnt reg_tool tr r tr' :
  align_break svc asvc nd aligned_suvr Cnt reg_tool false tr = (Ok r, tr') ->
  ar_suvr r = aligned_suvr
  /\ ((id_acq_break asvc nd = Ok None /\ ar_break r = None /\ tr' = tr)
      \/ exists bd outp study fniis bp niia aff trnsp flip w,
           id_acq_break asvc nd = Ok (Some bd)
           /\ nd_outpath nd = Some outp
           /\ ar_break r = Some bp
           /\ mapM (fun k => e ← break_entry bd k; Ok (fnii e)) (bd_frms bd) = Ok fniis
           /\ align_frames svc fniis (bd_timings bd) (sv_fsuvr (as_suvr aligned_suvr)) Cnt
                reg_tool false None (Some outp) [] = (Ok (bp_alignment bp), w)
           /\ bp_fpeti bp = faligned (bp_alignment bp) ++ wd_fpeti (as_wide aligned_suvr)
           /\ Forall (fun f => f <> None) (bp_fpeti bp)
           /\ bp_fpet bp
              = pjoin (pjoin outp "NIfTI_aligned")
                  ("Dynamic-" +:+ pretty (length (bp_fpeti bp)) +:+ "-frames_study-"
                   +:+ study +:+ "_aligned-to-SUVr-ref.nii.gz")
           /\ length (frames niia) = length (bp_fpeti bp)
           /\ nan_free niia
           /\ tr' = tr ++ map XCore w
                      ++ [XCore (EvArray2Nii (stack_array niia) aff (bp_fpet bp)
                                   "AmyPET: aligned dynamic frames" trnsp flip);
                          XSave (pjoin (pjoin outp "NIfTI_aligned")
                                   ("Dynamic-early-frames_study-" +:+ study
                                    +:+ "_aligned-to-SUVr-ref.npy"))]).
Proof.
  unfold align_break. intros E.
  apply X_bind_inv in E as (bdyn & t1 & E1 & E). apply xlift_inv in E1 as [E1 ->].
  destruct bdyn as [bd|].
  2:{ apply xmret_inv in E as [<- ->]. cbn. split; [reflexivity|]. left. auto. }
  apply X_bind_inv in E as (ts0 & t2 & E2 & E). apply xlift_inv in E2 as [E2 ->].
  apply X_bind_inv in E as (dcycrr & t3 & E3 & E). apply xlift_inv in E3 as [E3 ->].
  apply X_bind_inv in E as (k0 & t4 & E4 & E). apply xlift_inv in E4 as [E4 ->].
  apply X_bind_inv in E as (e0 & t5 & E5 & E). apply xlift_inv in E5 as [E5 ->].
  apply X_bind_inv in E as (study & t6 & E6 & E). apply xlift_inv in E6 as [E6 ->].
  apply X_bind_inv in E as (outp & t7 & E7 & E). apply xlift_inv in E7 as [E7 ->].
  cbn [andb] in E.
  apply X_bind_inv in E as (fniis & t8 & E8 & E). apply xlift_inv in E8 as [E8 ->].
  apply X_bind_inv in E as (aligned & t9 & E9 & E). apply core_inv in E9 as (w & Ew & ->).
  apply X_bind_inv in E as (f0_ & t10 & E10 & E). apply xlift_inv in E10 as [E10 ->].
  apply X_bind_inv in E as (tmp & t11 & E11 & E). apply xlift_inv in E11 as [E11 ->].
  apply X_bind_inv in E as (niia & t12 & E12 & E). apply xlift_inv in E12 as [E12 ->].
  apply X_bind_inv in E as (niia' & t13 & E13 & E). apply xlift_inv in E13 as [E13 ->].
  apply X_bind_inv in E as (trnsp & t14 & E14 & E). apply xlift_inv in E14 as [E14 ->].
  apply X_bind_inv in E as ([] & t15 & E15 & E). apply xemit_inv in E15 as ->.
  apply X_bind_inv in E as ([] & t16 & E16 & E). apply xemit_inv in E16 as ->.
  apply xmret_inv in E as [<- ->]. cbn [ar_suvr ar_break].
  split; [reflexivity|]. right.
  apply save4d_loop_inv in E12 as (Hs1 & Hl1 & Hn1 & Hc1).
  apply static_loop_inv in E13 as (Hs2 & Hl2 & Hn2 & Hc2).
  assert (Hlen : length (frames niia')
                 = length (faligned aligned ++ wd_fpeti (as_wide aligned_suvr))).
  { rewrite Hl2, Hl1. unfold stack_zeros. cbn [frames]. now rewrite length_replicate. }
  unfold niidat_outpath in E7. destruct (nd_outpath nd) as [q|] eqn:Eq; [|discriminate].
  injection E7 as ->.
  eexists bd, outp, study, fniis, _, niia', (nii_affine tmp), trnsp, (nii_flip tmp), w.
  cbn [bp_fpet bp_fpeti bp_alignment].
  split; [assumption|]. split; [reflexivity|]. split; [reflexivity|].
  split; [assumption|]. split; [assumption|]. split; [reflexivity|].
  split.
  { apply Forall_app. split; apply Forall_snd_enumerate; assumption. }
  split; [now rewrite Hlen|]. split; [assumption|].
  split; [apply Hc2, Hc1, stack_zeros_nan_free|].
  rewrite <- !app_assoc. reflexivity.
Qed.

(** X25. The output folder given to [align] reaches [align_suvr] only:
    when there is coffee-break data, [align] returns only if [niidat]
    itself has an entry ['outpath'], and the result of the break is
    stored to, or read back from, the folder ['NIfTI_aligned'] of that
    entry, as the last action of the call. *)
Theorem align_break_data_needs_niidat_outpath nd Cnt reg_tool com_correction outpath
    use_stored tr r tr' bd :
  id_acq_break asvc nd = Ok (Some bd) ->
  align svc asvc nd Cnt reg_tool com_correction outpath use_stored tr = (Ok r, tr') ->
  exists q study t,
    nd_outpath nd = Some q
    /\ let f := pjoin (pjoin q "NIfTI_aligned")
                  ("Dynamic-early-frames_study-" +:+ study +:+ "_aligned-to-SUVr-ref.npy") in
       tr' = t ++ [XSave f] \/ tr' = t ++ [XLoad f].
Proof.
  unfold align. intros Hbd E.
  apply X_bind_inv in E as (opth & t1 & _ & E).
  apply X_bind_inv in E as (stat & t2 & _ & E).
  apply X_bind_inv in E as (asuvr & t3 & _ & E).
  unfold align_break in E.
  apply X_bind_inv in E as (bdyn & t4 & E4 & E). apply xlift_inv in E4 as [E4 ->].
  rewrite Hbd in E4. injection E4 as <-.
  apply X_bind_inv in E as (ts0 & t5 & E5 & E). apply xlift_inv in E5 as [E5 ->].
  apply X_bind_inv in E as (dcycrr & t6 & E6 & E). apply xlift_inv in E6 as [E6 ->].
  apply X_bind_inv in E as (k0 & t7 & E7 & E). apply xlift_inv in E7 as [E7 ->].
  apply X_bind_inv in E as (e0 & t8 & E8 & E). apply xlift_inv in E8 as [E8 ->].
  apply X_bind_inv in E as (study & t9 & E9 & E). apply xlift_inv in E9 as [E9 ->].
  apply X_bind_inv in E as (outp & t10 & E10 & E). apply xlift_inv in E10 as [E10 ->].
  unfold niidat_outpath in E10. destruct (nd_outpath nd) as [q|] eqn:Eq; [|discriminate].
  injection E10 as ->. exists outp, study.
  destruct (use_stored && is_file svc _).
  - apply X_bind_inv in E as ([] & t11 & E11 & E). apply xemit_inv in E11 as ->.
    apply xlift_inv in E as [_ ->]. exists t3. split; [reflexivity|]. right. reflexivity.
  - apply X_bind_inv in E as (fniis & t11 & E11 & E). apply xlift_inv in E11 as [E11 ->].
    apply X_bind_inv in E as (aligned & t12 & E12 & E).
    apply X_bind_inv in E as (f0_ & t13 & E13 & E). apply xlift_inv in E13 as [E13 ->].
    apply X_bind_inv in E as (tmp & t14 & E14 & E). apply xlift_inv in E14 as [E14 ->].
    apply X_bind_inv in E as (niia & t15 & E15 & E). apply xlift_inv in E15 as [E15 ->].
    apply X_bind_inv in E as (niia' & t16 & E16 & E). apply xlift_inv in E16 as [E16 ->].
    apply X_bind_inv in E as (trnsp & t17 & E17 & E). apply xlift_inv in E17 as [E17 ->].
    apply X_bind_inv in E as ([] & t18 & E18 & E). apply xemit_inv in E18 as ->.
    apply X_bind_inv in E as ([] & t19 & E19 & E). apply xemit_inv in E19 as ->.
    apply xmret_inv in E as [_ ->]. eexists. split; [reflexivity|]. left. reflexivity.
Qed.

End AlignBreakFacts.

(** * The rest of [align_suvr]: where it writes and which tool it calls *)

Lemma xeo_mret {F A} (P : xevent F -> Prop) (a : A) : xemits_only P (mret a).
Proof. intros tr. exists []. rewrite app_nil_r. split; [reflexivity|constructor]. Qed.

Lemma xeo_lift {F A} (P : xevent F -> Prop) (r : result A) : xemits_only P (xlift r).
Proof. intros tr. exists []. rewrite app_nil_r. split; [reflexivity|constructor]. Qed.

Lemma xeo_emit {F} (P : xevent F -> Prop) ev : P ev -> xemits_only P (xemit ev).
Proof. intros Hev tr. exists [ev]. split; [reflexivity|]. now constructor. Qed.

Lemma xeo_bind {F A B} (P : xevent F -> Prop) (m : X F A) (k : A -> X F B) :
  xemits_only P m -> (forall a, xemits_only P (k a)) -> xemits_only P (m ≫= k).
Proof.
  intros Hm Hk tr. unfold mbind, X_bind. destruct (Hm tr) as (w & E & Hw).
  destruct (m tr) as [[a|e] tr1]; simpl in E; subst tr1.
  - destruct (Hk a (tr ++ w)) as (w' & E' & Hw'). exists (w ++ w').
    rewrite E', app_assoc. split; [reflexivity|]. now apply Forall_app.
  - exists w. auto.
Qed.

Lemma xeo_foldM {F A S} (P : xevent F -> Prop) (f : S -> A -> X F S) l s :
  (forall s x, xemits_only P (f s x)) -> xemits_only P (xfoldM f l s).
Proof.
  intros Hf. revert s. induction l as [|x l IH]; intros s; simpl.
  - apply xeo_mret.
  - apply xeo_bind; [apply Hf|]. intros s'. apply IH.
Qed.

Lemma xeo_core {F A} (P : xevent F -> Prop) (Q : event F -> Prop) (m : M F A) :
  (forall ev, Q ev -> P (XCore ev)) -> emits_only Q m -> xemits_only P (core m).
Proof.
  intros HQP Hm tr. unfold core. destruct (Hm []) as (w & E & Hw).
  destruct (m []) as [r w']. simpl in E. subst w'. exists (map XCore w).
  split; [reflexivity|]. apply Forall_map. eapply Forall_impl; eauto.
Qed.

Lemma prefix_pjoin (d : path) c : d `prefix_of` pjoin d c.
Proof. unfold pjoin. now apply prefix_app_r. Qed.

Ltac xeo_step :=
  first [ apply xeo_mret | apply xeo_lift | apply xeo_bind; [|intros] ].

Section AlignSuvrRestEffects.

Context {F : Type} `{FloatOps F}.
Variable svc : services F.
Variable asvc : @align_services F.

(** X26. After the SUVr frames, [align_suvr] works inside the folder
    ['NIfTI_aligned'] of its output folder only, whether it returns or
    raises, and calls no DIPY tool: the frames outside the SUVr window
    are registered by [align_frames] with its default tool, SPM,
    whatever [reg_tool] the caller has chosen. *)
Theorem align_suvr_rest_stays_in_folder stat Cnt outpath save_not_aligned com_correction
    o tr fl :
  suvr_file_names svc (sw_stat stat) outpath com_correction = Ok fl ->
  exists w,
    snd (align_suvr_rest svc asvc stat Cnt outpath save_not_aligned com_correction o tr)
    = tr ++ w
    /\ Forall (fun ev => xwrites_under (f_niidir fl) ev /\ is_dipy_xevent ev = false) w.
Proof.
  intros Hfl. revert tr.
  change (xemits_only (fun ev => xwrites_under (f_niidir fl) ev /\ is_dipy_xevent ev = false)
            (align_suvr_rest svc asvc stat Cnt outpath save_not_aligned com_correction o)).
  set (P := fun ev : xevent F => _).
  assert (Hfiles : f_rsmpl_opth fl = pjoin (f_niidir fl) "SPM-aligned"
                   /\ parent (parent (f_faligned_c fl)) = f_niidir fl
                   /\ parent (f_faligned_s fl) = f_niidir fl
                   /\ parent (f_falign_dct fl) = f_niidir fl
                   /\ parent (parent (f_fnotaligned fl)) = f_niidir fl).
  { unfold suvr_file_names in Hfl.
    apply result_bind_inv in Hfl as (k0 & _ & Hfl).
    apply result_bind_inv in Hfl as (e0 & _ & Hfl). injection Hfl as <-.
    cbn [f_rsmpl_opth f_niidir f_faligned_c f_faligned_s f_falign_dct f_fnotaligned].
    rewrite !parent_pjoin. auto. }
  destruct Hfiles as (Hr & Hc & Hs & Hd & Hn).
  assert (Hpp : forall p : path, parent (parent p) = f_niidir fl -> f_niidir fl `prefix_of` p).
  { intros p <-. etrans; apply parent_prefix. }
  assert (Hp : forall p : path, parent p = f_niidir fl -> f_niidir fl `prefix_of` p).
  { intros p <-. apply parent_prefix. }
  intros tr. unfold align_suvr_rest.
  unfold mbind at 1, X_bind at 1, xlift at 1. rewrite Hfl. revert tr.
  match goal with
  | |- forall tr, exists w, snd (?m tr) = _ /\ _ => change (xemits_only P m)
  end.
  assert (Hcore : forall m : M F (frames_out (F := F)),
            emits_only (align_frames_event "spm" (pjoin (f_niidir fl) "mashed")
                          (pjoin (pjoin (f_niidir fl) "mashed") "aligned") None) m ->
            xemits_only P (core m)).
  { intros m. apply xeo_core. intros ev Hev. unfold P, xwrites_under.
    assert (Hm : f_niidir fl `prefix_of` pjoin (f_niidir fl) "mashed") by apply prefix_pjoin.
    assert (Ha : f_niidir fl `prefix_of` pjoin (pjoin (f_niidir fl) "mashed") "aligned")
      by (etrans; [exact Hm|apply prefix_pjoin]).
    destruct ev; simpl in *.
    - auto.
    - split; [|reflexivity]. destruct Hev as [->| ->]; assumption.
    - split; [|reflexivity]. destruct Hev as [[Hf _]|[Hf _]]; [|discriminate].
      apply Hpp. rewrite Hf. apply parent_pjoin.
    - split; [|reflexivity]. now destruct Hev as [_ ->].
    - destruct Hev as [Hd' _]. discriminate.
    - split; [|reflexivity]. now destruct Hev as [_ ->].
    - destruct Hev as [Hd' _]. discriminate.
    - split; [|reflexivity]. etrans; [exact Ha|]. rewrite <- Hev. apply parent_prefix.
    - destruct Hev. }
  repeat first
    [ apply xeo_mret | apply xeo_lift
    | apply xeo_foldM; intros; unfold com_step
    | apply Hcore; apply (align_frames_events svc _ _ _ _ "spm" false None (Some (f_niidir fl)))
    | apply xeo_emit; unfold P, xwrites_under; cbn [xwritten written is_dipy_xevent is_dipy_event];
      split; [|reflexivity]
    | apply xeo_bind; [|intros]
    | match goal with |- xemits_only _ (if ?b then _ else _) => destruct b end ].
  - reflexivity.
  - rewrite Hr. apply prefix_pjoin.
  - now apply Hpp.
  - now apply Hpp.
  - now apply Hp.
  - now apply Hp.
Qed.

End AlignSuvrRestEffects.

(** * The further theorems at work on the small study *)

Module WitnessWide.
Import Demo DemoWide.

(** The value of a run of the model, with the equation that gives it. *)
Ltac run t :=
  let v := eval vm_compute in t in
  let E := fresh "Erun" in
  assert (E : t = v) by (vm_compute; reflexivity).

Lemma align_frames_output_sizes_witness :
  exists out tr',
    align_frames demo_svc [fa; fb; fc] demo_times fref_demo (demo_cfg "rss" 1%Q) "spm"
      false None None [] = (Ok out, tr')
    /\ length (faligned out) = 3%nat
    /\ length (rot_trans out) = 3%nat
    /\ length (mashed_files out) = length (mashed_frame_idx out)
    /\ length (affines out) = length (mashed_frame_idx out)
    /\ length (metric out) = length (mashed_frame_idx out)
    /\ length (metric2 out) = length (mashed_frame_idx out)
    /\ length (mashed_frame_idx out) = 2%nat.
Proof.
  run (align_frames demo_svc [fa; fb; fc] demo_times fref_demo (demo_cfg "rss" 1%Q) "spm"
         false None None []).
  eexists _, _. split; [exact Erun|].
  pose proof (align_frames_output_sizes demo_svc [fa; fb; fc] demo_times fref_demo
                (demo_cfg "rss" 1%Q) "spm" false None None [] _ _ Erun)
    as (H1 & H2 & H3 & H4 & H5 & H6).
  repeat split; first [exact H1|exact H2|exact H3|exact H4|exact H5|exact H6|reflexivity].
Defined.

Lemma align_frames_metric_without_spm_witness :
  exists out tr',
    align_frames demo_svc [fa; fb; fc] demo_times fref_demo (demo_cfg "adst" 1%Q) "dipy"
      false None None [] = (Ok out, tr')
    /\ metric out = [0%Q; 0%Q]
    /\ rot_trans out = replicate 3 (replicate 6 0%Q).
Proof.
  run (align_frames demo_svc [fa; fb; fc] demo_times fref_demo (demo_cfg "adst" 1%Q) "dipy"
         false None None []).
  eexists _, _. split; [exact Erun|].
  assert (Hne : "dipy" <> "spm") by discriminate.
  pose proof (align_frames_metric_without_spm demo_svc [fa; fb; fc] demo_times fref_demo
                (demo_cfg "adst" 1%Q) "dipy" false None None [] _ _ Hne Erun)
    as (H1 & H2 & _).
  split; [exact H1|exact H2].
Defined.

Lemma align_frames_mashed_files_witness :
  exists out tr',
    align_frames demo_svc [fa; fb; fc] demo_times fref_demo (demo_cfg "rss" 1%Q) "spm"
      false None None [] = (Ok out, tr')
    /\ Forall2 (fun mgrp fout =>
                  mashed_name [fa; fb; fc] (mashed_dir [fa; fb; fc] None) mgrp = Some fout)
               (mashed_frame_idx out) (mashed_files out)
    /\ mashed_files out = [["data"; "mashed"; "mashed_n2_a.nii"];
                           ["data"; "mashed"; "mashed_n1_c.nii"]].
Proof.
  run (align_frames demo_svc [fa; fb; fc] demo_times fref_demo (demo_cfg "rss" 1%Q) "spm"
         false None None []).
  eexists _, _. split; [exact Erun|].
  pose proof (align_frames_mashed_files demo_svc [fa; fb; fc] demo_times fref_demo
                (demo_cfg "rss" 1%Q) "spm" false None None [] _ _ Erun) as (H1 & _).
  split; [exact H1|reflexivity].
Defined.

Lemma align_frames_4d_output_witness :
  exists out tr' niia t ev,
    align_frames demo_svc [fa; fb; fc] demo_times fref_demo (demo_cfg "rss" 1%Q) "spm"
      true None None [] = (Ok out, tr')
    /\ f4d_out out = Some ["data"; "aligned_via_mashing_using_ref_4D.nii.gz"]
    /\ im4d out = Some niia
    /\ tr' = t ++ [ev]
    /\ written ev = Some ["data"; "aligned_via_mashing_using_ref_4D.nii.gz"]
    /\ length (frames niia) = 3%nat
    /\ nan_free niia.
Proof.
  run (align_frames demo_svc [fa; fb; fc] demo_times fref_demo (demo_cfg "rss" 1%Q) "spm"
         true None None []).
  destruct (align_frames_4d_output demo_svc [fa; fb; fc] demo_times fref_demo
              (demo_cfg "rss" 1%Q) "spm" true None None [] _ _ Erun)
    as (niia & t & ev & H1 & H2 & H3 & H4 & H5 & H6 & _).
  eexists _, _, niia, t, ev. split; [exact Erun|].
  repeat split; assumption.
Defined.

Lemma align_frames_without_short_frames_witness :
  exists out tr',
    align_frames demo_svc [fa; fb; fc] demo_times_long fref_demo (demo_cfg "rss" 1%Q) "spm"
      false None None [] = (Ok out, tr')
    /\ mashed_frame_idx out = [[0]; [1]; [2]]%nat
    /\ mashed_files out !! 2%nat = Some ["data"; "mashed"; "mashed_n1_c.nii"].
Proof.
  run (align_frames demo_svc [fa; fb; fc] demo_times_long fref_demo (demo_cfg "rss" 1%Q)
         "spm" false None None []).
  eexists _, _. split; [exact Erun|].
  assert (Hd : frame_min_dur (demo_cfg "rss" 1%Q) <> 0) by discriminate.
  assert (Hl : Forall (fun t => frame_min_dur (demo_cfg "rss" 1%Q) <= snd t - fst t)
                 [(0, 60); (60, 120); (120, 180)])
    by (repeat constructor; simpl; lia).
  pose proof (align_frames_without_short_frames demo_svc [fa; fb; fc] demo_times_long
                fref_demo (demo_cfg "rss" 1%Q) "spm" false None None [] _ _
                [(0, 60); (60, 120); (120, 180)] (or_introl eq_refl) Hd eq_refl Hl Erun)
    as (H1 & H2).
  split; [exact H1|].
  destruct (H2 2%nat fc eq_refl) as (r & d & aff & Hf & _). exact Hf.
Defined.

Lemma align_frames_zero_min_dur_witness :
  (forall out tr',
      align_frames demo_svc [fa; fb; fc] demo_times fref_demo demo_cfg_zero "spm"
        false None None [] <> (Ok out, tr'))
  /\ exists w,
       align_frames demo_svc [fa; fb; fc] demo_times fref_demo demo_cfg_zero "spm"
         false None None []
       = (Raise (ValueError Mash.msg_nan),
          [] ++ w ++ [EvCreateDir ["data"; "mashed"];
                      EvCreateDir ["data"; "mashed"; "aligned"]]).
Proof.
  destruct (align_frames_zero_min_dur demo_svc [fa; fb; fc] demo_times fref_demo
              demo_cfg_zero "spm" false None None [] eq_refl) as [H1 H2].
  split; [exact H1|].
  destruct (H2 [(0, 30); (30, 60); (60, 120)]) as (w & _ & E).
  - left. reflexivity.
  - reflexivity.
  - discriminate.
  - repeat constructor; simpl; lia.
  - exists w. exact E.
Defined.

Lemma align_frames_leftover_short_frame_witness :
  exists w,
    align_frames demo_svc [fa; fb] demo_times_leftover fref_demo (demo_cfg "rss" 1%Q) "spm"
      false None None []
    = (Raise (ValueError Mash.msg_mash1),
       [] ++ w ++ [EvCreateDir ["data"; "mashed"];
                   EvCreateDir ["data"; "mashed"; "aligned"]]).
Proof.
  destruct (align_frames_leftover_short_frame demo_svc [fa; fb] demo_times_leftover
              fref_demo (demo_cfg "rss" 1%Q) "spm" false None None []
              [(0, 60); (60, 90)] (60, 90)) as (w & _ & E).
  - left. reflexivity.
  - reflexivity.
  - discriminate.
  - reflexivity.
  - simpl. lia.
  - right. left. reflexivity.
  - reflexivity.
  - reflexivity.
  - exists w. exact E.
Defined.

Lemma align_suvr_no_suvr_frames_witness :
  exists w msg,
    align_suvr demo_svc demo_stat_no_suvr (demo_cfg "rss" 1%Q) "spm" (Some ["out"]) false []
    = (Raise (ValueError msg),
       [] ++ w ++ [EvCreateDir ["out"; "NIfTI_aligned"];
                   EvCreateDir ["out"; "NIfTI_aligned"; "intermediate"];
                   EvCreateDir ["out"; "NIfTI_aligned"; "SPM-aligned"]]).
Proof.
  destruct (align_suvr_no_suvr_frames demo_svc demo_stat_no_suvr (demo_cfg "rss" 1%Q) "spm"
              (Some ["out"]) [] "a" (demo_entry fa)) as (w & msg & _ & E).
  - left. reflexivity.
  - reflexivity.
  - reflexivity.
  - reflexivity.
  - exists w, msg. exact E.
Defined.

Lemma align_suvr_reference_first_witness :
  exists o tr' l,
    align_suvr demo_svc (sw_stat demo_stat_wide) (demo_cfg "rss" 1%Q) "spm" (Some ["out"])
      false [] = (Ok (Some o), tr')
    /\ so_rfrm o = 0%nat
    /\ so_fnii_aligned o = fb :: l
    /\ length (frames (so_niiim o)) = 2%nat
    /\ nan_free (so_niiim o).
Proof.
  run (align_suvr demo_svc (sw_stat demo_stat_wide) (demo_cfg "rss" 1%Q) "spm" (Some ["out"])
         false []).
  destruct (align_suvr_reference_first demo_svc (sw_stat demo_stat_wide) (demo_cfg "rss" 1%Q)
              "spm" (Some ["out"]) false [] _ _ Erun)
    as (es & e0 & fnref & l & Hes & Href & Hl & _ & Hn & Hfree).
  vm_compute in Hes. injection Hes as <-. vm_compute in Href. injection Href as <-.
  eexists _, _, l. split; [exact Erun|].
  split; [reflexivity|]. split; [exact Hl|]. split; [exact Hn|exact Hfree].
Defined.

Lemma extract_vois_4d_records_witness :
  exists out,
    fst (extract_vois demo_svc (ArgArray 0%nat) (ArgArray 1%nat) demo_vois MaskNone None
           false (demo_store demo_pet4d)) = (Ok out, [])
    /\ out !! "frontal"
       = Some (voi_record_4d demo_pet4d (nan_to_zero demo_labels) [1; 2] false).
Proof.
  destruct (extract_vois_4d_records demo_svc 0%nat 1%nat demo_vois None false
              (demo_store demo_pet4d)) as (out & E & Hrec & _).
  - discriminate.
  - reflexivity.
  - right. reflexivity.
  - reflexivity.
  - apply NoDup_singleton.
  - exists out. split; [exact E|]. apply (Hrec "frontal" [1; 2]). left. reflexivity.
Defined.

Lemma extract_vois_writes_no_mask_witness :
  snd (fst (extract_vois demo_svc (ArgArray 0%nat) (ArgArray 1%nat) demo_vois MaskNone
              (Some ["out"]) true (demo_store demo_pet4d))) = [].
Proof.
  destruct (extract_vois_writes_no_mask demo_svc (ArgArray 0%nat) (ArgArray 1%nat) demo_vois
              MaskNone (Some ["out"]) true (demo_store demo_pet4d) (or_introl eq_refl))
    as [E _].
  exact E.
Defined.

Lemma extract_vois_unusable_pet_witness :
  fst (extract_vois demo_svc ArgOther (ArgArray 1%nat) demo_vois MaskNone None false
         (demo_store demo_pet4d))
  = (Raise (UnboundLocalError "im"), []).
Proof.
  exact (extract_vois_unusable_pet demo_svc ArgOther 1%nat demo_vois None false
           (demo_store demo_pet4d) (or_introl eq_refl)).
Defined.

Lemma extract_vois_mask_needs_transpose_witness :
  fst (extract_vois demo_svc (ArgArray 0%nat) (ArgDict 1%nat None None None) demo_vois
         MaskNone (Some ["out"]) false (demo_store demo_pet4d))
  = (Raise (AttributeError "'NoneType' object has no attribute 'index'"),
     [EvCreateDir ["out"]]).
Proof.
  exact (extract_vois_mask_needs_transpose demo_svc (ArgArray 0%nat) 1%nat None None
           ("frontal", [1; 2]) [] ["out"] false (demo_store demo_pet4d)
           (or_introl (ex_intro _ 0%nat eq_refl))).
Defined.

Lemma extract_vois_bad_atlas_mask_witness :
  extract_vois demo_svc (ArgArray 0%nat) (ArgArray 1%nat) demo_vois MaskOther None false
    (demo_store demo_pet4d)
  = ((Raise (ValueError "Incorrectly provided atlas mask"), []),
     store_set (demo_store demo_pet4d) 1%nat (nan_to_zero (demo_store demo_pet4d 1%nat))).
Proof.
  exact (extract_vois_bad_atlas_mask demo_svc 0%nat 1%nat demo_vois MaskOther None false
           (demo_store demo_pet4d) (or_introl eq_refl)).
Defined.

Lemma atl2pet_returns_witness :
  exists out tr',
    atl2pet demo_svc demo_psvc fref_demo ["atl"; "hammers.nii.gz"] demo_cldct (Some ["out"]) []
    = (Ok out, tr')
    /\ length tr' = 8%nat
    /\ ao_outpath out = ["out"]
    /\ (forall v, In v (data (atlpet out)) -> fisnan v = false).
Proof.
  run (atl2pet demo_svc demo_psvc fref_demo ["atl"; "hammers.nii.gz"] demo_cldct
         (Some ["out"]) []).
  destruct (atl2pet_returns demo_svc demo_psvc fref_demo ["atl"; "hammers.nii.gz"] demo_cldct
              (Some ["out"]) [] _ _ Erun)
    as (opth & src & c1 & M & bbox & Ho & Hout & (Htr & _) & Hatl & _).
  injection Ho as <-.
  eexists _, _. split; [exact Erun|].
  split; [reflexivity|]. split; [exact Hout|exact Hatl].
Defined.

Lemma proc_vois_atlas_names_witness :
  proc_vois demo_svc demo_psvc (demo_niidat None) fref_demo fa demo_cldct (AtlasStr "aal")
    VoiNone 1 (Some ["out"]) false []
  = (Raise (ValueError "unrecognised atlas name!"),
     [] ++ [XCore (EvCreateDir ["out"]); XGetAtlas "aal" 1])
  /\ proc_vois demo_svc demo_psvc (demo_niidat None) fref_demo fa demo_cldct (AtlasStr "all")
       VoiNone 1 (Some ["out"]) false []
     = (Raise (UnboundLocalError "fatl"), [] ++ [XCore (EvCreateDir ["out"])]).
Proof.
  assert (Hv : forall d, VoiNone <> VoiDict d) by discriminate.
  split.
  - destruct (proc_vois_atlas_names demo_svc demo_psvc (demo_niidat None) fref_demo fa
                demo_cldct (AtlasStr "aal") VoiNone 1 (Some ["out"]) false [] ["out"]
                Hv eq_refl) as (_ & H2 & _).
    exact (H2 eq_refl _ eq_refl).
  - destruct (proc_vois_atlas_names demo_svc demo_psvc (demo_niidat None) fref_demo fa
                demo_cldct (AtlasStr "all") VoiNone 1 (Some ["out"]) false [] ["out"]
                Hv eq_refl) as (_ & _ & H3).
    exact (H3 eq_refl).
Defined.

Lemma align_suvr_rest_needs_single_frames_witness :
  exists o w d tr',
    align_suvr demo_svc (sw_stat demo_stat_wide) (demo_cfg "rss" 1%Q) "spm" None false []
    = (Ok (Some o), w)
    /\ align_suvr_rest demo_svc demo_asvc demo_stat_wide (demo_cfg "rss" 1%Q) None true true o
         (map XCore w) = (Ok d, tr')
    /\ exists aligned_wide u,
         align_frames demo_svc [fa] (Times2D [[0; 60]]) ["NIfTI_aligned"; "suvr_com.nii"]
           (demo_cfg "rss" 1%Q) "spm" false None (Some ["NIfTI_aligned"]) []
         = (Ok aligned_wide, u)
         /\ Forall (fun g => length g = 1%nat) (mashed_frame_idx aligned_wide)
         /\ length (mashed_frame_idx aligned_wide) = 1%nat.
Proof.
  run (align_suvr demo_svc (sw_stat demo_stat_wide) (demo_cfg "rss" 1%Q) "spm" None false []).
  match type of Erun with
  | _ = (Ok (Some ?o), ?w) =>
      run (align_suvr_rest demo_svc demo_asvc demo_stat_wide (demo_cfg "rss" 1%Q) None true
             true o (map XCore w))
  end.
  destruct (align_suvr_rest_needs_single_frames demo_svc demo_asvc demo_stat_wide
              (demo_cfg "rss" 1%Q) None true true _ _ _ _ Erun0)
    as (fl & sf & fall & ts_r & aw & u & Hfl & Hsf & Hfall & Hts & Haw & _ & Hs & Hl).
  vm_compute in Hfl. injection Hfl as <-.
  vm_compute in Hsf. injection Hsf as <-.
  vm_compute in Hfall. injection Hfall as <-.
  vm_compute in Hts. injection Hts as <-.
  eexists _, _, _, _. split; [exact Erun|]. split; [exact Erun0|].
  exists aw, u. split; [exact Haw|]. split; [exact Hs|exact Hl].
Defined.

(** With two frames of half a minute outside the SUVr window
    [align_frames] returns one group for both, and the rest of
    [align_suvr] raises [IndexError] at the second of them. *)
Example align_suvr_rest_mashed_frames :
  exists o w aligned_wide u msg,
    align_suvr demo_svc (sw_stat demo_stat_short) (demo_cfg "rss" 1%Q) "spm" None false []
    = (Ok (Some o), w)
    /\ align_frames demo_svc [fa; fb] (Times2D [[0; 30]; [30; 60]])
         ["NIfTI_aligned"; "suvr_com.nii"] (demo_cfg "rss" 1%Q) "spm" false None
         (Some ["NIfTI_aligned"]) [] = (Ok aligned_wide, u)
    /\ mashed_frame_idx aligned_wide = [[0; 1]]%nat
    /\ fst (align_suvr_rest demo_svc demo_asvc demo_stat_short (demo_cfg "rss" 1%Q) None true
              true o (map XCore w)) = Raise (IndexError msg).
Proof.
  eexists _, _, _, _, _. split; [vm_compute; reflexivity|].
  split; [vm_compute; reflexivity|]. split; [reflexivity|]. vm_compute. reflexivity.
Qed.

Lemma align_break_stacks_break_then_static_witness :
  exists r tr' bp,
    align_break demo_svc demo_asvc (demo_niidat (Some ["study"])) demo_aligned_suvr
      (demo_cfg "rss" 1%Q) "spm" false [] = (Ok r, tr')
    /\ ar_suvr r = demo_aligned_suvr
    /\ ar_break r = Some bp
    /\ bp_fpeti bp = [Some ["study"; "mashed"; "aligned"; "rd.nii"];
                      Some ["study"; "mashed"; "aligned"; "re.nii"]; Some fa; Some fb]
    /\ bp_fpet bp = ["study"; "NIfTI_aligned";
                     "Dynamic-4-frames_study-t0_aligned-to-SUVr-ref.nii.gz"].
Proof.
  run (align_break demo_svc demo_asvc (demo_niidat (Some ["study"])) demo_aligned_suvr
         (demo_cfg "rss" 1%Q) "spm" false []).
  destruct (align_break_stacks_break_then_static demo_svc demo_asvc
              (demo_niidat (Some ["study"])) demo_aligned_suvr (demo_cfg "rss" 1%Q) "spm"
              [] _ _ Erun) as [Hs _].
  eexists _, _, _. split; [exact Erun|]. split; [exact Hs|].
  split; [reflexivity|]. split; reflexivity.
Defined.

Lemma align_break_data_needs_niidat_outpath_witness :
  exists r tr' q study t,
    align demo_svc demo_asvc (demo_niidat (Some ["study"])) (demo_cfg "rss" 1%Q) "spm" true
      (Some ["out"]) true [] = (Ok r, tr')
    /\ nd_outpath (demo_niidat (Some ["study"])) = Some q
    /\ (let f := pjoin (pjoin q "NIfTI_aligned")
                   ("Dynamic-early-frames_study-" +:+ study +:+ "_aligned-to-SUVr-ref.npy") in
        tr' = t ++ [XSave f] \/ tr' = t ++ [XLoad f])
    /\ In (XCore (EvCreateDir ["out"])) tr'.
Proof.
  run (align demo_svc demo_asvc (demo_niidat (Some ["study"])) (demo_cfg "rss" 1%Q) "spm" true
         (Some ["out"]) true []).
  destruct (align_break_data_needs_niidat_outpath demo_svc demo_asvc
              (demo_niidat (Some ["study"])) (demo_cfg "rss" 1%Q) "spm" true (Some ["out"])
              true [] _ _ demo_break eq_refl Erun) as (q & study & t & Hq & Ht).
  eexists _, _, q, study, t. split; [exact Erun|].
  split; [exact Hq|]. split; [exact Ht|].
  left. reflexivity.
Defined.

Lemma align_suvr_rest_stays_in_folder_witness :
  exists o w u,
    align_suvr demo_svc (sw_stat demo_stat_wide) (demo_cfg "rss" 1%Q) "dipy" (Some ["out"])
      false [] = (Ok (Some o), w)
    /\ snd (align_suvr_rest demo_svc demo_asvc demo_stat_wide (demo_cfg "rss" 1%Q)
              (Some ["out"]) true true o []) = [] ++ u
    /\ Forall (fun ev => xwrites_under ["out"; "NIfTI_aligned"] ev
                         /\ is_dipy_xevent ev = false) u
    /\ In (XCore (EvResampleSpm ["out"; "NIfTI_aligned"; "suvr_com.nii"] fa
                    (Some ["out"; "NIfTI_aligned"; "mashed"; "affine-spm.npy"])
                    ["out"; "NIfTI_aligned"; "mashed"; "aligned"])) u.
Proof.
  run (align_suvr demo_svc (sw_stat demo_stat_wide) (demo_cfg "rss" 1%Q) "dipy" (Some ["out"])
         false []).
  run (suvr_file_names demo_svc (sw_stat demo_stat_wide) (Some ["out"]) true).
  match type of Erun with
  | _ = (Ok (Some ?o), ?w) =>
      destruct (align_suvr_rest_stays_in_folder demo_svc demo_asvc demo_stat_wide
                  (demo_cfg "rss" 1%Q) (Some ["out"]) true true o [] _ Erun0)
        as (u & Hu & HP);
      exists o, w, u
  end.
  split; [exact Erun|]. split; [exact Hu|]. split; [exact HP|].
  vm_compute in Hu. subst u. vm_compute. tauto.
Defined.

End WitnessWide.
